(** * Marlin: the job/task store client (lib/marlin.js) and the per-zone
    lackey (lib/agent/lackey.js)

    A shallow embedding of the two programs and the properties their
    specification states about them.

    - [JS]      the JavaScript values the two programs handle;
    - [Lackey]  the task execution driver, as an event-driven state machine:
                every callback the source registers is a constructor, every
                request to the parent agent an action of the step function;
    - [Moray]   the interface of the record store, as the client uses it;
    - [Marlin]  the store client: creation and read-modify-write of job
                records, the cascading delete, the job listing filter,
                [taskDone] and the fetcher of the job log. *)

From Stdlib Require Import ZArith Lia Ascii.
From stdpp Require Import gmap strings list fin_maps pretty.

Set Warnings "-register-all".
Local Open Scope Z_scope.

(* ===================================================================== *)
(** * JavaScript values *)
(* ===================================================================== *)

Module JS.

(** Numbers are the integers the programs compute with (counts, status
    codes, milliseconds); objects nested inside a record are association
    lists, a record itself (a Moray value) is a [gmap] from property names. *)
Inductive jsval : Type :=
  | JUndefined
  | JNull
  | JBool (b : bool)
  | JNum (n : Z)
  | JStr (s : string)
  | JArr (l : list jsval)
  | JObj (l : list (string * jsval)).

Abbreviation obj := (gmap string jsval).

(** ToBoolean: the test of [if (x)], [x || y] and [!x]. *)
Definition truthy (v : jsval) : bool :=
  match v with
  | JUndefined | JNull => false
  | JBool b => b
  | JNum n => negb (n =? 0)
  | JStr s => negb (bool_decide (s = EmptyString))
  | JArr _ | JObj _ => true
  end.

(** [o[k]]: a property that is not there reads as [undefined]. *)
Definition getprop (o : obj) (k : string) : jsval := default JUndefined (o !! k).

(** [o.hasOwnProperty(k)]. *)
Definition hasOwnProperty (o : obj) (k : string) : bool :=
  bool_decide (is_Some (o !! k)).

(** [a || b] on values. *)
Definition js_or (a b : jsval) : jsval := if truthy a then a else b.

(** ToString, as [+] on a string and the [%s] conversion apply it. *)
Fixpoint to_string (v : jsval) : string :=
  match v with
  | JUndefined => "undefined"
  | JNull => "null"
  | JBool true => "true"
  | JBool false => "false"
  | JNum n => pretty n
  | JStr s => s
  | JArr l =>
      String.concat ","
        (map (fun x => match x with
                       | JUndefined | JNull => EmptyString
                       | _ => to_string x
                       end) l)
  | JObj _ => "[object Object]"
  end.

(** [v == s] for a string [s] that is not the text of a number (ToNumber of
    it is NaN): a string compares by its characters, an object by its
    ToPrimitive, which is ToString; numbers, booleans, null and undefined are
    never equal to such a string. *)
Definition loose_eq_text (v : jsval) (s : string) : bool :=
  match v with
  | JStr t => bool_decide (t = s)
  | JArr _ | JObj _ => bool_decide (to_string v = s)
  | _ => false
  end.

(** ** jsprim's [iso8601(Date.now())]

    [sprintf('%4d-%02d-%02dT%02d:%02d:%02d.%03dZ', ...)] over the UTC fields
    of the date; the civil date is computed from the day number. *)

Definition pad (c : Ascii.ascii) (width : nat) (s : string) : string :=
  String.concat EmptyString (replicate (width - String.length s)%nat (String c EmptyString)) +:+ s.

Definition fmt_d (c : Ascii.ascii) (width : nat) (n : Z) : string := pad c width (pretty n).

Definition ms_per_day : Z := 86400000.

Definition civil_from_days (days : Z) : Z * Z * Z :=
  let z := days + 719468 in
  let era := z / 146097 in
  let doe := z - era * 146097 in
  let yoe := (doe - doe / 1460 + doe / 36524 - doe / 146096) / 365 in
  let doy := doe - (365 * yoe + yoe / 4 - yoe / 100) in
  let mp := (5 * doy + 2) / 153 in
  let d := doy - (153 * mp + 2) / 5 + 1 in
  let m := if mp <? 10 then mp + 3 else mp - 9 in
  let y := yoe + era * 400 + (if m <=? 2 then 1 else 0) in
  (y, m, d).

Definition iso8601 (t : Z) : string :=
  let '(y, m, d) := civil_from_days (t / ms_per_day) in
  let r := t mod ms_per_day in
  fmt_d " "%char 4 y +:+ "-" +:+ fmt_d "0"%char 2 m +:+ "-" +:+ fmt_d "0"%char 2 d +:+ "T" +:+
  fmt_d "0"%char 2 (r / 3600000) +:+ ":" +:+ fmt_d "0"%char 2 (r / 60000 mod 60) +:+ ":" +:+
  fmt_d "0"%char 2 (r / 1000 mod 60) +:+ "." +:+ fmt_d "0"%char 3 (r mod 1000) +:+ "Z".

Arguments iso8601 : simpl never.

End JS.

(* ===================================================================== *)
(** * The lackey: lib/agent/lackey.js *)
(* ===================================================================== *)

Module Lackey.
Import JS.

(** ** Configuration *)

Definition mazRetryTime : Z := 1 * 1000.
Definition mazTaskLivenessInterval : Z := 5 * 1000.

Definition uri_task : string := "/my/jobs/task/task?wait=true".
Definition uri_commit : string := "/my/jobs/task/commit".
Definition uri_fail : string := "/my/jobs/task/fail".
Definition uri_live : string := "/my/jobs/task/live".

(** ** Data *)

(** A batch of reduce keys: what [MarlinExecutor.batch] is given and what
    the [drain] event carries. *)
Record batch : Type := {
  taskInputKeys : list string;
  taskInputDone : bool
}.

(** The task description the parent agent returns; the keys and the flag
    of the description are its [taskBatch]. *)
Record task : Type := {
  taskId : string;
  taskPhase_type : string;
  taskBatch : batch;
  taskInputFile : option string;
  taskInputRemote : option string
}.

(** The [done] event of the executor. *)
Record result : Type := {
  error : option string;
  core : bool;
  signal : option string;
  code : Z
}.

(** The object [mazDecodeError] builds. *)
Record errobj : Type := {
  message : string;
  messageInternal : option string
}.

(** Bodies of the POST requests: [{key, nkeys}] of a batch commit, and the
    [arg] of the final report. *)
Inductive body : Type :=
  | BatchArg (key : string) (nkeys : Z)
  | ReportArg (key : option string) (err : option errobj).

(** The two closures every [mazParentRequest] is given.  [makerequest] issues
    the HTTP request; [callback] receives the outcome. *)
Inductive makerequest : Type :=
  | MkGetTask
  | MkPost (uri : string) (arg : body)
  | MkLive.

Inductive callback : Type :=
  | CbTaskFetch
  | CbDoneBatch (b : batch)
  | CbNextBatch
  | CbTaskReport
  | CbLiveness.

(** An entry of [mazClientRequests], together with the variables the
    response handler of [mazParentRequest] closes over. *)
Record clientreq : Type := {
  time : Z;
  opname : string;
  attempt : Z;
  expected_code : option Z;
  maker : makerequest;
  cb : callback
}.

(** [mazExecutor]: the batch last handed to it, and whether [mazDoneBatch]
    listens to its [drain] event. *)
Record executor : Type := {
  mex_batch : option batch;
  mex_on_drain : bool
}.

(** What the client library passes to the response handler:
    [(err, request, response, result)], with the status code of the response. *)
Record reply : Type := {
  err : option string;
  response : option Z;
  res_task : option task
}.

(** ** State *)

Record lackey : Type := {
  mazLivenessPending : option Z;
  mazRetryTimeout : option nat;
  mazClientRequests : gmap nat clientreq;
  mazPipeline : bool;
  mazCurrentTask : option task;
  mazErrorSave : option string;
  mazExecutor : option executor;
  mazExecutorResult : option result;
  mazUserEmitted : bool;
  (* the event loop: armed retry timers, fresh identifiers, process gone *)
  timers : gmap nat clientreq;
  fresh : nat;
  halted : bool
}.

Definition set_mazLivenessPending v (st : lackey) : lackey :=
  {| mazLivenessPending := v; mazRetryTimeout := mazRetryTimeout st;
     mazClientRequests := mazClientRequests st; mazPipeline := mazPipeline st;
     mazCurrentTask := mazCurrentTask st; mazErrorSave := mazErrorSave st;
     mazExecutor := mazExecutor st; mazExecutorResult := mazExecutorResult st;
     mazUserEmitted := mazUserEmitted st; timers := timers st; fresh := fresh st;
     halted := halted st |}.

Definition set_mazRetryTimeout v (st : lackey) : lackey :=
  {| mazLivenessPending := mazLivenessPending st; mazRetryTimeout := v;
     mazClientRequests := mazClientRequests st; mazPipeline := mazPipeline st;
     mazCurrentTask := mazCurrentTask st; mazErrorSave := mazErrorSave st;
     mazExecutor := mazExecutor st; mazExecutorResult := mazExecutorResult st;
     mazUserEmitted := mazUserEmitted st; timers := timers st; fresh := fresh st;
     halted := halted st |}.

Definition set_mazClientRequests v (st : lackey) : lackey :=
  {| mazLivenessPending := mazLivenessPending st; mazRetryTimeout := mazRetryTimeout st;
     mazClientRequests := v; mazPipeline := mazPipeline st;
     mazCurrentTask := mazCurrentTask st; mazErrorSave := mazErrorSave st;
     mazExecutor := mazExecutor st; mazExecutorResult := mazExecutorResult st;
     mazUserEmitted := mazUserEmitted st; timers := timers st; fresh := fresh st;
     halted := halted st |}.

Definition set_mazPipeline v (st : lackey) : lackey :=
  {| mazLivenessPending := mazLivenessPending st; mazRetryTimeout := mazRetryTimeout st;
     mazClientRequests := mazClientRequests st; mazPipeline := v;
     mazCurrentTask := mazCurrentTask st; mazErrorSave := mazErrorSave st;
     mazExecutor := mazExecutor st; mazExecutorResult := mazExecutorResult st;
     mazUserEmitted := mazUserEmitted st; timers := timers st; fresh := fresh st;
     halted := halted st |}.

Definition set_mazCurrentTask v (st : lackey) : lackey :=
  {| mazLivenessPending := mazLivenessPending st; mazRetryTimeout := mazRetryTimeout st;
     mazClientRequests := mazClientRequests st; mazPipeline := mazPipeline st;
     mazCurrentTask := v; mazErrorSave := mazErrorSave st;
     mazExecutor := mazExecutor st; mazExecutorResult := mazExecutorResult st;
     mazUserEmitted := mazUserEmitted st; timers := timers st; fresh := fresh st;
     halted := halted st |}.

Definition set_mazErrorSave v (st : lackey) : lackey :=
  {| mazLivenessPending := mazLivenessPending st; mazRetryTimeout := mazRetryTimeout st;
     mazClientRequests := mazClientRequests st; mazPipeline := mazPipeline st;
     mazCurrentTask := mazCurrentTask st; mazErrorSave := v;
     mazExecutor := mazExecutor st; mazExecutorResult := mazExecutorResult st;
     mazUserEmitted := mazUserEmitted st; timers := timers st; fresh := fresh st;
     halted := halted st |}.

Definition set_mazExecutor v (st : lackey) : lackey :=
  {| mazLivenessPending := mazLivenessPending st; mazRetryTimeout := mazRetryTimeout st;
     mazClientRequests := mazClientRequests st; mazPipeline := mazPipeline st;
     mazCurrentTask := mazCurrentTask st; mazErrorSave := mazErrorSave st;
     mazExecutor := v; mazExecutorResult := mazExecutorResult st;
     mazUserEmitted := mazUserEmitted st; timers := timers st; fresh := fresh st;
     halted := halted st |}.

Definition set_mazExecutorResult v (st : lackey) : lackey :=
  {| mazLivenessPending := mazLivenessPending st; mazRetryTimeout := mazRetryTimeout st;
     mazClientRequests := mazClientRequests st; mazPipeline := mazPipeline st;
     mazCurrentTask := mazCurrentTask st; mazErrorSave := mazErrorSave st;
     mazExecutor := mazExecutor st; mazExecutorResult := v;
     mazUserEmitted := mazUserEmitted st; timers := timers st; fresh := fresh st;
     halted := halted st |}.

Definition set_mazUserEmitted v (st : lackey) : lackey :=
  {| mazLivenessPending := mazLivenessPending st; mazRetryTimeout := mazRetryTimeout st;
     mazClientRequests := mazClientRequests st; mazPipeline := mazPipeline st;
     mazCurrentTask := mazCurrentTask st; mazErrorSave := mazErrorSave st;
     mazExecutor := mazExecutor st; mazExecutorResult := mazExecutorResult st;
     mazUserEmitted := v; timers := timers st; fresh := fresh st;
     halted := halted st |}.

Definition set_timers v (st : lackey) : lackey :=
  {| mazLivenessPending := mazLivenessPending st; mazRetryTimeout := mazRetryTimeout st;
     mazClientRequests := mazClientRequests st; mazPipeline := mazPipeline st;
     mazCurrentTask := mazCurrentTask st; mazErrorSave := mazErrorSave st;
     mazExecutor := mazExecutor st; mazExecutorResult := mazExecutorResult st;
     mazUserEmitted := mazUserEmitted st; timers := v; fresh := fresh st;
     halted := halted st |}.

Definition set_fresh v (st : lackey) : lackey :=
  {| mazLivenessPending := mazLivenessPending st; mazRetryTimeout := mazRetryTimeout st;
     mazClientRequests := mazClientRequests st; mazPipeline := mazPipeline st;
     mazCurrentTask := mazCurrentTask st; mazErrorSave := mazErrorSave st;
     mazExecutor := mazExecutor st; mazExecutorResult := mazExecutorResult st;
     mazUserEmitted := mazUserEmitted st; timers := timers st; fresh := v;
     halted := halted st |}.

Definition set_halted v (st : lackey) : lackey :=
  {| mazLivenessPending := mazLivenessPending st; mazRetryTimeout := mazRetryTimeout st;
     mazClientRequests := mazClientRequests st; mazPipeline := mazPipeline st;
     mazCurrentTask := mazCurrentTask st; mazErrorSave := mazErrorSave st;
     mazExecutor := mazExecutor st; mazExecutorResult := mazExecutorResult st;
     mazUserEmitted := mazUserEmitted st; timers := timers st; fresh := fresh st;
     halted := v |}.

(** The state [main] leaves: nothing pending, no task. *)
Definition initial : lackey :=
  {| mazLivenessPending := None; mazRetryTimeout := None;
     mazClientRequests := ∅; mazPipeline := false;
     mazCurrentTask := None; mazErrorSave := None;
     mazExecutor := None; mazExecutorResult := None;
     mazUserEmitted := false; timers := ∅; fresh := 0%nat; halted := false |}.

(** ** What the lackey does to the world *)

Inductive action : Type :=
  | HttpGet (id : nat) (uri : string)
  | HttpPost (id : nat) (uri : string) (arg : option body)
  | SetTimeout (id : nat) (ms : Z)
  | SetInterval (ms : Z)
  | ClearInterval
  | StartPipeline (t : option task)
  | ExecutorBatch (b : batch)
  | ProcessExit (status : Z)
  | Throw (what : string).

(** An uncaught exception or [process.exit]: the process is gone. *)
Definition die (a : action) (st : lackey) : lackey * list action :=
  (set_halted true st, [a]).

(** ** [mazParentRequest]

    The request is entered in [mazClientRequests] under a fresh id and
    [makerequest] is called at once, in the same turn of the event loop.
    The liveness closure clears [mazLivenessPending] before it posts. *)

Definition run_makerequest (mk : makerequest) (id : nat) (st : lackey)
  : lackey * list action :=
  match mk with
  | MkGetTask => (st, [HttpGet id uri_task])
  | MkPost uri arg => (st, [HttpPost id uri (Some arg)])
  | MkLive => (set_mazLivenessPending None st, [HttpPost id uri_live None])
  end.

Definition mazParentRequest (now : Z) (op : string) (expected : option Z)
    (mk : makerequest) (k : callback) (att : option Z) (st : lackey)
  : lackey * list action :=
  let uuid := fresh st in
  let att := match att with
             | Some a => if a =? 0 then 1 else a
             | None => 1
             end in
  let rq := {| time := now; opname := op; attempt := att;
               expected_code := expected; maker := mk; cb := k |} in
  let st := set_fresh (S uuid) st in
  let st := set_mazClientRequests (<[uuid := rq]> (mazClientRequests st)) st in
  run_makerequest mk uuid st.

(** ** [mazTaskFetch] *)

Definition mazTaskFetch (now : Z) (st : lackey) : lackey * list action :=
  let st := set_mazRetryTimeout None st in
  mazParentRequest now ("GET " +:+ uri_task) (Some 200) MkGetTask CbTaskFetch None st.

(** ** [mazDoneBatch] *)

Definition mazDoneBatch (now : Z) (b : batch) (st : lackey) : lackey * list action :=
  match taskInputKeys b with
  | [] => (st, [])
  | key0 :: _ =>
      match mazExecutorResult st with
      | Some _ => (st, [])
      | None =>
          let arg := BatchArg key0 (Z.of_nat (length (taskInputKeys b))) in
          mazParentRequest now ("POST " +:+ uri_commit) (Some 204)
            (MkPost uri_commit arg) (CbDoneBatch b) None st
      end
  end.

(** ** [mazDecodeError] and [mazTaskReport] *)

Definition mazDecodeError (pipelineError : option string) (r : option result)
  : option (option errobj) :=
  match pipelineError with
  | Some m => Some (Some {| message := "internal error"; messageInternal := Some m |})
  | None =>
      match r with
      | None => None (* mazExecutorResult['error'] of undefined: TypeError *)
      | Some r =>
          match error r with
          | Some m =>
              Some (Some {| message := "internal error"; messageInternal := Some m |})
          | None =>
              if core r then
                Some (Some {| message := "user command or child process dumped core";
                              messageInternal := None |})
              else match signal r with
                   | Some sig =>
                       Some (Some {| message := "user command terminated by " +:+ sig;
                                     messageInternal := None |})
                   | None =>
                       if negb (code r =? 0) then
                         Some (Some {| message := "user command exited with code " +:+
                                                    pretty (code r);
                                       messageInternal := None |})
                       else Some None
                   end
          end
      end
  end.

Definition mazTaskReport (now : Z) (e : option string) (st : lackey)
  : lackey * list action :=
  match mazCurrentTask st with
  | None => die (Throw "TypeError") st
  | Some t =>
      let reduce := bool_decide (taskPhase_type t = "reduce") in
      if negb reduce && negb (bool_decide (length (taskInputKeys (taskBatch t)) = 1%nat))
      then die (Throw "AssertionError") st
      else
        let key := if reduce then None else head (taskInputKeys (taskBatch t)) in
        match mazDecodeError e (mazExecutorResult st) with
        | None => die (Throw "TypeError") st
        | Some (Some eo) =>
            mazParentRequest now ("POST " +:+ uri_fail) (Some 204)
              (MkPost uri_fail (ReportArg key (Some eo))) CbTaskReport None st
        | Some None =>
            mazParentRequest now ("POST " +:+ uri_commit) (Some 204)
              (MkPost uri_commit (ReportArg key None)) CbTaskReport None st
        end
  end.

(** ** [mazTaskLivenessTick] *)

Definition mazTaskLivenessTick (now : Z) (st : lackey) : lackey * list action :=
  match mazLivenessPending st with
  | Some _ => (st, [])
  | None =>
      let st := set_mazLivenessPending (Some now) st in
      mazParentRequest now ("POST " +:+ uri_live) None MkLive CbLiveness None st
  end.

(** ** The callbacks handed to [mazParentRequest] *)

Definition run_callback (now : Z) (k : callback) (e : option string)
    (r : option task) (st : lackey) : lackey * list action :=
  match k with
  | CbTaskFetch =>
      (* the callback of mazTaskFetch *)
      if bool_decide (e = None) && negb (mazPipeline st) &&
         bool_decide (mazCurrentTask st = None) &&
         match mazExecutor st with None => true | Some _ => false end &&
         match mazExecutorResult st with None => true | Some _ => false end &&
         bool_decide (mazErrorSave st = None)
      then
        let st := set_mazCurrentTask r st in
        let st := set_mazUserEmitted false st in
        let st := set_mazPipeline true st in
        (st, [SetInterval mazTaskLivenessInterval; StartPipeline r])
      else die (Throw "AssertionError") st
  | CbDoneBatch b =>
      (* the callback of the commit in mazDoneBatch *)
      match e with
      | Some _ => die (ProcessExit 1) st
      | None =>
          if taskInputDone b || bool_decide (mazCurrentTask st = None) then (st, [])
          else mazParentRequest now ("GET " +:+ uri_task) (Some 200)
                 MkGetTask CbNextBatch None st
      end
  | CbNextBatch =>
      (* the callback of the long poll in mazDoneBatch *)
      match e with
      | Some _ => die (ProcessExit 1) st
      | None =>
          match mazCurrentTask st, r with
          | Some cur, Some t =>
              if bool_decide (taskId cur = taskId t) then
                let st := set_mazCurrentTask (Some t) st in
                let nextbatch := {| taskInputKeys := taskInputKeys (taskBatch t);
                                    taskInputDone := taskInputDone (taskBatch t) |} in
                match mazExecutor st with
                | None => die (Throw "TypeError") st
                | Some ex =>
                    (set_mazExecutor
                       (Some {| mex_batch := Some nextbatch;
                                mex_on_drain := mex_on_drain ex |}) st,
                     [ExecutorBatch nextbatch])
                end
              else die (Throw "AssertionError") st
          | _, _ => die (Throw "TypeError") st
          end
      end
  | CbTaskReport =>
      (* the callback of mazTaskReport: an error is logged and ignored *)
      let st := set_mazCurrentTask None st in
      let st := set_mazExecutor None st in
      let st := set_mazExecutorResult None st in
      let st := set_mazErrorSave None st in
      mazTaskFetch now st
  | CbLiveness => (st, [])
  end.

(** ** The response handler inside [mazParentRequest] *)

Definition status_expected (expected : option Z) (sc : Z) : bool :=
  match expected with
  | Some c => sc =? c
  | None => (200 <=? sc) && (sc <? 400)
  end.

Definition client_error (resp : option Z) : bool :=
  match resp with
  | Some sc => (400 <=? sc) && negb (sc =? 410) && (sc <? 500)
  | None => false
  end.

(** The three ways out of the handler (and the exception when there is
    neither an error nor a response to read the status of). *)
Inductive verdict : Type :=
  | Deliver
  | Surface
  | Retry
  | NoResponse.

Definition classify (expected : option Z) (r : reply) : verdict :=
  match err r, response r with
  | None, None => NoResponse
  | None, Some sc =>
      if status_expected expected sc then Deliver
      else if client_error (response r) then Surface
      else Retry
  | Some _, _ => if client_error (response r) then Surface else Retry
  end.

Definition on_response (now : Z) (id : nat) (r : reply) (st : lackey)
  : lackey * list action :=
  match mazClientRequests st !! id with
  | None => (st, [])
  | Some rq =>
      let st := set_mazClientRequests (delete id (mazClientRequests st)) st in
      match classify (expected_code rq) r with
      | NoResponse => die (Throw "TypeError") st
      | Deliver => run_callback now (cb rq) None (res_task r) st
      | Surface => run_callback now (cb rq) (err r) None st
      | Retry =>
          let tid := fresh st in
          let st := set_fresh (S tid) st in
          let st := set_timers (<[tid := rq]> (timers st)) st in
          (set_mazRetryTimeout (Some tid) st, [SetTimeout tid mazRetryTime])
      end
  end.

(** The retry timer fires: the same request, [attempt + 1]. *)
Definition on_timeout (now : Z) (tid : nat) (st : lackey) : lackey * list action :=
  match timers st !! tid with
  | None => (st, [])
  | Some rq =>
      let st := set_timers (delete tid (timers st)) st in
      mazParentRequest now (opname rq) (expected_code rq) (maker rq) (cb rq)
        (Some (attempt rq + 1)) st
  end.

(** ** The event loop *)

Inductive event : Type :=
  | EvListening                     (* main: the server listens *)
  | EvSpawn                         (* pipeline stage mazTaskRunSpawn *)
  | EvDrain                         (* the executor emits drain *)
  | EvExecutorDone (r : result)     (* the executor emits done *)
  | EvPipelineDone (e : option string)
  | EvLivenessTick                  (* the interval timer *)
  | EvResponse (id : nat) (r : reply)
  | EvTimeout (id : nat).

(** [mazTaskRunSpawn]: a new [MarlinExecutor], started; [start] hands it the
    first batch when the input is remote. *)
Definition mazTaskRunSpawn (st : lackey) : lackey * list action :=
  match mazCurrentTask st with
  | None => die (Throw "TypeError") st
  | Some t =>
      let remote :=
        match taskInputFile t, taskInputRemote t with
        | None, Some url => negb (bool_decide (url = EmptyString))
        | _, _ => false
        end in
      (set_mazExecutor
         (Some {| mex_batch := if remote then Some (taskBatch t) else None;
                  mex_on_drain := bool_decide (taskPhase_type t = "reduce") |}) st,
       if remote then [ExecutorBatch (taskBatch t)] else [])
  end.

Definition step (now : Z) (ev : event) (st : lackey) : lackey * list action :=
  if halted st then (st, []) else
  match ev with
  | EvListening => mazTaskFetch now st
  | EvSpawn => mazTaskRunSpawn st
  | EvDrain =>
      match mazExecutor st with
      | Some ex =>
          if mex_on_drain ex then
            match mex_batch ex with
            | Some b => mazDoneBatch now b st
            | None => die (Throw "TypeError") st
            end
          else (st, [])
      | None => (st, [])
      end
  | EvExecutorDone r => (set_mazExecutorResult (Some r) st, [])
  | EvPipelineDone e =>
      if mazPipeline st then
        let '(st', acts) := mazTaskReport now e (set_mazPipeline false st) in
        (st', ClearInterval :: acts)
      else
        let '(st', acts) := die (Throw "AssertionError") st in
        (st', ClearInterval :: acts)
  | EvLivenessTick => mazTaskLivenessTick now st
  | EvResponse id r => on_response now id r st
  | EvTimeout id => on_timeout now id st
  end.

(** A run: the events in the order the loop takes them, each with the
    reading of the clock; the actions in the order they are made. *)
Fixpoint run (evs : list (Z * event)) (st : lackey) : lackey * list action :=
  match evs with
  | [] => (st, [])
  | (now, ev) :: rest =>
      let '(st1, a1) := step now ev st in
      let '(st2, a2) := run rest st1 in
      (st2, a1 ++ a2)
  end.

(** The entries of [mazClientRequests] that are heartbeats. *)
Definition is_live (rq : clientreq) : bool :=
  match maker rq with
  | MkLive => true
  | _ => false
  end.

(** The heartbeat requests that were sent and not answered yet. *)
Definition live_in_flight (st : lackey) : nat :=
  size (filter (λ kv, is_live kv.2 = true) (mazClientRequests st)).

(** ** [mazFileSave]

    The callback given to [mantaFileSave] when the capture of [name]
    (stdout or stderr) is over: an error is wrapped and kept in
    [mazErrorSave] unless one is kept already; the stage of the pipeline is
    then called back without an error. *)
Definition mazFileSave_done (name : string) (e : option string) (st : lackey) : lackey :=
  match e with
  | None => st
  | Some m =>
      match mazErrorSave st with
      | Some _ => st
      | None => set_mazErrorSave (Some ("error saving " +:+ name +:+ ": " +:+ m)) st
      end
  end.

End Lackey.

(* ===================================================================== *)
(** * Moray: the record store, as lib/marlin.js uses it *)
(* ===================================================================== *)

Module Moray.
Import JS.

(** [new VError(cause, message)], and the errors the store itself reports
    (no cause). *)
Inductive verror : Type :=
  | VError (message : string) (cause : option verror).

(** What [getObject] yields: the record with its bucket, key, value and
    concurrency token. *)
Record record : Type := {
  bucket : string;
  key : string;
  value : obj;
  _etag : nat
}.

(** [callback(err, x)]. *)
Inductive outcome (A : Type) : Type :=
  | Ok (a : A)
  | Fail (e : verror).
Arguments Ok {A} a.
Arguments Fail {A} e.

(** ** Programs over the store

    Every asynchronous call of the client takes a callback; a program is the
    call with the callback as its continuation.  [Date.now()] and
    [mod_uuid.v4()] read the world as well. *)
Inductive prog (A : Type) : Type :=
  | Ret (a : A)
  | DateNow (k : Z → prog A)
  | UuidV4 (k : string → prog A)
  | GetObject (b k : string) (cont : verror + record → prog A)
  | PutObject (b k : string) (v : obj) (etag : option nat)
      (cont : option verror → prog A).
Arguments Ret {A} a.
Arguments DateNow {A} k.
Arguments UuidV4 {A} k.
Arguments GetObject {A} b k cont.
Arguments PutObject {A} b k v etag cont.

Fixpoint bind {A B : Type} (p : prog A) (f : A → prog B) : prog B :=
  match p with
  | Ret a => f a
  | DateNow k => DateNow (λ t, bind (k t) f)
  | UuidV4 k => UuidV4 (λ u, bind (k u) f)
  | GetObject b key cont => GetObject b key (λ r, bind (cont r) f)
  | PutObject b key v e cont => PutObject b key v e (λ r, bind (cont r) f)
  end.

(** The calls a program makes on the store, in order. *)
Inductive call : Type :=
  | CallGet (b k : string)
  | CallPut (b k : string) (v : obj) (etag : option nat).

Definition is_put (c : call) : bool :=
  match c with
  | CallPut _ _ _ _ => true
  | CallGet _ _ => false
  end.

(** ** A store: anything that answers the calls *)

Record client (W : Type) : Type := {
  date_now : W → Z * W;
  uuid_v4 : W → string * W;
  getObject : string → string → W → (verror + record) * W;
  putObject : string → string → obj → option nat → W → option verror * W
}.
Arguments date_now {W} c w.
Arguments uuid_v4 {W} c w.
Arguments getObject {W} c b k w.
Arguments putObject {W} c b k v etag w.

(** Running a program against a store: the result, the store afterwards and
    the calls made. *)
Fixpoint exec {W A : Type} (c : client W) (p : prog A) (w : W) : A * W * list call :=
  match p with
  | Ret a => (a, w, [])
  | DateNow k => let '(t, w1) := date_now c w in exec c (k t) w1
  | UuidV4 k => let '(u, w1) := uuid_v4 c w in exec c (k u) w1
  | GetObject b key cont =>
      let '(r, w1) := getObject c b key w in
      let '(a, w2, calls) := exec c (cont r) w1 in
      (a, w2, CallGet b key :: calls)
  | PutObject b key v e cont =>
      let '(r, w1) := putObject c b key v e w in
      let '(a, w2, calls) := exec c (cont r) w1 in
      (a, w2, CallPut b key v e :: calls)
  end.

(** ** The store in memory

    One writer at a time.  A put with a token succeeds only on the record that
    still carries the token, and every write gives the record a new one. *)
Record store : Type := {
  objects : gmap (string * string) (obj * nat);
  next_etag : nat;
  clock : Z;
  next_uuid : nat
}.

Definition store_get (b k : string) (s : store) : (verror + record) * store :=
  match objects s !! (b, k) with
  | Some (v, e) => (inr {| bucket := b; key := k; value := v; _etag := e |}, s)
  | None => (inl (VError "ObjectNotFoundError" None), s)
  end.

Definition store_write (b k : string) (v : obj) (s : store) : store :=
  {| objects := <[(b, k) := (v, next_etag s)]> (objects s);
     next_etag := S (next_etag s);
     clock := clock s;
     next_uuid := next_uuid s |}.

Definition store_put (b k : string) (v : obj) (etag : option nat) (s : store)
  : option verror * store :=
  match etag with
  | None => (None, store_write b k v s)
  | Some e =>
      match objects s !! (b, k) with
      | Some (_, e') =>
          if bool_decide (e = e') then (None, store_write b k v s)
          else (Some (VError "EtagConflictError" None), s)
      | None => (Some (VError "EtagConflictError" None), s)
      end
  end.

Definition store_now (s : store) : Z * store :=
  (clock s,
   {| objects := objects s; next_etag := next_etag s;
      clock := clock s + 1; next_uuid := next_uuid s |}).

Definition store_uuid (s : store) : string * store :=
  ("uuid-" +:+ pretty (next_uuid s),
   {| objects := objects s; next_etag := next_etag s;
      clock := clock s; next_uuid := S (next_uuid s) |}).

Definition memory : client store :=
  {| date_now := store_now; uuid_v4 := store_uuid;
     getObject := store_get; putObject := store_put |}.

End Moray.

(* ===================================================================== *)
(** * The store client: lib/marlin.js *)
(* ===================================================================== *)

Module Marlin.
Import JS Moray.

(** ** The client handle *)

Record buckets : Type := {
  job : string;
  jobinput : string;
  error : string;
  task : string;
  taskinput : string;
  taskoutput : string
}.

Record api : Type := {
  ma_buckets : buckets;
  ma_images : list string
}.

(** The [options] argument, where a function reads it: the retry policy (the
    number of retries [mod_retry] grants), the archiver's instance, and the
    [options.options] of [jobDelete]. *)
Record options : Type := {
  retry : option nat;
  wrasse : jsval;
  limit : option Z;
  timeout : option Z
}.

Definition no_options : options :=
  {| retry := None; wrasse := JUndefined; limit := None; timeout := None |}.

(** [x || d] on a number that may be missing. *)
Definition num_or (x : option Z) (d : Z) : Z :=
  match x with
  | Some n => if n =? 0 then d else n
  | None => d
  end.

Definition dquote : string := String (ascii_of_nat 34) EmptyString.

(** ** [jobDelete] *)

Record batchreq : Type := {
  req_bucket : string;
  req_filter : string;
  req_operation : string;
  req_limit : Z
}.

(** An entry of [meta.etags]: the bucket and the count of records deleted
    from it. *)
Record metaent : Type := {
  m_bucket : string;
  m_count : Z
}.

(** The variables the closures of [jobDelete] share. *)
Record jobDelete_state : Type := {
  requests : list batchreq;
  callback_invoked : bool
}.

Inductive jd_action : Type :=
  | ClientBatch (reqs : list batchreq) (tmo : Z)
  | ClientDeleteObject (b k : string)
  | Callback (e : option verror).

Definition jobDelete_limit (o : options) : Z := num_or (limit o) 500.
Definition jobDelete_timeout (o : options) : Z := num_or (timeout o) (300 * 1000).

Definition deleteMany (b jobId : string) (lim : Z) : batchreq :=
  {| req_bucket := b; req_filter := "(jobId=" +:+ jobId +:+ ")";
     req_operation := "deleteMany"; req_limit := lim |}.

Definition jobDelete_requests (a : api) (jobId : string) (lim : Z) : list batchreq :=
  [ deleteMany (jobinput (ma_buckets a)) jobId lim;
    deleteMany (error (ma_buckets a)) jobId lim;
    deleteMany (task (ma_buckets a)) jobId lim;
    deleteMany (taskinput (ma_buckets a)) jobId lim;
    deleteMany (taskoutput (ma_buckets a)) jobId lim ].

(** The body of [meta.etags.forEach]: one entry, the requests and
    [internals_done] so far. *)
Definition jobDelete_entry (lim : Z) (acc : list batchreq * bool) (m : metaent)
  : list batchreq * bool :=
  if m_count m <? lim
  then (filter (λ r, req_bucket r ≠ m_bucket m) acc.1, acc.2)
  else (acc.1, false).

(** [cb(err, meta)], the callback of every batch call. *)
Definition jobDelete_cb (a : api) (jobId : string) (lim tmo : Z)
    (r : verror + list metaent) (st : jobDelete_state)
  : jobDelete_state * list jd_action :=
  if callback_invoked st then (st, []) else
  match r with
  | inl e =>
      ({| requests := requests st; callback_invoked := true |},
       [Callback (Some (VError "failed to delete job" (Some e)))])
  | inr etags =>
      let '(reqs, internals_done) :=
        fold_left (jobDelete_entry lim) etags (requests st, true) in
      let st' := {| requests := reqs; callback_invoked := false |} in
      if negb internals_done then (st', [ClientBatch reqs tmo])
      else (st', [ClientDeleteObject (job (ma_buckets a)) jobId])
  end.

(** The callback of the final [deleteObject]. *)
Definition jobDelete_deleted (err2 : option verror) (st : jobDelete_state)
  : jobDelete_state * list jd_action :=
  if callback_invoked st then (st, []) else
  ({| requests := requests st; callback_invoked := true |},
   [Callback (match err2 with
              | Some e => Some (VError "failed to delete job" (Some e))
              | None => None
              end)]).

(** The answers of the store, in the order they arrive.  One call is
    outstanding at a time; [waiting] says which. *)
Inductive jd_reply : Type :=
  | BatchReply (r : verror + list metaent)
  | DeleteReply (e : option verror).

Inductive waiting : Type :=
  | WaitBatch
  | WaitDelete
  | Finished.

Definition waiting_after (acts : list jd_action) : waiting :=
  match acts with
  | [ClientBatch _ _] => WaitBatch
  | [ClientDeleteObject _ _] => WaitDelete
  | _ => Finished
  end.

Fixpoint jobDelete_run (a : api) (jobId : string) (lim tmo : Z)
    (w : waiting) (st : jobDelete_state) (replies : list jd_reply)
  : waiting * jobDelete_state * list jd_action :=
  match replies with
  | [] => (w, st, [])
  | r :: rest =>
      match w, r with
      | WaitBatch, BatchReply br =>
          let '(st1, acts) := jobDelete_cb a jobId lim tmo br st in
          let '(w2, st2, acts2) :=
            jobDelete_run a jobId lim tmo (waiting_after acts) st1 rest in
          (w2, st2, acts ++ acts2)
      | WaitDelete, DeleteReply dr =>
          let '(st1, acts) := jobDelete_deleted dr st in
          let '(w2, st2, acts2) := jobDelete_run a jobId lim tmo Finished st1 rest in
          (w2, st2, acts ++ acts2)
      | _, _ => jobDelete_run a jobId lim tmo w st rest
      end
  end.

Definition jobDelete (a : api) (jobId : string) (o : options) (replies : list jd_reply)
  : waiting * jobDelete_state * list jd_action :=
  let lim := jobDelete_limit o in
  let tmo := jobDelete_timeout o in
  let st := {| requests := jobDelete_requests a jobId lim; callback_invoked := false |} in
  let '(w, st', acts) := jobDelete_run a jobId lim tmo WaitBatch st replies in
  (w, st', ClientBatch (requests st) tmo :: acts).

(** ** [jobFetchAndUpdateTry], [jobFetchAndUpdate] *)

(** [mod_jsprim.deepCopy]: a copy, equal to the original value by value. *)
Definition deepCopy (o : obj) : obj := o.

(** [updatef] mutates the copy it is given and may return an [Error]. *)
Definition updater : Type := obj → prog (option verror * obj).

Definition jobFetchAndUpdateTry (a : api) (jobid : string) (updatef : updater)
  : prog (outcome record) :=
  let bkt := job (ma_buckets a) in
  GetObject bkt jobid (λ r,
    match r with
    | inl e => Ret (Fail (VError "failed to fetch job" (Some e)))
    | inr jobrec =>
        let newval := deepCopy (value jobrec) in
        bind (updatef newval) (λ '(uerr, newval),
          match uerr with
          | Some e => Ret (Fail e)
          | None =>
              PutObject bkt jobid newval (Some (_etag jobrec)) (λ suberr,
                match suberr with
                | Some e => Ret (Fail (VError "failed to update job" (Some e)))
                | None => Ret (Ok jobrec)
                end)
          end)
    end).

(** [op.attempt] and [op.retry(err)]: a failed attempt is made again while
    the policy has retries left. *)
Fixpoint retry_operation {A : Type} (retries : nat) (attempt : prog (outcome A))
  : prog (outcome A) :=
  bind attempt (λ r,
    match r, retries with
    | Fail _, S n => retry_operation n attempt
    | _, _ => Ret r
    end).

Definition jobFetchAndUpdate (a : api) (jobid : string) (o : options) (updatef : updater)
  : prog (outcome record) :=
  match retry o with
  | None => jobFetchAndUpdateTry a jobid updatef
  | Some n => retry_operation n (jobFetchAndUpdateTry a jobid updatef)
  end.

(** ** The operations on a job record

    Each hands [jobFetchAndUpdate] the function that updates the copy. *)

Definition jobCancel_updatef : updater :=
  λ jb, DateNow (λ t, Ret (None, <["timeCancelled" := JStr (iso8601 t)]> jb)).

Definition jobCancel (a : api) (jobid : string) (o : options) : prog (outcome record) :=
  jobFetchAndUpdate a jobid o jobCancel_updatef.

Definition piped_error (jb : obj) : verror :=
  VError ("job " +:+ dquote +:+ to_string (getprop jb "jobId") +:+ dquote +:+
          " input is piped from " +:+ to_string (getprop jb "input")) None.

Definition jobEndInput_updatef : updater :=
  λ jb,
    if truthy (getprop jb "input") then Ret (Some (piped_error jb), jb)
    else DateNow (λ t, Ret (None, <["timeInputDone" := JStr (iso8601 t)]> jb)).

Definition jobEndInput (a : api) (jobid : string) (o : options) : prog (outcome record) :=
  jobFetchAndUpdate a jobid o jobEndInput_updatef.

Definition jobArchiveStart_updatef (o : options) : updater :=
  λ jb,
    DateNow (λ t,
      Ret (None, <["wrasse" := wrasse o]>
                   (<["timeArchiveStarted" := JStr (iso8601 t)]> jb))).

Definition jobArchiveStart (a : api) (jobid : string) (o : options) : prog (outcome record) :=
  jobFetchAndUpdate a jobid o (jobArchiveStart_updatef o).

Definition jobArchiveDone_updatef : updater :=
  λ jb, DateNow (λ t, Ret (None, <["timeArchiveDone" := JStr (iso8601 t)]> jb)).

Definition jobArchiveDone (a : api) (jobid : string) (o : options) : prog (outcome record) :=
  jobFetchAndUpdate a jobid o jobArchiveDone_updatef.

(** [function () {}]: nothing is changed, nothing returned. *)
Definition jobArchiveHeartbeat_updatef : updater :=
  λ jb, Ret (None, jb).

Definition jobArchiveHeartbeat (a : api) (jobid : string) (o : options)
  : prog (outcome record) :=
  jobFetchAndUpdate a jobid o jobArchiveHeartbeat_updatef.

(** The operations that write a job record back. *)
Inductive jobop : Type :=
  | OpCancel
  | OpEndInput
  | OpArchiveStart
  | OpArchiveDone
  | OpArchiveHeartbeat.

Definition run_jobop (op : jobop) : api → string → options → prog (outcome record) :=
  match op with
  | OpCancel => jobCancel
  | OpEndInput => jobEndInput
  | OpArchiveStart => jobArchiveStart
  | OpArchiveDone => jobArchiveDone
  | OpArchiveHeartbeat => jobArchiveHeartbeat
  end.

Definition updatef_of (op : jobop) (o : options) : updater :=
  match op with
  | OpCancel => jobCancel_updatef
  | OpEndInput => jobEndInput_updatef
  | OpArchiveStart => jobArchiveStart_updatef o
  | OpArchiveDone => jobArchiveDone_updatef
  | OpArchiveHeartbeat => jobArchiveHeartbeat_updatef
  end.

(** ** [taskDone] *)

(** The [arg] the three stages of the pipeline share; [taskDoneFetch] stores
    the record it fetched in it. *)
Record taskarg : Type := {
  arg_api : api;
  taskid : string;
  nout : option nat;
  ecode : jsval;
  emessage : jsval;
  arg_record : option record
}.

Definition with_record (r : record) (arg : taskarg) : taskarg :=
  {| arg_api := arg_api arg; taskid := taskid arg; nout := nout arg;
     ecode := ecode arg; emessage := emessage arg; arg_record := Some r |}.

(** [mod_vasync.pipeline]: the stages in order, each given [arg]; the first
    error ends the pipeline. *)
Fixpoint pipeline {A : Type} (funcs : list (A → prog (outcome A))) (arg : A)
  : prog (outcome A) :=
  match funcs with
  | [] => Ret (Ok arg)
  | f :: rest =>
      bind (f arg) (λ r,
        match r with
        | Ok arg' => pipeline rest arg'
        | Fail e => Ret (Fail e)
        end)
  end.

(** A stage that reads [arg.record] before [taskDoneFetch] has set it throws;
    the pipeline never runs one. *)
Definition no_record : verror := VError "TypeError" None.

Definition taskDoneFetch (arg : taskarg) : prog (outcome taskarg) :=
  GetObject (task (ma_buckets (arg_api arg))) (taskid arg) (λ r,
    match r with
    | inl e => Ret (Fail e)
    | inr rec =>
        if loose_eq_text (getprop (value rec) "state") "done"
        then Ret (Fail (VError "task is already done" None))
        else Ret (Ok (with_record rec arg))
    end).

Definition error_record (uuid : string) (arg : taskarg) (tsk : obj) : obj :=
  list_to_map
    [ ("errorId", JStr uuid);
      ("jobId", getprop tsk "jobId");
      ("phaseNum", getprop tsk "phaseNum");
      ("errorCode", ecode arg);
      ("errorMessage", emessage arg);
      ("input", js_or (getprop tsk "input") JUndefined);
      ("p0input", js_or (getprop tsk "p0input") JUndefined);
      ("taskId", getprop tsk "taskId");
      ("server", getprop tsk "mantaComputeId");
      ("machine", getprop tsk "machine");
      ("prevRecordType", JStr "task");
      ("prevRecordId", getprop tsk "taskId") ].

Definition taskoutput_record (now : string) (tsk : obj) : obj :=
  list_to_map
    [ ("jobId", getprop tsk "jobId");
      ("taskId", getprop tsk "taskId");
      ("phaseNum", getprop tsk "phaseNum");
      ("output", JStr "/nobody/stor/nonexistent");
      ("timeCreated", JStr now) ].

(** The queue of [taskDoneWriteOthers], one put after the other: the first
    put that fails ends it with the error.  (The source keeps up to ten puts
    in flight.) *)
Fixpoint write_outputs (bkt : string) (now : string) (tsk : obj) (n : nat)
    (arg : taskarg) : prog (outcome taskarg) :=
  match n with
  | O => Ret (Ok arg)
  | S n' =>
      UuidV4 (λ uuid,
        PutObject bkt uuid (taskoutput_record now tsk) None (λ e,
          match e with
          | Some e => Ret (Fail (VError "failed to save taskoutput" (Some e)))
          | None => write_outputs bkt now tsk n' arg
          end))
  end.

Definition taskDoneWriteOthers (arg : taskarg) : prog (outcome taskarg) :=
  match arg_record arg with
  | None => Ret (Fail no_record)
  | Some rec =>
      let tsk := value rec in
      match nout arg with
      | None =>
          UuidV4 (λ uuid,
            PutObject (error (ma_buckets (arg_api arg))) uuid
              (error_record uuid arg tsk) None (λ e,
                match e with
                | Some e => Ret (Fail (VError "failed to save error" (Some e)))
                | None => Ret (Ok arg)
                end))
      | Some O => Ret (Ok arg)
      | Some n =>
          DateNow (λ t,
            write_outputs (taskoutput (ma_buckets (arg_api arg))) (iso8601 t) tsk n arg)
      end
  end.

(** The value [taskDoneWriteTask] writes: the fetched value, updated. *)
Definition fill (k : string) (v : jsval) (o : obj) : obj :=
  if hasOwnProperty o k then o else <[k := v]> o.

Definition task_done_value (now : string) (n : option nat) (tsk : obj) : obj :=
  let tsk := <["state" := JStr "done"]> tsk in
  let tsk := <["timeDone" := JStr now]> tsk in
  let tsk := fill "machine" (JStr "mrjob_fake_machine") tsk in
  let tsk := fill "timeAccepted" (JStr now) tsk in
  let tsk := fill "timeStarted" (JStr now) tsk in
  match n with
  | Some n => <["nOutputs" := JNum (Z.of_nat n)]> (<["result" := JStr "ok"]> tsk)
  | None => <["result" := JStr "fail"]> tsk
  end.

Definition taskDoneWriteTask (arg : taskarg) : prog (outcome taskarg) :=
  DateNow (λ t,
    match arg_record arg with
    | None => Ret (Fail no_record)
    | Some rec =>
        PutObject (bucket rec) (key rec)
          (task_done_value (iso8601 t) (nout arg) (value rec))
          (Some (_etag rec)) (λ e,
            match e with
            | Some e => Ret (Fail e)
            | None => Ret (Ok arg)
            end)
    end).

Definition taskDone (a : api) (tid : string) (n : option nat) (ec em : jsval)
  : prog (outcome taskarg) :=
  pipeline [taskDoneFetch; taskDoneWriteOthers; taskDoneWriteTask]
    {| arg_api := a; taskid := tid; nout := n; ecode := ec; emessage := em;
       arg_record := None |}.

(** ** [jobsList] *)

(** The filters of [options], as the function reads them: a token is a
    string or missing; [cancelled] is its truth value; [archived] counts only
    when it is [true] or [false]; times are numbers of seconds. *)
Inductive wrasse_filter : Type :=
  | WrasseNone            (* not given *)
  | WrasseNull            (* null *)
  | WrasseTrue            (* true *)
  | WrasseIs (s : string).

Record list_options : Type := {
  o_state : option string;
  o_name : option string;
  o_owner : option string;
  o_jobId : option string;
  o_worker : option string;
  o_cancelled : bool;
  o_archived : option bool;
  o_archiveStartedBefore : option Z;
  o_archivedBefore : option Z;
  o_wrasse : wrasse_filter;
  o_doneSince : option Z;
  o_mtime : option Z;
  o_not_mtime : option Z;
  o_marker : option string;
  o_limit : option Z;
  o_sort_order : option string
}.

Definition list_all : list_options :=
  {| o_state := None; o_name := None; o_owner := None; o_jobId := None;
     o_worker := None; o_cancelled := false; o_archived := None;
     o_archiveStartedBefore := None; o_archivedBefore := None;
     o_wrasse := WrasseNone; o_doneSince := None; o_mtime := None;
     o_not_mtime := None; o_marker := None; o_limit := None;
     o_sort_order := None |}.

Definition with_owner (v : option string) (o : list_options) : list_options :=
  {| o_state := o_state o; o_name := o_name o; o_owner := v; o_jobId := o_jobId o;
     o_worker := o_worker o; o_cancelled := o_cancelled o; o_archived := o_archived o;
     o_archiveStartedBefore := o_archiveStartedBefore o;
     o_archivedBefore := o_archivedBefore o;
     o_wrasse := o_wrasse o; o_doneSince := o_doneSince o; o_mtime := o_mtime o;
     o_not_mtime := o_not_mtime o; o_marker := o_marker o; o_limit := o_limit o;
     o_sort_order := o_sort_order o |}.

(** [/^[\d\w-]+$/.test(s)]: one or more of the digits, the letters, the
    underscore and the hyphen, and nothing else. *)
Definition token_char (c : ascii) : bool :=
  let n := nat_of_ascii c in
  ((48 <=? n) && (n <=? 57) || (65 <=? n) && (n <=? 90) || (97 <=? n) && (n <=? 122) ||
   (n =? 95) || (n =? 45))%nat.

Definition is_token (s : string) : bool :=
  negb (bool_decide (s = EmptyString)) && forallb token_char (String.list_ascii_of_string s).

(** [options[k] && /^[\d\w-]+$/.test(options[k])]. *)
Definition token_given (v : option string) : option string :=
  match v with
  | Some s => if is_token s then Some s else None
  | None => None
  end.

(** [if (c) filters.push(s)]. *)
Definition push_if (c : bool) (s : string) (filters : list string) : list string :=
  if c then filters ++ [s] else filters.

Definition push_token (attr : string) (v : option string) (filters : list string)
  : list string :=
  match token_given v with
  | Some s => filters ++ ["(" +:+ attr +:+ "=" +:+ s +:+ ")"]
  | None => filters
  end.

Definition given (x : option Z) : bool :=
  match x with
  | Some n => negb (n =? 0)
  | None => false
  end.

(** The array [filters] when all the tests are done.  [sJobStates] is the
    table of lib/schema.js; [now] is the reading of [Date.now()]. *)
Definition jobsList_filters (sJobStates : list string) (now : Z) (o : list_options)
  : list string :=
  let filters := [] in
  let filters :=
    match o_state o with
    | Some s =>
        push_if (negb (bool_decide (s = EmptyString)) && bool_decide (s ∈ sJobStates))
          ("(state=" +:+ s +:+ ")") filters
    | None => filters
    end in
  let filters := push_token "name" (o_name o) filters in
  let filters := push_token "owner" (o_owner o) filters in
  let filters := push_token "jobId" (o_jobId o) filters in
  let filters := push_token "worker" (o_worker o) filters in
  let filters := push_if (o_cancelled o) "(timeCancelled=*)" filters in
  let filters :=
    match o_archived o with
    | Some true => filters ++ ["(timeArchiveDone=*)"]
    | Some false => filters ++ ["(!(timeArchiveDone=*))"]
    | None => filters
    end in
  let filters :=
    push_if (given (o_archiveStartedBefore o))
      ("(timeArchiveStarted<=" +:+
         iso8601 (now - default 0 (o_archiveStartedBefore o) * 1000) +:+ ")") filters in
  let filters :=
    push_if (given (o_archivedBefore o))
      ("(timeArchiveDone<=" +:+
         iso8601 (now - default 0 (o_archivedBefore o) * 1000) +:+ ")") filters in
  let filters :=
    match o_wrasse o with
    | WrasseNull => filters ++ ["(!(wrasse=*))"]
    | WrasseTrue => filters ++ ["(wrasse=*)"]
    | WrasseIs s => push_token "wrasse" (Some s) filters
    | WrasseNone => filters
    end in
  let filters :=
    push_if (given (o_doneSince o))
      ("(timeDone>=" +:+ iso8601 (now - default 0 (o_doneSince o) * 1000) +:+ ")")
      filters in
  let filters :=
    push_if (given (o_mtime o))
      ("(_mtime>=" +:+ pretty (now - default 0 (o_mtime o) * 1000) +:+ ")") filters in
  let filters :=
    push_if (given (o_not_mtime o))
      ("(_mtime<=" +:+ pretty (now - default 0 (o_not_mtime o) * 1000) +:+ ")") filters in
  filters.

Definition jobsList_filter (sJobStates : list string) (now : Z) (o : list_options)
  : string :=
  let filters := jobsList_filters sJobStates now o in
  let filter :=
    match filters with
    | [] => "(jobId=*"
    | _ => "(&" +:+ String.concat EmptyString filters
    end in
  let filter :=
    match o_marker o with
    | Some m =>
        if negb (bool_decide (m = EmptyString)) then filter +:+ "(_id>=" +:+ m +:+ ")"
        else filter
    | None => filter
    end in
  filter +:+ ")".

(** [jobMorayOptions]. *)
Record moray_options : Type := {
  mo_limit : option Z;
  mo_noCache : bool;
  mo_sort_attribute : string;
  mo_sort_order : string
}.

Definition jobMorayOptions (o : list_options) : moray_options :=
  {| mo_limit := o_limit o;
     mo_noCache := true;
     mo_sort_attribute := "_id";
     mo_sort_order :=
       match o_sort_order o with
       | Some s => if bool_decide (s = EmptyString) then "ASC" else s
       | None => "ASC"
       end |}.

(** The [findObjects] call [jobsList] makes; the request it returns emits the
    records the store finds. *)
Record find_request : Type := {
  find_bucket : string;
  find_filter : string;
  find_options : moray_options
}.

Definition jobsList (a : api) (sJobStates : list string) (now : Z) (o : list_options)
  : find_request :=
  {| find_bucket := job (ma_buckets a);
     find_filter := jobsList_filter sJobStates now o;
     find_options := jobMorayOptions o |}.

(** ** The store's reading of a filter

    The filter text is the store's query language: equality on an attribute,
    presence, the two ranges, negation and conjunction.  [render] writes a
    filter as [jobsList] does; [matches] is what the store selects by.  The
    order on attribute values is the store's own. *)
Inductive filter_expr : Type :=
  | FEq (attr v : string)
  | FPresent (attr : string)
  | FLe (attr v : string)
  | FGe (attr v : string)
  | FNot (f : filter_expr)
  | FAnd (fs : list filter_expr).

Fixpoint render (f : filter_expr) : string :=
  match f with
  | FEq a v => "(" +:+ a +:+ "=" +:+ v +:+ ")"
  | FPresent a => "(" +:+ a +:+ "=*)"
  | FLe a v => "(" +:+ a +:+ "<=" +:+ v +:+ ")"
  | FGe a v => "(" +:+ a +:+ ">=" +:+ v +:+ ")"
  | FNot g => "(!" +:+ render g +:+ ")"
  | FAnd fs => "(&" +:+ String.concat EmptyString (map render fs) +:+ ")"
  end.

Section Matching.
(** [value_le x v]: the attribute value [x] is at most the bound [v]. *)
Variable value_le : jsval → string → bool.
Variable value_ge : jsval → string → bool.

Definition present (x : option jsval) : bool :=
  match x with
  | Some JUndefined | Some JNull | None => false
  | Some _ => true
  end.

Fixpoint matches (f : filter_expr) (o : obj) : bool :=
  match f with
  | FEq a v =>
      match o !! a with
      | Some (JStr _ as x) | Some (JNum _ as x) | Some (JBool _ as x) =>
          bool_decide (to_string x = v)
      | _ => false
      end
  | FPresent a => present (o !! a)
  | FLe a v => present (o !! a) && value_le (getprop o a) v
  | FGe a v => present (o !! a) && value_ge (getprop o a) v
  | FNot g => negb (matches g o)
  | FAnd fs => forallb (λ g, matches g o) fs
  end.

(** The records [findObjects] emits for a filter, out of those of the
    bucket. *)
Definition findObjects (f : filter_expr) (records : list obj) : list obj :=
  filter (λ o, matches f o = true) records.
End Matching.

(** ** [jobFetch]

    Here and below the [options] of a function are left out where it reads
    nothing of them but the logger. *)

Definition jobFetch (a : api) (jobid : string) : prog (outcome record) :=
  GetObject (job (ma_buckets a)) jobid (λ r,
    match r with
    | inl e => Ret (Fail (VError "failed to fetch job" (Some e)))
    | inr rec => Ret (Ok rec)
    end).

(** ** [jobCreate] *)

(** What is thrown before any call is made. *)
Inductive thrown : Type :=
  | AssertionError
  | TypeError.

Definition typeof (v : jsval) : string :=
  match v with
  | JUndefined => "undefined"
  | JNull | JArr _ | JObj _ => "object"
  | JBool _ => "boolean"
  | JNum _ => "number"
  | JStr _ => "string"
  end.

Definition isArray (v : jsval) : bool :=
  match v with
  | JArr _ => true
  | _ => false
  end.

(** [o[k]] on a nested object (an association list). *)
Fixpoint assoc (l : list (string * jsval)) (k : string) : jsval :=
  match l with
  | [] => JUndefined
  | (k', v) :: rest => if bool_decide (k' = k) then v else assoc rest k
  end.

(** [mod_jsprim.isEmpty]: no key to enumerate. *)
Definition isEmpty (v : jsval) : bool :=
  match v with
  | JArr [] | JObj [] => true
  | _ => false
  end.

(** [x.indexOf(s) != -1]: an element of an array identical to [s], or [s]
    inside a string; nothing else has an [indexOf]. *)
Definition indexOf_found (x : jsval) (s : string) : option bool :=
  match x with
  | JArr l =>
      Some (existsb (λ y, match y with JStr t => bool_decide (t = s) | _ => false end) l)
  | JStr t => Some (match String.index 0 s t with Some _ => true | None => false end)
  | _ => None
  end.

(** The assertions of [jobCreate], in their order. *)
Definition jobCreate_checks (conf : obj) : option thrown :=
  if negb (isArray (getprop conf "phases")) then Some AssertionError
  else if negb (bool_decide (typeof (getprop conf "authToken") = "string"))
  then Some AssertionError
  else if negb (bool_decide (typeof (getprop conf "owner") = "string"))
  then Some AssertionError
  else if negb (bool_decide (typeof (getprop conf "auth") = "object"))
  then Some AssertionError
  else if truthy (getprop conf "options") then
    if negb (bool_decide (typeof (getprop conf "options") = "object"))
    then Some AssertionError
    else if negb (isEmpty (getprop conf "options")) then
      match getprop conf "auth" with
      | JObj au =>
          match indexOf_found (assoc au "groups") "operators" with
          | Some true => None
          | Some false => Some AssertionError
          | None => Some TypeError
          end
      | _ => Some TypeError
      end
    else None
  else None.

(** The record of a new job. *)
Definition jobCreate_value (conf : obj) (key : jsval) (now : Z) : obj :=
  let v : obj :=
    list_to_map
      [ ("jobId", key);
        ("name", js_or (getprop conf "name") (JStr EmptyString));
        ("auth", getprop conf "auth");
        ("authToken", getprop conf "authToken");
        ("owner", getprop conf "owner");
        ("phases", getprop conf "phases");
        ("state", JStr "queued");
        ("timeCreated", JStr (iso8601 now));
        ("options", js_or (getprop conf "options") (JObj [])) ] in
  if truthy (getprop conf "input") then <["input" := getprop conf "input"]> v else v.

(** [jobCreate]: the assertions, then the key ([conf.jobId] or a new uuid),
    the time, and one put without a token.  The callback gets the key; the
    store is given the key as it is, and knows it by its text. *)
Definition jobCreate (a : api) (conf : obj) : thrown + prog (outcome jsval) :=
  match jobCreate_checks conf with
  | Some t => inl t
  | None =>
      let put (key : jsval) : prog (outcome jsval) :=
        DateNow (λ now,
          PutObject (job (ma_buckets a)) (to_string key) (jobCreate_value conf key now) None
            (λ e,
              match e with
              | Some e => Ret (Fail (VError "failed to create job" (Some e)))
              | None => Ret (Ok key)
              end)) in
      inr (if truthy (getprop conf "jobId") then put (getprop conf "jobId")
           else UuidV4 (λ u, put (JStr u)))
  end.

(** ** [jobAddKey] *)

Definition jobinput_record (jobid key : string) (created : jsval) : obj :=
  list_to_map [ ("jobId", JStr jobid); ("input", JStr key); ("timeCreated", created) ].

(** [timestamp] is [options.timestamp]. *)
Definition jobAddKey (a : api) (jobid key : string) (timestamp : jsval)
  : prog (outcome unit) :=
  let put (created : jsval) : prog (outcome unit) :=
    UuidV4 (λ u,
      PutObject (jobinput (ma_buckets a)) u (jobinput_record jobid key created) None
        (λ e,
          match e with
          | Some e => Ret (Fail (VError "failed to save jobinput" (Some e)))
          | None => Ret (Ok tt)
          end)) in
  if truthy timestamp then put timestamp
  else DateNow (λ now, put (JStr (iso8601 now))).

(** ** [jobFetchLog] and the [JobLogFetcher] *)

(** The [what] of a log entry: ['job'], or the label of a task,
    [sprintf('ph%d "%s"', task.phaseNum, task.input || task.taskId)], kept
    as its two arguments. *)
Inductive label : Type :=
  | LJob
  | LTask (phaseNum name : jsval).

(** A log entry; [le_time] is the value of the field [Date.parse] reads. *)
Record logentry : Type := {
  le_time : jsval;
  le_what : label;
  le_where : jsval;
  le_message : string
}.

(** The two kinds of query, by the listeners [start] and [fetchTasks] put on
    the request. *)
Inductive reqkind : Type :=
  | ReqJob
  | ReqTasks.

(** The fetcher.  [ml_listening] has the requests that may still emit: a
    request that has emitted [end] or [error] emits nothing more. *)
Record fetcher : Type := {
  ml_api : api;
  ml_jobid : string;
  ml_limit : Z;
  ml_npending : Z;
  ml_ntasks : Z;
  ml_filter : string;
  ml_req_job : option nat;
  ml_req_tasks : option nat;
  ml_listening : gmap nat reqkind;
  ml_next : nat
}.

Inductive fl_action : Type :=
  | FindObjects (req : nat) (bkt flt : string) (lim : Z)
  | EmitLog (e : logentry)
  | EmitEnd
  | EmitError (e : verror)
  | AssertionFailed.

Definition JobLogFetcher (a : api) (jobid : string) : fetcher :=
  {| ml_api := a; ml_jobid := jobid; ml_limit := 1000; ml_npending := 0; ml_ntasks := 0;
     ml_filter := "(jobId=" +:+ jobid +:+ ")";
     ml_req_job := None; ml_req_tasks := None; ml_listening := ∅; ml_next := 0 |}.

Definition fetchTasks (f : fetcher) : fetcher * list fl_action :=
  match ml_req_tasks f with
  | Some _ => (f, [AssertionFailed])
  | None =>
      let req := ml_next f in
      ({| ml_api := ml_api f; ml_jobid := ml_jobid f; ml_limit := ml_limit f;
          ml_npending := ml_npending f + 1; ml_ntasks := 0; ml_filter := ml_filter f;
          ml_req_job := ml_req_job f; ml_req_tasks := Some req;
          ml_listening := <[req := ReqTasks]> (ml_listening f);
          ml_next := S req |},
       [FindObjects req (task (ma_buckets (ml_api f))) (ml_filter f) (ml_limit f)])
  end.

Definition fetcher_start (f : fetcher) : fetcher * list fl_action :=
  match ml_req_job f, ml_req_tasks f with
  | None, None =>
      if negb (ml_npending f =? 0) then (f, [AssertionFailed]) else
      let req := ml_next f in
      let f1 :=
        {| ml_api := ml_api f; ml_jobid := ml_jobid f; ml_limit := ml_limit f;
           ml_npending := ml_npending f + 1; ml_ntasks := ml_ntasks f;
           ml_filter := ml_filter f;
           ml_req_job := Some req; ml_req_tasks := ml_req_tasks f;
           ml_listening := <[req := ReqJob]> (ml_listening f);
           ml_next := S req |} in
      let '(f2, acts) := fetchTasks f1 in
      (f2, FindObjects req (job (ma_buckets (ml_api f))) (ml_filter f) (ml_limit f) :: acts)
  | _, _ => (f, [AssertionFailed])
  end.

Definition checkDone (f : fetcher) : fetcher * list fl_action :=
  if negb (0 <? ml_npending f) then (f, [AssertionFailed]) else
  let n := ml_npending f - 1 in
  ({| ml_api := ml_api f; ml_jobid := ml_jobid f; ml_limit := ml_limit f;
      ml_npending := n; ml_ntasks := ml_ntasks f; ml_filter := ml_filter f;
      ml_req_job := ml_req_job f; ml_req_tasks := ml_req_tasks f;
      ml_listening := ml_listening f; ml_next := ml_next f |},
   if n =? 0 then [EmitEnd] else []).

Definition emitLogEntry (o : obj) (field : string) (where_ : jsval) (what : label)
    (message : string) : list fl_action :=
  if truthy (getprop o field)
  then [EmitLog {| le_time := getprop o field; le_what := what; le_where := where_;
                   le_message := message |}]
  else [].

Definition emitJob (jb : obj) : list fl_action :=
  emitLogEntry jb "timeCreated" (JStr "user") LJob "submitted" ++
  emitLogEntry jb "timeAssigned" (JStr "marlin") LJob "assigned" ++
  emitLogEntry jb "timeInputDone" (JStr "user") LJob "input done" ++
  emitLogEntry jb "timeCancelled" (JStr "user") LJob "cancelled" ++
  emitLogEntry jb "timeDone" (JStr "marlin") LJob "done".

Definition emitTask (tsk : obj) : list fl_action :=
  let lbl := LTask (getprop tsk "phaseNum")
               (js_or (getprop tsk "input") (getprop tsk "taskId")) in
  let machine := js_or (getprop tsk "machine") (JStr "marlin") in
  emitLogEntry tsk "timeDispatched" (JStr "marlin") lbl "dispatched" ++
  emitLogEntry tsk "timeInputDone" (JStr "marlin") lbl "all input ready" ++
  emitLogEntry tsk "timeStarted" machine lbl "started" ++
  emitLogEntry tsk "timeDone" machine lbl "done" ++
  emitLogEntry tsk "timeCommitted" (JStr "marlin") lbl "committed".

(** What a request emits. *)
Inductive fl_event : Type :=
  | OnRecord (req : nat) (value : obj)
  | OnEnd (req : nat)
  | OnError (req : nat) (e : verror).

Definition stop_listening (req : nat) (f : fetcher) : fetcher :=
  {| ml_api := ml_api f; ml_jobid := ml_jobid f; ml_limit := ml_limit f;
     ml_npending := ml_npending f; ml_ntasks := ml_ntasks f; ml_filter := ml_filter f;
     ml_req_job := ml_req_job f; ml_req_tasks := ml_req_tasks f;
     ml_listening := delete req (ml_listening f); ml_next := ml_next f |}.

(** The listeners. *)
Definition fetcher_on (ev : fl_event) (f : fetcher) : fetcher * list fl_action :=
  match ev with
  | OnRecord req v =>
      match ml_listening f !! req with
      | Some ReqJob => (f, emitJob v)
      | Some ReqTasks =>
          ({| ml_api := ml_api f; ml_jobid := ml_jobid f; ml_limit := ml_limit f;
              ml_npending := ml_npending f; ml_ntasks := ml_ntasks f + 1;
              ml_filter := ml_filter f;
              ml_req_job := ml_req_job f; ml_req_tasks := ml_req_tasks f;
              ml_listening := ml_listening f; ml_next := ml_next f |},
           emitTask v)
      | None => (f, [])
      end
  | OnEnd req =>
      match ml_listening f !! req with
      | Some ReqJob => checkDone (stop_listening req f)
      | Some ReqTasks =>
          let f := stop_listening req f in
          if ml_ntasks f <? ml_limit f then checkDone f
          else
            fetchTasks
              {| ml_api := ml_api f; ml_jobid := ml_jobid f; ml_limit := ml_limit f;
                 ml_npending := ml_npending f - 1; ml_ntasks := ml_ntasks f;
                 ml_filter := ml_filter f;
                 ml_req_job := ml_req_job f; ml_req_tasks := None;
                 ml_listening := ml_listening f; ml_next := ml_next f |}
      | None => (f, [])
      end
  | OnError req e =>
      match ml_listening f !! req with
      | Some ReqJob =>
          (stop_listening req f, [EmitError (VError "error fetching job" (Some e))])
      | Some ReqTasks =>
          (stop_listening req f, [EmitError (VError "error fetching tasks" (Some e))])
      | None => (f, [])
      end
  end.

Fixpoint fetcher_run (evs : list fl_event) (f : fetcher) : fetcher * list fl_action :=
  match evs with
  | [] => (f, [])
  | ev :: rest =>
      let '(f1, a1) := fetcher_on ev f in
      let '(f2, a2) := fetcher_run rest f1 in
      (f2, a1 ++ a2)
  end.

(** [jobFetchLog]: a new fetcher, started; then what the requests emit. *)
Definition jobFetchLog (a : api) (jobid : string) (evs : list fl_event)
  : fetcher * list fl_action :=
  let '(f, a0) := fetcher_start (JobLogFetcher a jobid) in
  let '(f', a1) := fetcher_run evs f in
  (f', a0 ++ a1).

End Marlin.

(* ===================================================================== *)
(** * Facts about the values *)
(* ===================================================================== *)

Module JSFacts.
Import JS.

Example iso8601_epoch : iso8601 0 = "1970-01-01T00:00:00.000Z".
Proof. reflexivity. Qed.

Example iso8601_2013 : iso8601 1362182400123 = "2013-03-02T00:00:00.123Z".
Proof. vm_compute. reflexivity. Qed.

Example iso8601_leap : iso8601 1709251199999 = "2024-02-29T23:59:59.999Z".
Proof. vm_compute. reflexivity. Qed.

(** The text of a date is never the empty string: it ends in [Z]. *)
Lemma append_nonempty_r (a b : string) : b ≠ EmptyString → a +:+ b ≠ EmptyString.
Proof. intros Hb. destruct a; simpl; [exact Hb | discriminate]. Qed.

Lemma iso8601_nonempty (t : Z) : iso8601 t ≠ EmptyString.
Proof.
  unfold iso8601. destruct (civil_from_days _) as [[y m] d].
  repeat (apply append_nonempty_r). discriminate.
Qed.

Lemma iso8601_truthy (t : Z) : truthy (JStr (iso8601 t)) = true.
Proof.
  simpl. rewrite bool_decide_eq_false_2; [reflexivity | apply iso8601_nonempty].
Qed.

End JSFacts.

(* ===================================================================== *)
(** * The lackey: reduce batches, the retry wrapper, the heartbeat *)
(* ===================================================================== *)

Module LackeySpec.
Import JS Lackey.

#[local] Open Scope Z_scope.

(** ** Scenarios used below *)

Definition reduce_task (keys : list string) (fin : bool) : task :=
  {| taskId := "t-1"; taskPhase_type := "reduce";
     taskBatch := {| taskInputKeys := keys; taskInputDone := fin |};
     taskInputFile := None; taskInputRemote := Some "/var/run/agent.sock" |}.

Definition ok_reply (sc : Z) (t : option task) : reply :=
  {| err := None; response := Some sc; res_task := t |}.

Definition http_error (sc : Z) (name : string) : reply :=
  {| err := Some name; response := Some sc; res_task := None |}.

Definition transport_error (name : string) : reply :=
  {| err := Some name; response := None; res_task := None |}.

(** The lackey after [main], the first long poll answered with a reduce task
    of three keys, and the executor spawned. *)
Definition running_abc : lackey :=
  (run [(0, EvListening);
        (10, EvResponse 0 (ok_reply 200 (Some (reduce_task ["a"; "b"; "c"] false))));
        (20, EvSpawn)] initial).1.

(** ** Stepping lemmas *)

Lemma step_live (now : Z) (ev : event) (st : lackey) :
  halted st = false →
  step now ev st =
    match ev with
    | EvListening => mazTaskFetch now st
    | EvSpawn => mazTaskRunSpawn st
    | EvDrain =>
        match mazExecutor st with
        | Some ex =>
            if mex_on_drain ex then
              match mex_batch ex with
              | Some b => mazDoneBatch now b st
              | None => die (Throw "TypeError") st
              end
            else (st, [])
        | None => (st, [])
        end
    | EvExecutorDone r => (set_mazExecutorResult (Some r) st, [])
    | EvPipelineDone e =>
        if mazPipeline st then
          let '(st', acts) := mazTaskReport now e (set_mazPipeline false st) in
          (st', ClearInterval :: acts)
        else
          let '(st', acts) := die (Throw "AssertionError") st in
          (st', ClearInterval :: acts)
    | EvLivenessTick => mazTaskLivenessTick now st
    | EvResponse id r => on_response now id r st
    | EvTimeout id => on_timeout now id st
    end.
Proof. intros H. unfold step. rewrite H. reflexivity. Qed.

(** A request that is pending and the verdict on its response decide what
    the handler does. *)
Lemma on_response_pending (now : Z) (id : nat) (r : reply) (rq : clientreq) (st : lackey) :
  mazClientRequests st !! id = Some rq →
  on_response now id r st =
    let st' := set_mazClientRequests (delete id (mazClientRequests st)) st in
    match classify (expected_code rq) r with
    | NoResponse => die (Throw "TypeError") st'
    | Deliver => run_callback now (cb rq) None (res_task r) st'
    | Surface => run_callback now (cb rq) (err r) None st'
    | Retry =>
        (set_mazRetryTimeout (Some (fresh st))
           (set_timers (<[fresh st := rq]> (timers st)) (set_fresh (S (fresh st)) st')),
         [SetTimeout (fresh st) mazRetryTime])
    end.
Proof. intros H. unfold on_response. rewrite H. reflexivity. Qed.

(** ** Reduce backpressure *)

(** C1.  A reduce task whose current batch is [a; b; c], not the last one:
    on [drain] the lackey makes one request, the commit of [{key: a,
    nkeys: 3}]; when the parent agent acknowledges it (204) the lackey makes
    one request, the long poll for the next batch, and the batch of the
    answer, which must be for the same task, is handed to the executor.  A
    drained batch with no keys, or a result of the executor already recorded,
    and [drain] does nothing at all. *)
Theorem mazDoneBatch_commit_then_poll
    (now now' now'' : Z) (st : lackey) (ex : executor) (t t' : task) (a b c : string) :
  halted st = false →
  mazExecutor st = Some ex →
  mex_on_drain ex = true →
  mex_batch ex = Some {| taskInputKeys := [a; b; c]; taskInputDone := false |} →
  mazExecutorResult st = None →
  mazCurrentTask st = Some t →
  taskId t' = taskId t →
  let id := fresh st in
  (∃ st1 st2 st3,
      step now EvDrain st = (st1, [HttpPost id uri_commit (Some (BatchArg a 3))]) ∧
      step now' (EvResponse id (ok_reply 204 None)) st1 = (st2, [HttpGet (S id) uri_task]) ∧
      step now'' (EvResponse (S id) (ok_reply 200 (Some t'))) st2
        = (st3, [ExecutorBatch (taskBatch t')]) ∧
      mazCurrentTask st3 = Some t') ∧
  (∀ (s : lackey) (x : executor) (bt : batch),
      mazExecutor s = Some x → mex_batch x = Some bt →
      taskInputKeys bt = [] ∨ mazExecutorResult s ≠ None →
      step now EvDrain s = (s, [])).
Proof.
  intros Hlive Hex Hon Hb Hres Hcur Hid id. split.
  - destruct t' as [tid' ty' [keys' fin'] file' remote']; cbn in Hid.
    rewrite (step_live _ _ _ Hlive), Hex, Hon, Hb.
    unfold mazDoneBatch; cbn [taskInputKeys length]. rewrite Hres.
    unfold mazParentRequest; cbn [run_makerequest].
    eexists _, _, _. split; [reflexivity|].
    split.
    + rewrite step_live by exact Hlive.
      erewrite on_response_pending by (cbn; apply lookup_insert_eq).
      cbn. rewrite Hcur. cbn. reflexivity.
    + rewrite step_live by exact Hlive.
      erewrite on_response_pending by (cbn; apply lookup_insert_eq).
      cbn. rewrite Hcur, Hex. cbn.
      rewrite bool_decide_eq_true_2 by (symmetry; exact Hid).
      split; reflexivity.
  - intros s x bt Hx Hbt Hor. unfold step. destruct (halted s); [reflexivity|].
    rewrite Hx. destruct (mex_on_drain x); [|reflexivity]. rewrite Hbt.
    unfold mazDoneBatch. destruct (taskInputKeys bt) as [|k ks]; [reflexivity|].
    destruct Hor as [Hk | Hr]; [discriminate|].
    destruct (mazExecutorResult s); [reflexivity | congruence].
Qed.

Lemma mazDoneBatch_commit_then_poll_witness :
  ∃ st1 st2 st3,
    step 100 EvDrain running_abc = (st1, [HttpPost 1%nat uri_commit (Some (BatchArg "a" 3))]) ∧
    step 110 (EvResponse 1%nat (ok_reply 204 None)) st1 = (st2, [HttpGet 2%nat uri_task]) ∧
    step 120 (EvResponse 2%nat (ok_reply 200 (Some (reduce_task ["d"] true)))) st2
      = (st3, [ExecutorBatch {| taskInputKeys := ["d"]; taskInputDone := true |}]) ∧
    mazCurrentTask st3 = Some (reduce_task ["d"] true).
Proof.
  apply (mazDoneBatch_commit_then_poll 100 110 120 running_abc
           {| mex_batch := Some {| taskInputKeys := ["a"; "b"; "c"]; taskInputDone := false |};
              mex_on_drain := true |}
           (reduce_task ["a"; "b"; "c"] false) (reduce_task ["d"] true) "a" "b" "c");
    reflexivity.
Defined.

(** ** The retry wrapper *)

(** A status in 400..499 other than 410. *)
Lemma client_error_spec (resp : option Z) :
  client_error resp = true ↔ ∃ sc, resp = Some sc ∧ 400 ≤ sc < 500 ∧ sc ≠ 410.
Proof.
  unfold client_error. destruct resp as [sc|].
  - rewrite !andb_true_iff, negb_true_iff, Z.leb_le, Z.ltb_lt, Z.eqb_neq. split.
    + intros [[H1 H2] H3]. exists sc. repeat split; assumption || lia.
    + intros (sc' & [= <-] & H1 & H2). repeat split; assumption || lia.
  - split; [discriminate | intros (sc & H & _); discriminate].
Qed.

(** What is not the answer the caller expects: an error of the client
    library, or a status other than the expected one. *)
Definition failed (expected : option Z) (r : reply) : Prop :=
  err r ≠ None ∨ ∃ sc, response r = Some sc ∧ status_expected expected sc = false.

Lemma classify_failed (expected : option Z) (r : reply) :
  failed expected r →
  classify expected r = if client_error (response r) then Surface else Retry.
Proof.
  unfold failed, classify. intros [He | (sc & Hsc & Hex)].
  - destruct (err r); [reflexivity | congruence].
  - rewrite Hsc. destruct (err r); [reflexivity|]. rewrite Hex. reflexivity.
Qed.

(** The policy of [mazParentRequest] on the response to the pending request
    [id], entered as [rq]. *)
Definition retry_policy_at (now : Z) (id : nat) (rq : clientreq) (r : reply) (st : lackey)
  : Prop :=
  let st' := set_mazClientRequests (delete id (mazClientRequests st)) st in
  (* a 4xx other than 410: the callback gets the error at once, no timer *)
  (∀ sc, response r = Some sc → 400 ≤ sc < 500 → sc ≠ 410 →
     step now (EvResponse id r) st = run_callback now (cb rq) (err r) None st') ∧
  (* no response, a 410, or a status outside 400..499: the timer is armed
     with the fixed delay, and when it fires the request is made again *)
  (response r = None ∨ (∃ sc, response r = Some sc ∧ (sc < 400 ∨ sc = 410 ∨ 500 ≤ sc)) →
     ∃ st2, step now (EvResponse id r) st = (st2, [SetTimeout (fresh st) mazRetryTime]) ∧
       halted st2 = false ∧
       mazClientRequests st2 !! id = None ∧
       ∀ now', ∃ st3,
         step now' (EvTimeout (fresh st)) st2 =
           mazParentRequest now' (opname rq) (expected_code rq) (maker rq) (cb rq)
             (Some (attempt rq + 1)) st3 ∧
         mazClientRequests st3 = mazClientRequests st2) ∧
  (* the final report: a 409 is logged and ignored, the state of the task
     is cleared and the next task is asked for *)
  (cb rq = CbTaskReport → response r = Some 409 →
     ∃ st2, step now (EvResponse id r) st = (st2, [HttpGet (fresh st) uri_task]) ∧
       halted st2 = false ∧
       mazCurrentTask st2 = None ∧ mazExecutor st2 = None ∧
       mazExecutorResult st2 = None ∧ mazErrorSave st2 = None).

(** C5, as the code has it.  For every request made through
    [mazParentRequest], a failure with a status in 400..499 other than 410
    (409 included) is not retried: the error goes to the caller's callback
    at once.  Every other failure (no response, 410, 5xx, any other
    unexpected status) arms the retry timer with [mazRetryTime].  The
    callback of the final report ignores the error it is given, so a 409
    there clears the task and fetches the next one. *)
Theorem mazParentRequest_policy
    (now : Z) (id : nat) (rq : clientreq) (r : reply) (st : lackey) :
  halted st = false →
  mazClientRequests st !! id = Some rq →
  failed (expected_code rq) r →
  retry_policy_at now id rq r st.
Proof.
  intros Hlive Hrq Hfail. unfold retry_policy_at.
  pose proof (classify_failed _ _ Hfail) as Hc.
  rewrite (step_live _ _ _ Hlive), (on_response_pending _ _ _ _ _ Hrq). cbn zeta.
  split; [|split].
  - intros sc Hsc Hrange Hne.
    assert (client_error (response r) = true) as Hce
      by (apply client_error_spec; exists sc; auto).
    rewrite Hc, Hce. reflexivity.
  - intros Hno.
    assert (client_error (response r) = false) as Hce.
    { destruct (client_error (response r)) eqn:E; [|reflexivity].
      apply client_error_spec in E as (sc & Hsc & Hrange & Hne).
      destruct Hno as [Hn | (sc' & Hsc' & Hout)]; [congruence|].
      rewrite Hsc in Hsc'. injection Hsc' as <-. lia. }
    rewrite Hc, Hce. eexists. split; [reflexivity|].
    split; [exact Hlive|]. split; [cbn; apply lookup_delete_eq|].
    intros now'. eexists. split.
    + unfold step. cbn [halted set_mazRetryTimeout set_timers set_fresh set_mazClientRequests].
      rewrite Hlive. unfold on_timeout.
      cbn [timers set_mazRetryTimeout set_timers set_fresh set_mazClientRequests].
      rewrite lookup_insert_eq. reflexivity.
    + reflexivity.
  - intros Hcb H409.
    assert (client_error (response r) = true) as Hce by (rewrite H409; reflexivity).
    rewrite Hc, Hce, Hcb. cbn. eexists. split; [reflexivity|].
    cbn. auto.
Qed.

(** The reduce task with its first batch drained: the commit is pending as
    request 1. *)
Definition commit_pending : lackey := (step 100 EvDrain running_abc).1.

Definition commit_request : clientreq :=
  {| time := 100; opname := "POST /my/jobs/task/commit"; attempt := 1;
     expected_code := Some 204;
     maker := MkPost uri_commit (BatchArg "a" 3);
     cb := CbDoneBatch {| taskInputKeys := ["a"; "b"; "c"]; taskInputDone := false |} |}.

Lemma mazParentRequest_policy_witness :
  retry_policy_at 110 1 commit_request (http_error 503 "ServiceUnavailableError")
    commit_pending.
Proof.
  apply (mazParentRequest_policy 110 1 commit_request
           (http_error 503 "ServiceUnavailableError") commit_pending).
  - reflexivity.
  - reflexivity.
  - left. discriminate.
Defined.

(** C5, as the claim has it, fails at 409: a 409 is a 4xx that the claim
    takes out of the fatal ones and so puts with the retried ones, and the
    wrapper does not retry it.  Here it answers the commit of a reduce batch:
    no timer is armed, the callback gets the error and the process exits. *)
Lemma conflict_409_is_not_retried :
  classify (Some 204) (http_error 409 "ConflictError") = Surface ∧
  classify (Some 204) (http_error 409 "ConflictError") ≠ Retry ∧
  (step 110 (EvResponse 1 (http_error 409 "ConflictError")) commit_pending).2
    = [ProcessExit 1].
Proof. split; [reflexivity | split; [discriminate | reflexivity]]. Qed.

(** A commit that meets a 503 first: the timer, the same commit again, and
    after its 204 the one long poll. *)
Example commit_retried_then_poll :
  (run [(100, EvDrain);
        (110, EvResponse 1 (http_error 503 "ServiceUnavailableError"));
        (1110, EvTimeout 2);
        (1120, EvResponse 3 (ok_reply 204 None))] running_abc).2 =
  [ HttpPost 1 uri_commit (Some (BatchArg "a" 3));
    SetTimeout 2 1000;
    HttpPost 3 uri_commit (Some (BatchArg "a" 3));
    HttpGet 4 uri_task ].
Proof. vm_compute. reflexivity. Qed.

(** The end of a task whose program already committed: the report meets a
    409, the state of the task is cleared and the next long poll made. *)
Example report_409_then_next_task :
  let '(st, acts) :=
    run [(100, EvExecutorDone {| error := None; core := false; signal := None; code := 0 |});
         (200, EvPipelineDone None);
         (210, EvResponse 1 (http_error 409 "ConflictError"))] running_abc in
  acts = [ ClearInterval; HttpPost 1 uri_commit (Some (ReportArg None None));
           HttpGet 2 uri_task ] ∧
  mazCurrentTask st = None ∧ mazExecutor st = None ∧ mazExecutorResult st = None ∧
  halted st = false.
Proof. vm_compute. auto. Qed.

(** ** The heartbeat *)

(** The closure that issues the heartbeat clears [mazLivenessPending], and
    [mazParentRequest] calls it before it returns: after a tick the flag is
    clear again, whether or not the request was answered. *)
Lemma mazTaskLivenessTick_clears_flag (now : Z) (st : lackey) :
  mazLivenessPending st = None →
  ∃ st', mazTaskLivenessTick now st = (st', [HttpPost (fresh st) uri_live None]) ∧
         mazLivenessPending st' = None ∧
         is_live <$> (mazClientRequests st' !! fresh st) = Some true.
Proof.
  intros H. unfold mazTaskLivenessTick. rewrite H.
  eexists. split; [reflexivity|]. split; [reflexivity|].
  cbn. rewrite lookup_insert_eq. reflexivity.
Qed.

(** The flag is clear whenever the event loop is idle: no event of any run
    of the lackey leaves it set, so the test of it in [mazTaskLivenessTick]
    never holds. *)
Lemma mazParentRequest_flag (now : Z) (op : string) (expected : option Z)
    (mk : makerequest) (k : callback) (att : option Z) (st : lackey) :
  mazLivenessPending st = None →
  mazLivenessPending (mazParentRequest now op expected mk k att st).1 = None.
Proof. intros H. destruct mk; cbn; try exact H; reflexivity. Qed.

Lemma run_callback_flag (now : Z) (k : callback) (e : option string) (r : option task)
    (st : lackey) :
  mazLivenessPending st = None →
  mazLivenessPending (run_callback now k e r st).1 = None.
Proof.
  intros H. destruct k; cbn [run_callback].
  - destruct (_ && _); cbn; exact H.
  - destruct e; [exact H|]. destruct (_ || _); [exact H|].
    apply mazParentRequest_flag, H.
  - destruct e; [exact H|]. destruct (mazCurrentTask st), r; try exact H.
    case_bool_decide; [|exact H]. cbn. destruct (mazExecutor st); exact H.
  - apply mazParentRequest_flag. exact H.
  - exact H.
Qed.

Lemma step_flag (now : Z) (ev : event) (st : lackey) :
  mazLivenessPending st = None →
  mazLivenessPending (step now ev st).1 = None.
Proof.
  intros H. unfold step. destruct (halted st); [exact H|]. destruct ev.
  - apply mazParentRequest_flag, H.
  - unfold mazTaskRunSpawn. destruct (mazCurrentTask st); exact H.
  - destruct (mazExecutor st) as [ex|]; [|exact H].
    destruct (mex_on_drain ex); [|exact H]. destruct (mex_batch ex) as [b|]; [|exact H].
    unfold mazDoneBatch. destruct (taskInputKeys b); [exact H|].
    destruct (mazExecutorResult st); [exact H|]. apply mazParentRequest_flag, H.
  - exact H.
  - destruct (mazPipeline st); [|exact H].
    enough (mazLivenessPending (mazTaskReport now e (set_mazPipeline false st)).1 = None)
      as Hr by (destruct (mazTaskReport now e _); exact Hr).
    unfold mazTaskReport. cbn [mazCurrentTask set_mazPipeline].
    destruct (mazCurrentTask st); [|exact H].
    destruct (_ && _); [exact H|]. cbn [mazExecutorResult].
    destruct (mazDecodeError e _) as [[eo|]|]; try exact H; apply mazParentRequest_flag, H.
  - unfold mazTaskLivenessTick. rewrite H. reflexivity.
  - unfold on_response. destruct (_ !! id) as [rq|]; [|exact H].
    destruct (classify _ r); try exact H; apply run_callback_flag, H.
  - unfold on_timeout. destruct (_ !! id) as [rq|]; [|exact H].
    apply mazParentRequest_flag, H.
Qed.

Lemma liveness_flag_never_set (evs : list (Z * event)) (st : lackey) :
  mazLivenessPending st = None →
  mazLivenessPending (run evs st).1 = None.
Proof.
  revert st. induction evs as [|[now ev] evs IH]; intros st H; cbn [run]; [exact H|].
  pose proof (step_flag now ev st H) as Hs.
  destruct (step now ev st) as [st1 a1]. specialize (IH st1 Hs).
  destruct (run evs st1) as [st2 a2]. exact IH.
Qed.

(** C6 fails on the code.  Two ticks of the interval timer, five seconds
    apart, no response in between: the second tick is not skipped, two
    heartbeat requests are made and both are in flight. *)
Lemma liveness_two_in_flight :
  let '(st, acts) := run [(5020, EvLivenessTick); (10020, EvLivenessTick)] running_abc in
  acts = [HttpPost 1 uri_live None; HttpPost 2 uri_live None] ∧
  live_in_flight st = 2%nat ∧
  mazLivenessPending st = None.
Proof. vm_compute. auto. Qed.

(** ** More of the lackey *)

(** X1.  [mazDecodeError] on the result of the executor: it is [null] (the
    task succeeded) exactly when there is no pipeline error, no error of the
    executor, no core, no signal and the exit code is 0; an internal error
    comes before everything, a core before a signal, and a signal before the
    exit code. *)
Theorem mazDecodeError_priority (e : option string) (r : result) :
  (mazDecodeError e (Some r) = Some None ↔
     e = None ∧ error r = None ∧ core r = false ∧ signal r = None ∧ code r = 0) ∧
  (∀ m, e = Some m ∨ (e = None ∧ error r = Some m) →
     mazDecodeError e (Some r) =
       Some (Some {| message := "internal error"; messageInternal := Some m |})) ∧
  (e = None ∧ error r = None ∧ core r = true →
     mazDecodeError e (Some r) =
       Some (Some {| message := "user command or child process dumped core";
                     messageInternal := None |})) ∧
  (∀ sig, e = None ∧ error r = None ∧ core r = false ∧ signal r = Some sig →
     mazDecodeError e (Some r) =
       Some (Some {| message := "user command terminated by " +:+ sig;
                     messageInternal := None |})) ∧
  (e = None ∧ error r = None ∧ core r = false ∧ signal r = None ∧ code r ≠ 0 →
     mazDecodeError e (Some r) =
       Some (Some {| message := "user command exited with code " +:+ pretty (code r);
                     messageInternal := None |})).
Proof.
  unfold mazDecodeError. split; [split | split; [|split; [|split]]].
  - destruct e; [discriminate|]. destruct (error r); [discriminate|].
    destruct (core r); [discriminate|]. destruct (signal r); [discriminate|].
    destruct (code r =? 0) eqn:E; [|discriminate]. intros _. apply Z.eqb_eq in E. auto.
  - intros (-> & -> & -> & -> & ->). reflexivity.
  - intros m [-> | [-> ->]]; reflexivity.
  - intros (-> & -> & ->). reflexivity.
  - intros sig (-> & -> & -> & ->). reflexivity.
  - intros (-> & -> & -> & -> & Hc). apply Z.eqb_neq in Hc. rewrite Hc. reflexivity.
Qed.

(** What X2 says of the end of the pipeline of the task [t]. *)
Definition reported (now : Z) (e : option string) (st : lackey) (t : task) (r : result)
  : Prop :=
  ∃ uri key st',
    step now (EvPipelineDone e) st =
      (st', [ClearInterval;
             HttpPost (fresh st) uri (Some (ReportArg key
                                              (default None (mazDecodeError e (Some r)))))]) ∧
    (uri = uri_commit ↔ mazDecodeError e (Some r) = Some None) ∧
    (uri = uri_fail ↔ mazDecodeError e (Some r) ≠ Some None) ∧
    key = (if bool_decide (taskPhase_type t = "reduce") then None
           else head (taskInputKeys (taskBatch t))) ∧
    (cb <$> mazClientRequests st' !! fresh st) = Some CbTaskReport ∧
    (expected_code <$> mazClientRequests st' !! fresh st) = Some (Some 204) ∧
    mazPipeline st' = false ∧ halted st' = false.

(** X2.  Every end of the pipeline is reported: for a task that is a reduce
    task or has its one input key, with the executor's result recorded, the
    end of the pipeline makes exactly one request, a POST to [commit] when
    [mazDecodeError] finds nothing and to [fail] otherwise, with the key of a
    map task and none for a reduce task. *)
Theorem pipeline_end_is_reported
    (now : Z) (e : option string) (st : lackey) (t : task) (r : result) :
  halted st = false →
  mazPipeline st = true →
  mazCurrentTask st = Some t →
  mazExecutorResult st = Some r →
  taskPhase_type t = "reduce" ∨ length (taskInputKeys (taskBatch t)) = 1%nat →
  reported now e st t r.
Proof.
  intros Hlive Hpipe Hcur Hres Hkeys. unfold reported, step. rewrite Hlive, Hpipe.
  unfold mazTaskReport. cbn [mazCurrentTask set_mazPipeline mazExecutorResult].
  rewrite Hcur, Hres.
  assert (negb (bool_decide (taskPhase_type t = "reduce")) &&
          negb (bool_decide (length (taskInputKeys (taskBatch t)) = 1%nat)) = false) as ->.
  { destruct Hkeys as [H | H].
    - rewrite (bool_decide_eq_true_2 _ H). reflexivity.
    - rewrite (bool_decide_eq_true_2 _ H). apply andb_false_r. }
  assert (∃ d, mazDecodeError e (Some r) = Some d) as [d Hd].
  { unfold mazDecodeError. destruct e; [eauto|]. destruct (error r); [eauto|].
    destruct (core r); [eauto|]. destruct (signal r); [eauto|].
    destruct (negb _); eauto. }
  rewrite Hd. destruct d as [eo|]; cbn.
  - eexists uri_fail, _, _. split; [reflexivity|].
    cbn [mazClientRequests set_mazClientRequests set_fresh set_mazPipeline
         mazPipeline halted fresh].
    rewrite lookup_insert_eq. cbn.
    split; [split; [discriminate | discriminate]|].
    split; [split; [discriminate | reflexivity]|]. auto.
  - eexists uri_commit, _, _. split; [reflexivity|].
    cbn [mazClientRequests set_mazClientRequests set_fresh set_mazPipeline
         mazPipeline halted fresh].
    rewrite lookup_insert_eq. cbn.
    split; [split; reflexivity|].
    split; [split; [discriminate | intros H; congruence]|]. auto.
Qed.

(** The reduce task of [running_abc] when its program exited with status 3. *)
Definition exited_3 : lackey :=
  (step 100 (EvExecutorDone {| error := None; core := false; signal := None; code := 3 |})
     running_abc).1.

Lemma pipeline_end_is_reported_witness :
  reported 200 None exited_3 (reduce_task ["a"; "b"; "c"] false)
    {| error := None; core := false; signal := None; code := 3 |}.
Proof.
  apply (pipeline_end_is_reported 200 None exited_3 (reduce_task ["a"; "b"; "c"] false)
           {| error := None; core := false; signal := None; code := 3 |});
    try reflexivity.
  left. reflexivity.
Defined.

(** The state between two tasks: nothing of a task is set. *)
Definition clean (st : lackey) : Prop :=
  mazPipeline st = false ∧ mazCurrentTask st = None ∧ mazExecutor st = None ∧
  mazExecutorResult st = None ∧ mazErrorSave st = None.

Lemma clean_test (e : option string) (st : lackey) :
  (bool_decide (e = None) && negb (mazPipeline st) &&
   bool_decide (mazCurrentTask st = None) &&
   match mazExecutor st with None => true | Some _ => false end &&
   match mazExecutorResult st with None => true | Some _ => false end &&
   bool_decide (mazErrorSave st = None)) = true ↔ e = None ∧ clean st.
Proof.
  unfold clean. split.
  - intros H. apply andb_true_iff in H as [H H6]. apply andb_true_iff in H as [H H5].
    apply andb_true_iff in H as [H H4]. apply andb_true_iff in H as [H H3].
    apply andb_true_iff in H as [H1 H2].
    apply bool_decide_eq_true in H1, H3, H6. apply negb_true_iff in H2.
    destruct (mazExecutor st); [discriminate|].
    destruct (mazExecutorResult st); [discriminate|]. auto 10.
  - intros (-> & Hp & Hc & He & Hr & Hs). rewrite Hp, Hc, He, Hr, Hs. reflexivity.
Qed.

(** What X3 says of the answer to the long poll of [mazTaskFetch]. *)
Definition fetch_answer (now : Z) (id : nat) (t : task) (st : lackey) : Prop :=
  (clean st →
     ∃ st', step now (EvResponse id (ok_reply 200 (Some t))) st =
              (st', [SetInterval mazTaskLivenessInterval; StartPipeline (Some t)]) ∧
            mazCurrentTask st' = Some t ∧ mazPipeline st' = true ∧
            mazUserEmitted st' = false ∧ halted st' = false) ∧
  (¬ clean st →
     ∃ st', step now (EvResponse id (ok_reply 200 (Some t))) st =
              (st', [Throw "AssertionError"]) ∧ halted st' = true) ∧
  (∀ sc name, 400 ≤ sc < 500 → sc ≠ 410 →
     ∃ st', step now (EvResponse id (http_error sc name)) st =
              (st', [Throw "AssertionError"]) ∧ halted st' = true).

(** X3.  One task at a time.  The task of the answer to [mazTaskFetch] is
    taken up (interval timer, pipeline) exactly when nothing of a task is
    set; if anything is, the assertions of the callback stop the process and
    no pipeline is started.  A 4xx answer (other than 410) fails the first
    assertion. *)
Theorem task_fetch_needs_clean_state
    (now : Z) (id : nat) (rq : clientreq) (t : task) (st : lackey) :
  halted st = false →
  mazClientRequests st !! id = Some rq →
  cb rq = CbTaskFetch →
  expected_code rq = Some 200 →
  fetch_answer now id t st.
Proof.
  intros Hlive Hrq Hcb Hexp. unfold fetch_answer.
  split; [|split].
  - intros Hclean.
    rewrite (step_live _ _ _ Hlive), (on_response_pending _ _ _ _ _ Hrq), Hexp, Hcb. cbn.
    pose proof (proj2 (clean_test None st) (conj eq_refl Hclean)) as Ht.
    cbn in Ht. rewrite Ht. eexists. split; [reflexivity|]. cbn. auto.
  - intros Hdirty.
    rewrite (step_live _ _ _ Hlive), (on_response_pending _ _ _ _ _ Hrq), Hexp, Hcb. cbn.
    destruct (_ && _) eqn:Ht.
    + exfalso. apply Hdirty. apply (clean_test None st). exact Ht.
    + eexists. split; reflexivity.
  - intros sc name Hsc Hne.
    rewrite (step_live _ _ _ Hlive), (on_response_pending _ _ _ _ _ Hrq), Hexp, Hcb.
    assert (classify (Some 200) (http_error sc name) = Surface) as ->.
    { unfold classify. cbn [err response http_error].
      rewrite (proj2 (client_error_spec (Some sc))); [reflexivity|]. eauto. }
    cbn. eexists. split; reflexivity.
Qed.

(** The lackey after [main]: the first long poll is pending. *)
Definition listening : lackey := (step 0 EvListening initial).1.

Lemma task_fetch_needs_clean_state_witness :
  fetch_answer 10 0 (reduce_task ["a"; "b"; "c"] false) listening.
Proof.
  apply (task_fetch_needs_clean_state 10 0
           {| time := 0; opname := "GET /my/jobs/task/task?wait=true"; attempt := 1;
              expected_code := Some 200; maker := MkGetTask; cb := CbTaskFetch |}
           (reduce_task ["a"; "b"; "c"] false) listening); reflexivity.
Defined.

(** What X4 says of the answer [r] to the final report. *)
Definition hands_over (now now' : Z) (id : nat) (r : reply) (t : task) (st : lackey)
  : Prop :=
  ∃ st1 st2,
    step now (EvResponse id r) st = (st1, [HttpGet (fresh st) uri_task]) ∧
    clean st1 ∧
    step now' (EvResponse (fresh st) (ok_reply 200 (Some t))) st1 =
      (st2, [SetInterval mazTaskLivenessInterval; StartPipeline (Some t)]) ∧
    mazCurrentTask st2 = Some t ∧ halted st2 = false.

(** X4.  From one task to the next.  Whatever the task left behind (an
    executor, its result, a capture error), an answer to the final report
    that is not retried, the expected 204 or a 4xx such as 409, clears it
    all and makes the long poll for the next task, and the task of its
    answer is taken up: the assertions of [mazTaskFetch] hold. *)
Theorem report_answer_hands_over
    (now now' : Z) (id : nat) (rq : clientreq) (r : reply) (t : task) (st : lackey) :
  halted st = false →
  mazPipeline st = false →
  mazClientRequests st !! id = Some rq →
  cb rq = CbTaskReport →
  classify (expected_code rq) r = Deliver ∨ classify (expected_code rq) r = Surface →
  hands_over now now' id r t st.
Proof.
  intros Hlive Hpipe Hrq Hcb Hcl. unfold hands_over.
  rewrite (step_live _ _ _ Hlive), (on_response_pending _ _ _ _ _ Hrq), Hcb.
  assert (∀ e x, run_callback now CbTaskReport e x
                   (set_mazClientRequests (delete id (mazClientRequests st)) st) =
                 mazTaskFetch now
                   (set_mazErrorSave None (set_mazExecutorResult None (set_mazExecutor None
                      (set_mazCurrentTask None
                         (set_mazClientRequests (delete id (mazClientRequests st)) st))))))
    as Hrun by reflexivity.
  assert (∀ v : verdict, (v = Deliver ∨ v = Surface) →
            match v with
            | NoResponse => die (Throw "TypeError")
                              (set_mazClientRequests (delete id (mazClientRequests st)) st)
            | Deliver => run_callback now CbTaskReport None (res_task r)
                           (set_mazClientRequests (delete id (mazClientRequests st)) st)
            | Surface => run_callback now CbTaskReport (err r) None
                           (set_mazClientRequests (delete id (mazClientRequests st)) st)
            | Retry =>
                (set_mazRetryTimeout (Some (fresh st))
                   (set_timers (<[fresh st := rq]> (timers st))
                      (set_fresh (S (fresh st))
                         (set_mazClientRequests (delete id (mazClientRequests st)) st))),
                 [SetTimeout (fresh st) mazRetryTime])
            end =
            mazTaskFetch now
              (set_mazErrorSave None (set_mazExecutorResult None (set_mazExecutor None
                 (set_mazCurrentTask None
                    (set_mazClientRequests (delete id (mazClientRequests st)) st))))))
    as Hv.
  { intros v [-> | ->]; apply Hrun. }
  cbn zeta. rewrite (Hv _ Hcl). unfold mazTaskFetch, mazParentRequest. cbn.
  eexists _, _. split; [reflexivity|].
  split; [unfold clean; cbn; auto|].
  unfold step. cbn. rewrite Hlive. unfold on_response. cbn.
  rewrite lookup_insert_eq. cbn. rewrite Hpipe. cbn. split; [reflexivity|]. auto.
Qed.

(** The reduce task of [running_abc], its program done and the pipeline
    over: the report is pending as request 1. *)
Definition report_pending : lackey :=
  (run [(100, EvExecutorDone {| error := None; core := false; signal := None; code := 0 |});
        (200, EvPipelineDone None)] running_abc).1.

Lemma report_answer_hands_over_witness :
  hands_over 210 300 1 (http_error 409 "ConflictError") (reduce_task ["x"] true)
    report_pending.
Proof.
  apply (report_answer_hands_over 210 300 1
           {| time := 200; opname := "POST /my/jobs/task/commit"; attempt := 1;
              expected_code := Some 204;
              maker := MkPost uri_commit (ReportArg None None); cb := CbTaskReport |}
           (http_error 409 "ConflictError") (reduce_task ["x"] true) report_pending);
    try reflexivity.
  right. reflexivity.
Defined.

(** The request [makerequest] issues under the id [id]. *)
Definition request_action (mk : makerequest) (id : nat) : action :=
  match mk with
  | MkGetTask => HttpGet id uri_task
  | MkPost uri arg => HttpPost id uri (Some arg)
  | MkLive => HttpPost id uri_live None
  end.

(** [k] times: the failure [r] answers the request, then the timer fires.
    The request is [id] at first; the ids of the timer and of the request
    made again are the next two fresh ones, from [f] on. *)
Fixpoint retry_rounds (k : nat) (id f : nat) (r : reply) (now : Z) : list (Z * event) :=
  match k with
  | O => []
  | S k' =>
      (now, EvResponse id r) :: (now, EvTimeout f) ::
      retry_rounds k' (S f) (S (S f)) r now
  end.

Fixpoint retry_actions (k : nat) (mk : makerequest) (f : nat) : list action :=
  match k with
  | O => []
  | S k' => SetTimeout f mazRetryTime :: request_action mk (S f) ::
            retry_actions k' mk (S (S f))
  end.

(** What X5 says after [k] failures of the request [rq], pending as [id]. *)
Definition retried (k : nat) (id : nat) (rq : clientreq) (r : reply) (now : Z)
    (st : lackey) : Prop :=
  let '(st', acts) := run (retry_rounds k id (fresh st) r now) st in
  let id' := match k with O => id | S _ => (fresh st + 2 * k - 1)%nat end in
  acts = retry_actions k (maker rq) (fresh st) ∧
  (∃ tm, mazClientRequests st' !! id' =
           Some {| time := tm; opname := opname rq; attempt := attempt rq + Z.of_nat k;
                   expected_code := expected_code rq; maker := maker rq; cb := cb rq |}) ∧
  fresh st' = (fresh st + 2 * k)%nat ∧
  halted st' = false ∧
  mazCurrentTask st' = mazCurrentTask st ∧ mazExecutor st' = mazExecutor st ∧
  mazExecutorResult st' = mazExecutorResult st ∧ mazPipeline st' = mazPipeline st.

Lemma retry_round (id : nat) (rq : clientreq) (r : reply) (now : Z) (st : lackey) :
  halted st = false →
  mazClientRequests st !! id = Some rq →
  0 < attempt rq →
  classify (expected_code rq) r = Retry →
  ∃ st2,
    run [(now, EvResponse id r); (now, EvTimeout (fresh st))] st =
      (st2, [SetTimeout (fresh st) mazRetryTime; request_action (maker rq) (S (fresh st))]) ∧
    mazClientRequests st2 !! S (fresh st) =
      Some {| time := now; opname := opname rq; attempt := attempt rq + 1;
              expected_code := expected_code rq; maker := maker rq; cb := cb rq |} ∧
    fresh st2 = S (S (fresh st)) ∧ halted st2 = false ∧
    mazCurrentTask st2 = mazCurrentTask st ∧ mazExecutor st2 = mazExecutor st ∧
    mazExecutorResult st2 = mazExecutorResult st ∧ mazPipeline st2 = mazPipeline st.
Proof.
  intros Hlive Hrq Hatt Hcl. cbn [run].
  rewrite (step_live _ _ _ Hlive), (on_response_pending _ _ _ _ _ Hrq). cbn zeta.
  rewrite Hcl. unfold step.
  cbn [halted set_mazRetryTimeout set_timers set_fresh set_mazClientRequests].
  rewrite Hlive. unfold on_timeout.
  cbn [timers set_mazRetryTimeout set_timers set_fresh set_mazClientRequests].
  rewrite lookup_insert_eq. unfold mazParentRequest.
  assert ((attempt rq + 1 =? 0) = false) as -> by (apply Z.eqb_neq; lia).
  destruct rq as [tm op att ex mk k]. cbn [maker opname expected_code cb attempt] in *.
  destruct mk; cbn; (eexists; split; [reflexivity|]); cbn; rewrite lookup_insert_eq;
    auto 10.
Qed.

(** X5.  [mazParentRequest] does not give up.  However often a request is
    answered by a failure that is retried (no response, 410, 5xx, an
    unexpected status), each time the timer is armed with [mazRetryTime] and
    the same request is made again with [attempt] one higher; after [k]
    failures it is pending with [attempt + k], its callback was not called
    and the task is as it was. *)
Theorem mazParentRequest_retries_forever
    (k : nat) (id : nat) (rq : clientreq) (r : reply) (now : Z) (st : lackey) :
  halted st = false →
  mazClientRequests st !! id = Some rq →
  0 < attempt rq →
  classify (expected_code rq) r = Retry →
  retried k id rq r now st.
Proof.
  revert id rq st. induction k as [|k IH]; intros id rq st Hlive Hrq Hatt Hcl.
  - unfold retried. cbn [retry_rounds run retry_actions].
    split; [reflexivity|]. split.
    + exists (time rq). rewrite Hrq, Z.add_0_r. destruct rq; reflexivity.
    + repeat split; auto; lia.
  - unfold retried. cbn [retry_rounds retry_actions].
    destruct (retry_round id rq r now st Hlive Hrq Hatt Hcl)
      as (st2 & Hrun & Hrq2 & Hfresh & Hlive2 & Hc & He & Hr & Hp).
    change ((now, EvResponse id r) :: (now, EvTimeout (fresh st)) ::
            retry_rounds k (S (fresh st)) (S (S (fresh st))) r now)
      with ([(now, EvResponse id r); (now, EvTimeout (fresh st))] ++
            retry_rounds k (S (fresh st)) (S (S (fresh st))) r now).
    assert (∀ l1 l2 s, run (l1 ++ l2) s =
              let '(s1, a1) := run l1 s in let '(s2, a2) := run l2 s1 in (s2, a1 ++ a2))
      as Happ.
    { induction l1 as [|[t ev] l1 IHl]; intros l2 s; cbn [app run].
      - destruct (run l2 s); reflexivity.
      - destruct (step t ev s) as [s1 a1]. rewrite IHl.
        destruct (run l1 s1) as [s2 a2]. destruct (run l2 s2) as [s3 a3].
        rewrite app_assoc. reflexivity. }
    rewrite Happ, Hrun.
    specialize (IH (S (fresh st)) _ st2 Hlive2 Hrq2 ltac:(cbn; lia) Hcl).
    unfold retried in IH. rewrite Hfresh in IH.
    destruct (run (retry_rounds k (S (fresh st)) (S (S (fresh st))) r now) st2) as [st' acts].
    destruct IH as (Hacts & (tm & Hent) & Hfr & Hl & Hc' & He' & Hr' & Hp').
    cbn [cb maker opname expected_code attempt] in *.
    split; [rewrite Hacts; reflexivity|]. split.
    + exists tm.
      replace (fresh st + 2 * S k - 1)%nat
        with (match k with O => S (fresh st) | S _ => (S (S (fresh st)) + 2 * k - 1)%nat end)
        by (destruct k; lia).
      rewrite Hent. do 2 f_equal. lia.
    + repeat split; try congruence; lia.
Qed.

Lemma mazParentRequest_retries_forever_witness :
  retried 3 1 commit_request (transport_error "ECONNREFUSED") 110 commit_pending.
Proof.
  apply (mazParentRequest_retries_forever 3 1 commit_request
           (transport_error "ECONNREFUSED") 110 commit_pending); reflexivity.
Defined.

(** X6.  The interval timer always posts.  In whatever state a run of the
    lackey has left it, unless the process is gone, a tick of the liveness
    timer makes one heartbeat request: [mazLivenessPending] is clear again
    as soon as the request was issued, answered or not. *)
Theorem liveness_tick_always_posts (evs : list (Z * event)) (now : Z) :
  halted (run evs initial).1 = false →
  ∃ st',
    step now EvLivenessTick (run evs initial).1 =
      (st', [HttpPost (fresh (run evs initial).1) uri_live None]) ∧
    mazLivenessPending st' = None ∧
    (is_live <$> mazClientRequests st' !! fresh (run evs initial).1) = Some true.
Proof.
  intros Hlive. pose proof (liveness_flag_never_set evs initial eq_refl) as Hflag.
  rewrite (step_live _ _ _ Hlive).
  apply mazTaskLivenessTick_clears_flag, Hflag.
Qed.

Lemma liveness_tick_always_posts_witness :
  ∃ st',
    step 15020 EvLivenessTick
      (run [(0, EvListening);
            (10, EvResponse 0 (ok_reply 200 (Some (reduce_task ["a"] true))));
            (20, EvSpawn); (5020, EvLivenessTick); (10020, EvLivenessTick)] initial).1 =
      (st', [HttpPost 3 uri_live None]) ∧
    mazLivenessPending st' = None ∧
    (is_live <$> mazClientRequests st' !! 3%nat) = Some true.
Proof.
  apply (liveness_tick_always_posts
           [(0, EvListening);
            (10, EvResponse 0 (ok_reply 200 (Some (reduce_task ["a"] true))));
            (20, EvSpawn); (5020, EvLivenessTick); (10020, EvLivenessTick)] 15020).
  reflexivity.
Defined.

(** X7.  A failed capture of stdout or stderr is kept and not reported.  The
    first error of a capture stays in [mazErrorSave], a later one does not
    replace it; and the report at the end of the pipeline is the same
    request, to the same URI with the same body, as without the capture
    error. *)
Theorem capture_error_kept_not_reported
    (name1 name2 m1 : string) (e2 : option string) (now : Z) (e : option string)
    (st : lackey) :
  mazErrorSave st = None →
  mazErrorSave (mazFileSave_done name1 (Some m1) st) =
    Some ("error saving " +:+ name1 +:+ ": " +:+ m1) ∧
  mazErrorSave (mazFileSave_done name2 e2 (mazFileSave_done name1 (Some m1) st)) =
    Some ("error saving " +:+ name1 +:+ ": " +:+ m1) ∧
  (mazTaskReport now e (mazFileSave_done name2 e2 (mazFileSave_done name1 (Some m1) st))).2 =
    (mazTaskReport now e st).2.
Proof.
  intros Hnone.
  assert (mazFileSave_done name1 (Some m1) st =
          set_mazErrorSave (Some ("error saving " +:+ name1 +:+ ": " +:+ m1)) st) as ->
    by (unfold mazFileSave_done; rewrite Hnone; reflexivity).
  assert (mazFileSave_done name2 e2
            (set_mazErrorSave (Some ("error saving " +:+ name1 +:+ ": " +:+ m1)) st) =
          set_mazErrorSave (Some ("error saving " +:+ name1 +:+ ": " +:+ m1)) st) as ->
    by (unfold mazFileSave_done; destruct e2; reflexivity).
  split; [reflexivity|]. split; [reflexivity|].
  unfold mazTaskReport. cbn [mazCurrentTask set_mazErrorSave mazExecutorResult].
  destruct (mazCurrentTask st) as [t|]; [|reflexivity].
  destruct (_ && _); [reflexivity|].
  destruct (mazDecodeError e (mazExecutorResult st)) as [[eo|]|]; reflexivity.
Qed.

Lemma capture_error_kept_not_reported_witness :
  mazErrorSave (mazFileSave_done "stdout" (Some "ENOSPC") exited_3) =
    Some "error saving stdout: ENOSPC" ∧
  mazErrorSave (mazFileSave_done "stderr" (Some "EIO")
                  (mazFileSave_done "stdout" (Some "ENOSPC") exited_3)) =
    Some "error saving stdout: ENOSPC" ∧
  (mazTaskReport 200 None
     (mazFileSave_done "stderr" (Some "EIO")
        (mazFileSave_done "stdout" (Some "ENOSPC") exited_3))).2 =
    (mazTaskReport 200 None exited_3).2.
Proof.
  apply (capture_error_kept_not_reported "stdout" "stderr" "ENOSPC" (Some "EIO") 200 None
           exited_3).
  reflexivity.
Defined.

(** A process that is gone does nothing more. *)
Lemma run_halted (evs : list (Z * event)) (st : lackey) :
  halted st = true → run evs st = (st, []).
Proof.
  intros H. induction evs as [|[now ev] evs IH]; [reflexivity|].
  cbn [run]. unfold step. rewrite H, IH. reflexivity.
Qed.

(** The two callbacks of [mazDoneBatch], which feed a reduce task. *)
Definition feeds (k : callback) : Prop :=
  (∃ b, k = CbDoneBatch b) ∨ k = CbNextBatch.

(** X22.  An error while a reduce task is fed is fatal.  When the commit of
    a batch, or the poll for the next batch, is answered by a failure that
    is not retried (a 4xx other than 410), the callback exits the process
    with code 1: no request follows, and the task is never reported, neither
    as committed nor as failed. *)
Theorem reduce_feed_error_is_fatal
    (now : Z) (id : nat) (rq : clientreq) (r : reply) (m : string) (st : lackey) :
  halted st = false →
  mazClientRequests st !! id = Some rq →
  feeds (cb rq) →
  classify (expected_code rq) r = Surface →
  err r = Some m →
  ∃ st',
    step now (EvResponse id r) st = (st', [ProcessExit 1]) ∧
    halted st' = true ∧
    ∀ evs, (run evs st').2 = [].
Proof.
  intros Hlive Hrq Hfeeds Hcl Herr.
  rewrite (step_live _ _ _ Hlive), (on_response_pending _ _ _ _ _ Hrq). cbn zeta.
  rewrite Hcl, Herr.
  destruct Hfeeds as [[b ->] | ->]; cbn [run_callback die];
    (eexists; split; [reflexivity|]); (split; [reflexivity|]);
    intros evs; rewrite run_halted; reflexivity.
Qed.

Lemma reduce_feed_error_is_fatal_witness :
  ∃ st',
    step 110 (EvResponse 1 (http_error 409 "ConflictError")) commit_pending =
      (st', [ProcessExit 1]) ∧
    halted st' = true ∧
    ∀ evs, (run evs st').2 = [].
Proof.
  apply (reduce_feed_error_is_fatal 110 1 commit_request (http_error 409 "ConflictError")
           "ConflictError" commit_pending); try reflexivity.
  left. eexists. reflexivity.
Defined.

End LackeySpec.

(* ===================================================================== *)
(** * The store client: job records *)
(* ===================================================================== *)

Module MarlinSpec.
Import JS Moray Marlin.

#[local] Open Scope Z_scope.

(** ** Running programs *)

Lemma exec_bind {W A B : Type} (c : client W) (p : prog A) (f : A → prog B) (w : W) :
  exec c (bind p f) w =
    let '(x, w1, c1) := exec c p w in
    let '(y, w2, c2) := exec c (f x) w1 in
    (y, w2, c1 ++ c2).
Proof.
  revert w. induction p as [x | k IH | k IH | b key cont IH | b key v e cont IH];
    intros w; cbn.
  - destruct (exec c (f x) w) as [[y w2] c2]. reflexivity.
  - destruct (date_now c w) as [t w1]. apply IH.
  - destruct (uuid_v4 c w) as [u w1]. apply IH.
  - destruct (getObject c b key w) as [r w1]. rewrite IH.
    destruct (exec c (cont r) w1) as [[x w2] c1].
    destruct (exec c (f x) w2) as [[y w3] c2]. reflexivity.
  - destruct (putObject c b key v e w) as [r w1]. rewrite IH.
    destruct (exec c (cont r) w1) as [[x w2] c1].
    destruct (exec c (f x) w2) as [[y w3] c2]. reflexivity.
Qed.

(** An attempt that succeeds is the whole operation, whatever the policy. *)
Lemma exec_retry_ok {W A : Type} (c : client W) (n : nat) (p : prog (outcome A))
    (w w' : W) (x : A) (calls : list call) :
  exec c p w = (Ok x, w', calls) →
  exec c (retry_operation n p) w = (Ok x, w', calls).
Proof.
  intros H. destruct n; cbn; rewrite exec_bind, H; cbn; rewrite app_nil_r; reflexivity.
Qed.

Lemma exec_jobFetchAndUpdate_ok {W : Type} (c : client W) (a : api) (jobid : string)
    (o : options) (u : updater) (w w' : W) (x : record) (calls : list call) :
  exec c (jobFetchAndUpdateTry a jobid u) w = (Ok x, w', calls) →
  exec c (jobFetchAndUpdate a jobid o u) w = (Ok x, w', calls).
Proof.
  intros H. unfold jobFetchAndUpdate. destruct (retry o); [|exact H].
  apply exec_retry_ok, H.
Qed.

(** One attempt, step by step: the fetch, the update of the copy, the put
    under the token of the fetch. *)
Lemma exec_try {W : Type} (c : client W) (a : api) (jobid : string) (u : updater) (w : W) :
  exec c (jobFetchAndUpdateTry a jobid u) w =
    let bkt := job (ma_buckets a) in
    let '(r, w1) := getObject c bkt jobid w in
    match r with
    | inl e => (Fail (VError "failed to fetch job" (Some e)), w1, [CallGet bkt jobid])
    | inr jobrec =>
        let '(uerr, newval, w2, c2) := exec c (u (value jobrec)) w1 in
        match uerr with
        | Some e => (Fail e, w2, CallGet bkt jobid :: c2)
        | None =>
            let '(suberr, w3) := putObject c bkt jobid newval (Some (_etag jobrec)) w2 in
            (match suberr with
             | Some e => Fail (VError "failed to update job" (Some e))
             | None => Ok jobrec
             end, w3,
             CallGet bkt jobid :: c2 ++ [CallPut bkt jobid newval (Some (_etag jobrec))])
        end
    end.
Proof.
  unfold jobFetchAndUpdateTry. cbn.
  destruct (getObject c (job (ma_buckets a)) jobid w) as [[e | jobrec] w1]; [reflexivity|].
  rewrite exec_bind. unfold deepCopy.
  destruct (exec c (u (value jobrec)) w1) as [[[uerr newval] w2] c2].
  destruct uerr as [e|]; cbn.
  - rewrite app_nil_r. reflexivity.
  - destruct (putObject c _ jobid newval _ w2) as [[e|] w3]; reflexivity.
Qed.

(** ** The heartbeat of the archiver *)

(** C10.  [jobArchiveHeartbeat] reads the job record and writes back the
    value it read, field for field, under the token it read; when the put
    succeeds the caller gets the record as it was read.  In the store only
    the token of the record is new. *)
Theorem jobArchiveHeartbeat_writes_back_value_read
    {W : Type} (c : client W) (a : api) (jobid : string) (o : options)
    (w w1 w2 : W) (jobrec : record) :
  getObject c (job (ma_buckets a)) jobid w = (inr jobrec, w1) →
  putObject c (job (ma_buckets a)) jobid (value jobrec) (Some (_etag jobrec)) w1
    = (None, w2) →
  exec c (jobArchiveHeartbeat a jobid o) w =
    (Ok jobrec, w2,
     [CallGet (job (ma_buckets a)) jobid;
      CallPut (job (ma_buckets a)) jobid (value jobrec) (Some (_etag jobrec))]) ∧
  (∀ (s : store) (v : obj) (e : nat),
      objects s !! (job (ma_buckets a), jobid) = Some (v, e) →
      ∃ s', exec memory (jobArchiveHeartbeat a jobid o) s =
              (Ok {| bucket := job (ma_buckets a); key := jobid; value := v; _etag := e |},
               s',
               [CallGet (job (ma_buckets a)) jobid;
                CallPut (job (ma_buckets a)) jobid v (Some e)]) ∧
            objects s' = <[(job (ma_buckets a), jobid) := (v, next_etag s)]> (objects s)).
Proof.
  intros Hget Hput. split.
  - apply exec_jobFetchAndUpdate_ok. rewrite exec_try. cbn. rewrite Hget. cbn.
    rewrite Hput. reflexivity.
  - intros s v e Hs. eexists. split.
    + apply exec_jobFetchAndUpdate_ok. rewrite exec_try. cbn.
      unfold store_get. rewrite Hs. cbn. unfold store_put. rewrite Hs.
      rewrite bool_decide_eq_true_2 by reflexivity. reflexivity.
    + reflexivity.
Qed.

(** A store with one job, cancelled, of a user. *)
Definition demo_api : api :=
  {| ma_buckets := {| job := "marlin_jobs_v2"; jobinput := "marlin_jobinputs_v2";
                      error := "marlin_errors_v2"; task := "marlin_tasks_v2";
                      taskinput := "marlin_taskinputs_v2";
                      taskoutput := "marlin_taskoutputs_v2" |};
     ma_images := ["13.3.6"] |}.

Definition demo_job : obj :=
  list_to_map [ ("jobId", JStr "j-1"); ("owner", JStr "bob123"); ("state", JStr "queued");
                ("timeCreated", JStr "2013-03-02T00:00:00.000Z");
                ("timeCancelled", JStr "2013-03-02T00:00:05.000Z") ].

Definition demo_store (jobval : obj) : store :=
  {| objects := {[ ("marlin_jobs_v2", "j-1") := (jobval, 7%nat) ]};
     next_etag := 8; clock := 1362182410000; next_uuid := 0 |}.

Lemma jobArchiveHeartbeat_writes_back_value_read_witness :
  exec memory (jobArchiveHeartbeat demo_api "j-1" no_options) (demo_store demo_job) =
    (Ok {| bucket := "marlin_jobs_v2"; key := "j-1"; value := demo_job; _etag := 7 |},
     store_write "marlin_jobs_v2" "j-1" demo_job (demo_store demo_job),
     [CallGet "marlin_jobs_v2" "j-1";
      CallPut "marlin_jobs_v2" "j-1" demo_job (Some 7%nat)]).
Proof.
  apply (jobArchiveHeartbeat_writes_back_value_read memory demo_api "j-1" no_options
           (demo_store demo_job) (demo_store demo_job)
           (store_write "marlin_jobs_v2" "j-1" demo_job (demo_store demo_job))
           {| bucket := "marlin_jobs_v2"; key := "j-1"; value := demo_job; _etag := 7 |});
    reflexivity.
Defined.

(** ** Ending the input of a job *)

(** The attempt on a piped job: the update function returns the error, no
    put is made and the store is as it was. *)
Lemma exec_endInput_piped (a : api) (jobid : string) (s : store) (v : obj) (e : nat) :
  objects s !! (job (ma_buckets a), jobid) = Some (v, e) →
  truthy (getprop v "input") = true →
  exec memory (jobFetchAndUpdateTry a jobid jobEndInput_updatef) s =
    (Fail (piped_error v), s, [CallGet (job (ma_buckets a)) jobid]).
Proof.
  intros Hs Hin. rewrite exec_try. cbn. unfold store_get. rewrite Hs.
  unfold jobEndInput_updatef. cbn. rewrite Hin. reflexivity.
Qed.

Lemma exec_endInput_piped_retry (a : api) (jobid : string) (s : store) (v : obj) (e n : nat) :
  objects s !! (job (ma_buckets a), jobid) = Some (v, e) →
  truthy (getprop v "input") = true →
  ∃ calls,
    exec memory (retry_operation n (jobFetchAndUpdateTry a jobid jobEndInput_updatef)) s =
      (Fail (piped_error v), s, calls) ∧
    Forall (λ c, is_put c = false) calls.
Proof.
  intros Hs Hin. induction n as [|n (calls & IH & Hcalls)]; cbn [retry_operation];
    rewrite exec_bind, (exec_endInput_piped _ _ _ _ _ Hs Hin).
  - eexists. split; [reflexivity|]. repeat constructor.
  - rewrite IH. eexists. split; [reflexivity|]. constructor; [reflexivity | exact Hcalls].
Qed.

Lemma exec_endInput_open (a : api) (jobid : string) (s : store) (v : obj) (e : nat) :
  objects s !! (job (ma_buckets a), jobid) = Some (v, e) →
  truthy (getprop v "input") = false →
  ∃ s' calls,
    exec memory (jobFetchAndUpdateTry a jobid jobEndInput_updatef) s =
      (Ok {| bucket := job (ma_buckets a); key := jobid; value := v; _etag := e |},
       s', calls) ∧
    objects s' =
      <[(job (ma_buckets a), jobid) :=
          (<["timeInputDone" := JStr (iso8601 (clock s))]> v, next_etag s)]> (objects s).
Proof.
  intros Hs Hin. rewrite exec_try. cbn. unfold store_get. rewrite Hs.
  unfold jobEndInput_updatef. cbn. rewrite Hin. cbn.
  unfold store_put. cbn. rewrite Hs. rewrite bool_decide_eq_true_2 by reflexivity.
  eexists _, _. split; reflexivity.
Qed.



(** A job whose input is piped from another job, not yet cancelled. *)
Definition piped_job : obj :=
  list_to_map [ ("jobId", JStr "j-1"); ("owner", JStr "bob123"); ("state", JStr "running");
                ("input", JStr "j-0") ].


(** The two runs: the piped job is refused and untouched, the other job
    gets its [timeInputDone]. *)
Example jobEndInput_piped_job :
  exec memory (jobEndInput demo_api "j-1" no_options) (demo_store piped_job) =
    (Fail (piped_error piped_job), demo_store piped_job, [CallGet "marlin_jobs_v2" "j-1"]).
Proof. vm_compute. reflexivity. Qed.

Example jobEndInput_open_job :
  let '(r, s', _) := exec memory (jobEndInput demo_api "j-1" no_options) (demo_store demo_job) in
  r = Ok {| bucket := "marlin_jobs_v2"; key := "j-1"; value := demo_job; _etag := 7 |} ∧
  (λ x, getprop x.1 "timeInputDone") <$> (objects s' !! ("marlin_jobs_v2", "j-1")) =
    Some (JStr "2013-03-02T00:00:10.000Z").
Proof. vm_compute. split; reflexivity. Qed.

(** ** The times of a job are never cleared *)

(** The field [f] is set in a value: it is there, and (the reading of the
    source's tests on it) it is truthy. *)
Definition kept (f : string) (v v' : obj) : Prop :=
  (is_Some (v !! f) → is_Some (v' !! f)) ∧
  (truthy (getprop v f) = true → truthy (getprop v' f) = true).

Lemma kept_refl (f : string) (v : obj) : kept f v v.
Proof. split; auto. Qed.

Lemma kept_insert_other (f k : string) (x : jsval) (v : obj) :
  k ≠ f → kept f v (<[k := x]> v).
Proof.
  intros Hne. unfold kept, getprop. rewrite lookup_insert_ne by exact Hne. auto.
Qed.

Lemma kept_insert_time (f : string) (t : Z) (v : obj) :
  kept f v (<[f := JStr (iso8601 t)]> v).
Proof.
  unfold kept, getprop. rewrite lookup_insert_eq. split; [eauto|].
  intros _. apply JSFacts.iso8601_truthy.
Qed.

Lemma kept_trans (f : string) (v1 v2 v3 : obj) : kept f v1 v2 → kept f v2 v3 → kept f v1 v3.
Proof. unfold kept. intros [? ?] [? ?]. split; auto. Qed.

(** No update function touches the two fields, but to set them. *)
Lemma updatef_kept {W : Type} (c : client W) (op : jobop) (o : options) (v : obj) (w : W)
    (f : string) :
  f = "timeInputDone" ∨ f = "timeCancelled" →
  ∃ uerr v' w', exec c (updatef_of op o v) w = (uerr, v', w', []) ∧ kept f v v'.
Proof.
  intros Hf. destruct op; cbn.
  - destruct (date_now c w) as [t w1]. eexists _, _, _. split; [reflexivity|].
    destruct Hf as [-> | ->]; [apply kept_insert_other; discriminate | apply kept_insert_time].
  - unfold jobEndInput_updatef. destruct (truthy (getprop v "input")); cbn.
    + eexists _, _, _. split; [reflexivity | apply kept_refl].
    + destruct (date_now c w) as [t w1]. eexists _, _, _. split; [reflexivity|].
      destruct Hf as [-> | ->]; [apply kept_insert_time | apply kept_insert_other; discriminate].
  - destruct (date_now c w) as [t w1]. eexists _, _, _. split; [reflexivity|].
    eapply kept_trans; apply kept_insert_other; destruct Hf as [-> | ->]; discriminate.
  - destruct (date_now c w) as [t w1]. eexists _, _, _. split; [reflexivity|].
    apply kept_insert_other; destruct Hf as [-> | ->]; discriminate.
  - eexists _, _, _. split; [reflexivity | apply kept_refl].
Qed.

(** The field is kept from one store to the next, in every record. *)
Definition keeps (f : string) (s s' : store) : Prop :=
  ∀ k v e, objects s !! k = Some (v, e) →
    ∃ v' e', objects s' !! k = Some (v', e') ∧ kept f v v'.

Lemma keeps_refl (f : string) (s : store) : keeps f s s.
Proof. intros k v e H. exists v, e. split; [exact H | apply kept_refl]. Qed.

Lemma keeps_trans (f : string) (s1 s2 s3 : store) :
  keeps f s1 s2 → keeps f s2 s3 → keeps f s1 s3.
Proof.
  intros H12 H23 k v e H. destruct (H12 k v e H) as (v2 & e2 & H2 & K2).
  destruct (H23 k v2 e2 H2) as (v3 & e3 & H3 & K3).
  exists v3, e3. split; [exact H3 | eapply kept_trans; eassumption].
Qed.

Lemma keeps_objects (f : string) (s s' : store) : objects s' = objects s → keeps f s s'.
Proof. intros H k v e Hk. exists v, e. rewrite H. split; [exact Hk | apply kept_refl]. Qed.

Lemma keeps_write (f : string) (b k : string) (v v' : obj) (e : nat) (s : store) :
  objects s !! (b, k) = Some (v, e) → kept f v v' → keeps f s (store_write b k v' s).
Proof.
  intros Hs Hk k0 v0 e0 H0. cbn. destruct (decide ((b, k) = k0)) as [<- | Hne].
  - rewrite lookup_insert_eq. rewrite Hs in H0. injection H0 as <- <-.
    eexists _, _. split; [reflexivity | exact Hk].
  - rewrite lookup_insert_ne by exact Hne. exists v0, e0. split; [exact H0 | apply kept_refl].
Qed.

(** An update function reads the clock at most; the records stay. *)
Lemma updatef_objects (op : jobop) (o : options) (v : obj) (s : store) :
  objects (exec memory (updatef_of op o v) s).1.2 = objects s.
Proof.
  destruct op; cbn; try reflexivity.
  unfold jobEndInput_updatef. destruct (truthy (getprop v "input")); reflexivity.
Qed.

Lemma run_jobop_updatef (op : jobop) (a : api) (jobid : string) (o : options) :
  run_jobop op a jobid o = jobFetchAndUpdate a jobid o (updatef_of op o).
Proof. destruct op; reflexivity. Qed.

Lemma attempt_keeps (op : jobop) (a : api) (jobid : string) (o : options) (f : string)
    (s : store) :
  f = "timeInputDone" ∨ f = "timeCancelled" →
  keeps f s (exec memory (jobFetchAndUpdateTry a jobid (updatef_of op o)) s).1.2.
Proof.
  intros Hf. rewrite exec_try. cbn. unfold store_get.
  destruct (objects s !! (job (ma_buckets a), jobid)) as [[v e]|] eqn:Hs; cbn;
    [|apply keeps_refl].
  pose proof (updatef_objects op o v s) as Hobj.
  destruct (updatef_kept memory op o v s f Hf) as (uerr & v' & s1 & Hex & Hk).
  rewrite Hex in Hobj |- *. cbn in Hobj.
  destruct uerr as [err|]; cbn; [apply keeps_objects, Hobj|].
  unfold store_put. rewrite Hobj, Hs. rewrite bool_decide_eq_true_2 by reflexivity. cbn.
  apply (keeps_trans f s s1); [apply keeps_objects, Hobj|].
  apply (keeps_write f _ _ v v' e); [rewrite Hobj; exact Hs | exact Hk].
Qed.

Lemma retry_keeps (op : jobop) (a : api) (jobid : string) (o : options) (f : string)
    (n : nat) (s : store) :
  f = "timeInputDone" ∨ f = "timeCancelled" →
  keeps f s
    (exec memory (retry_operation n (jobFetchAndUpdateTry a jobid (updatef_of op o))) s).1.2.
Proof.
  intros Hf. revert s. induction n as [|n IH]; intros s; cbn [retry_operation];
    rewrite exec_bind;
    pose proof (attempt_keeps op a jobid o f s Hf) as Hk;
    destruct (exec memory (jobFetchAndUpdateTry a jobid (updatef_of op o)) s)
      as [[r s1] c1]; cbn in Hk.
  - destruct r; exact Hk.
  - destruct r as [x | err]; cbn; [exact Hk|].
    specialize (IH s1).
    destruct (exec memory (retry_operation n _) s1) as [[r2 s2] c2]; cbn in IH |- *.
    eapply keeps_trans; eassumption.
Qed.

(** What C9 says of one operation and one of the two fields. *)
Definition never_cleared (op : jobop) (a : api) (jobid : string) (o : options) (f : string)
  : Prop :=
  (* in the store: every record that had the field still has it *)
  (∀ s : store, keeps f s (exec memory (run_jobop op a jobid o) s).1.2) ∧
  (* against any store: a value an attempt writes is the update of the value
     it fetched, under the token of the fetch, and has the field when the
     fetched value had it *)
  (∀ (W : Type) (c : client W) (w : W) (b k : string) (v' : obj) (et : option nat),
      CallPut b k v' et ∈ (exec c (jobFetchAndUpdateTry a jobid (updatef_of op o)) w).2 →
      ∃ jobrec w1,
        getObject c (job (ma_buckets a)) jobid w = (inr jobrec, w1) ∧
        b = job (ma_buckets a) ∧ k = jobid ∧ et = Some (_etag jobrec) ∧
        kept f (value jobrec) v').

(** C9.  [jobCancel], [jobEndInput], [jobArchiveStart], [jobArchiveDone] and
    [jobArchiveHeartbeat], with or without a retry policy: a job record whose
    [timeInputDone] (or [timeCancelled]) is set has it set after the
    operation, and so has every value the operation writes. *)
Theorem job_times_never_cleared
    (op : jobop) (a : api) (jobid : string) (o : options) (f : string) :
  f = "timeInputDone" ∨ f = "timeCancelled" →
  never_cleared op a jobid o f.
Proof.
  intros Hf. split.
  - intros s. rewrite run_jobop_updatef. unfold jobFetchAndUpdate.
    destruct (retry o) as [n|]; [apply retry_keeps | apply attempt_keeps]; exact Hf.
  - intros W c w b k v' et. rewrite exec_try. cbn.
    destruct (getObject c (job (ma_buckets a)) jobid w) as [[err | jobrec] w1]; cbn.
    + intros Hin. apply list_elem_of_singleton in Hin. discriminate.
    + destruct (updatef_kept c op o (value jobrec) w1 f Hf) as (uerr & v2 & w2 & Hex & Hk).
      rewrite Hex. destruct uerr as [err|]; cbn.
      * intros Hin. apply list_elem_of_singleton in Hin. discriminate.
      * destruct (putObject c _ jobid v2 _ w2) as [suberr w3]. cbn.
        intros Hin. apply elem_of_cons in Hin as [Hin | Hin]; [discriminate|].
        apply list_elem_of_singleton in Hin. injection Hin as -> -> -> ->.
        exists jobrec, w1. auto.
Qed.

Lemma job_times_never_cleared_witness :
  never_cleared OpEndInput demo_api "j-1" no_options "timeCancelled".
Proof.
  apply (job_times_never_cleared OpEndInput demo_api "j-1" no_options "timeCancelled").
  right. reflexivity.
Defined.

(** ** [taskDone] *)

Lemma exec_pipeline {W A : Type} (c : client W) (f : A → prog (outcome A))
    (rest : list (A → prog (outcome A))) (arg : A) (w : W) :
  exec c (pipeline (f :: rest) arg) w =
    let '(r, w1, c1) := exec c (f arg) w in
    match r with
    | Ok arg' =>
        let '(r2, w2, c2) := exec c (pipeline rest arg') w1 in
        (r2, w2, c1 ++ c2)
    | Fail e => (Fail e, w1, c1)
    end.
Proof.
  cbn [pipeline]. rewrite exec_bind.
  destruct (exec c (f arg) w) as [[[arg' | e] w1] c1]; cbn.
  - reflexivity.
  - rewrite app_nil_r. reflexivity.
Qed.

Lemma lookup_fill_eq (k : string) (x : jsval) (o : obj) :
  fill k x o !! k = Some (default x (o !! k)).
Proof.
  unfold fill, hasOwnProperty. case_bool_decide as H.
  - destruct H as [y Hy]. rewrite Hy. reflexivity.
  - rewrite lookup_insert_eq. apply eq_None_not_Some in H. rewrite H. reflexivity.
Qed.

Lemma lookup_fill_ne (k k' : string) (x : jsval) (o : obj) :
  k ≠ k' → fill k x o !! k' = o !! k'.
Proof.
  intros Hne. unfold fill. destruct (hasOwnProperty o k); [reflexivity|].
  apply lookup_insert_ne, Hne.
Qed.

(** The value written by the last stage, field by field. *)
Lemma task_done_value_fields (now : string) (n : option nat) (v : obj) :
  let v' := task_done_value now n v in
  v' !! "state" = Some (JStr "done") ∧
  v' !! "timeDone" = Some (JStr now) ∧
  match n with
  | Some n => v' !! "result" = Some (JStr "ok") ∧ v' !! "nOutputs" = Some (JNum (Z.of_nat n))
  | None => v' !! "result" = Some (JStr "fail") ∧ v' !! "nOutputs" = v !! "nOutputs"
  end ∧
  v' !! "machine" = Some (default (JStr "mrjob_fake_machine") (v !! "machine")) ∧
  v' !! "timeAccepted" = Some (default (JStr now) (v !! "timeAccepted")) ∧
  v' !! "timeStarted" = Some (default (JStr now) (v !! "timeStarted")) ∧
  (∀ k, k ∉ ["state"; "timeDone"; "machine"; "timeAccepted"; "timeStarted";
             "result"; "nOutputs"] → v' !! k = v !! k).
Proof.
  cbn zeta. unfold task_done_value.
  repeat split.
  - destruct n; repeat (rewrite ?lookup_insert_ne, ?lookup_fill_ne by discriminate);
      apply lookup_insert_eq.
  - destruct n; repeat (rewrite ?lookup_insert_ne, ?lookup_fill_ne by discriminate);
      apply lookup_insert_eq.
  - destruct n; split;
      repeat first [ rewrite lookup_insert_eq; reflexivity
                   | rewrite lookup_insert_ne by discriminate
                   | rewrite lookup_fill_ne by discriminate ]; reflexivity.
  - destruct n; repeat (rewrite ?lookup_insert_ne, ?lookup_fill_ne by discriminate);
      rewrite lookup_fill_eq; repeat (rewrite ?lookup_insert_ne by discriminate); reflexivity.
  - destruct n; repeat (rewrite ?lookup_insert_ne, ?lookup_fill_ne by discriminate);
      rewrite lookup_fill_eq;
      repeat (rewrite ?lookup_insert_ne, ?lookup_fill_ne by discriminate); reflexivity.
  - destruct n; repeat (rewrite ?lookup_insert_ne, ?lookup_fill_ne by discriminate);
      rewrite lookup_fill_eq;
      repeat (rewrite ?lookup_insert_ne, ?lookup_fill_ne by discriminate); reflexivity.
  - intros k Hk.
    assert (k ≠ "state" ∧ k ≠ "timeDone" ∧ k ≠ "machine" ∧ k ≠ "timeAccepted" ∧
            k ≠ "timeStarted" ∧ k ≠ "result" ∧ k ≠ "nOutputs") as (?&?&?&?&?&?&?).
    { repeat split; intros ->; apply Hk; set_solver. }
    destruct n;
      repeat (rewrite ?lookup_insert_ne, ?lookup_fill_ne by (symmetry; assumption) || congruence);
      reflexivity.
Qed.

(** C7, as the code has it.  The last stage of [taskDone] makes one put, of
    the fetched record under the token of the fetch, with [state] set to
    [done], [timeDone] to the current time, [result] to [ok] and [nOutputs]
    to the count when a count was given and [result] to [fail] otherwise;
    [timeAccepted] and [timeStarted] are filled with the current time, and
    [machine] with the name [mrjob_fake_machine], each if and only if the
    record does not have the property; no other field changes. *)
Theorem taskDoneWriteTask_value
    {W : Type} (c : client W) (arg : taskarg) (rec : record) (w w1 : W) (t : Z) :
  arg_record arg = Some rec →
  date_now c w = (t, w1) →
  ∃ v',
    (exec c (taskDoneWriteTask arg) w).2 =
      [CallPut (bucket rec) (key rec) v' (Some (_etag rec))] ∧
    v' !! "state" = Some (JStr "done") ∧
    v' !! "timeDone" = Some (JStr (iso8601 t)) ∧
    match nout arg with
    | Some n => v' !! "result" = Some (JStr "ok") ∧
                v' !! "nOutputs" = Some (JNum (Z.of_nat n))
    | None => v' !! "result" = Some (JStr "fail") ∧
              v' !! "nOutputs" = value rec !! "nOutputs"
    end ∧
    v' !! "machine" = Some (default (JStr "mrjob_fake_machine") (value rec !! "machine")) ∧
    v' !! "timeAccepted" = Some (default (JStr (iso8601 t)) (value rec !! "timeAccepted")) ∧
    v' !! "timeStarted" = Some (default (JStr (iso8601 t)) (value rec !! "timeStarted")) ∧
    (∀ k, k ∉ ["state"; "timeDone"; "machine"; "timeAccepted"; "timeStarted";
               "result"; "nOutputs"] → v' !! k = value rec !! k).
Proof.
  intros Hrec Hnow.
  exists (task_done_value (iso8601 t) (nout arg) (value rec)). split.
  - unfold taskDoneWriteTask. cbn. rewrite Hnow, Hrec. cbn.
    destruct (putObject c _ _ _ _ w1) as [[e|] w2]; reflexivity.
  - apply task_done_value_fields.
Qed.

(** A task that was dispatched and never accepted or started. *)
Definition bare_task : obj :=
  list_to_map [ ("taskId", JStr "t-1"); ("jobId", JStr "j-1"); ("phaseNum", JNum 0);
                ("state", JStr "dispatched");
                ("timeDispatched", JStr "2013-03-02T00:00:01.000Z") ].

Definition task_store (tsk : obj) : store :=
  {| objects := {[ ("marlin_tasks_v2", "t-1") := (tsk, 3%nat) ]};
     next_etag := 4; clock := 1362182410000; next_uuid := 0 |}.

Definition fetched (tsk : obj) : taskarg :=
  {| arg_api := demo_api; taskid := "t-1"; nout := Some 1%nat;
     ecode := JUndefined; emessage := JUndefined;
     arg_record := Some {| bucket := "marlin_tasks_v2"; key := "t-1";
                           value := tsk; _etag := 3 |} |}.

Lemma taskDoneWriteTask_value_witness :
  ∃ v',
    (exec memory (taskDoneWriteTask (fetched bare_task)) (task_store bare_task)).2 =
      [CallPut "marlin_tasks_v2" "t-1" v' (Some 3%nat)] ∧
    v' !! "state" = Some (JStr "done") ∧
    v' !! "timeDone" = Some (JStr (iso8601 1362182410000)) ∧
    (v' !! "result" = Some (JStr "ok") ∧ v' !! "nOutputs" = Some (JNum 1)) ∧
    v' !! "machine" = Some (default (JStr "mrjob_fake_machine") (bare_task !! "machine")) ∧
    v' !! "timeAccepted" =
      Some (default (JStr (iso8601 1362182410000)) (bare_task !! "timeAccepted")) ∧
    v' !! "timeStarted" =
      Some (default (JStr (iso8601 1362182410000)) (bare_task !! "timeStarted")) ∧
    (∀ k, k ∉ ["state"; "timeDone"; "machine"; "timeAccepted"; "timeStarted";
               "result"; "nOutputs"] → v' !! k = bare_task !! k).
Proof.
  apply (taskDoneWriteTask_value memory (fetched bare_task)
           {| bucket := "marlin_tasks_v2"; key := "t-1"; value := bare_task; _etag := 3 |}
           (task_store bare_task) (store_now (task_store bare_task)).2 1362182410000);
    reflexivity.
Defined.

(** C7, as the claim has it, fails on [machine]: a task that never had a
    machine is written back with the machine [mrjob_fake_machine], not with
    the current time. *)
Lemma machine_filled_with_fake_name :
  ∃ v',
    (exec memory (taskDoneWriteTask (fetched bare_task)) (task_store bare_task)).2 =
      [CallPut "marlin_tasks_v2" "t-1" v' (Some 3%nat)] ∧
    hasOwnProperty bare_task "machine" = false ∧
    v' !! "machine" = Some (JStr "mrjob_fake_machine") ∧
    v' !! "machine" ≠ Some (JStr (iso8601 1362182410000)).
Proof.
  eexists. split; [reflexivity|]. split; [reflexivity|].
  split; [reflexivity | vm_compute; discriminate].
Qed.

(** The middle stage hands on the [arg] it was given. *)
Lemma write_outputs_ok {W : Type} (c : client W) (bkt now : string) (tsk : obj) (n : nat)
    (arg arg2 : taskarg) (w w2 : W) (calls : list call) :
  exec c (write_outputs bkt now tsk n arg) w = (Ok arg2, w2, calls) → arg2 = arg.
Proof.
  revert w w2 calls. induction n as [|n IH]; intros w w2 calls; cbn.
  - intros [= <- _ _]. reflexivity.
  - destruct (uuid_v4 c w) as [u w1].
    destruct (putObject c bkt u _ None w1) as [[e|] w3]; cbn.
    + discriminate.
    + destruct (exec c (write_outputs bkt now tsk n arg) w3) as [[r w4] c4] eqn:E.
      intros [= -> _ _]. eapply IH, E.
Qed.

Lemma taskDoneWriteOthers_ok {W : Type} (c : client W) (arg arg2 : taskarg) (w w2 : W)
    (calls : list call) :
  exec c (taskDoneWriteOthers arg) w = (Ok arg2, w2, calls) → arg2 = arg.
Proof.
  unfold taskDoneWriteOthers. destruct (arg_record arg) as [rec|]; [|discriminate].
  destruct (nout arg) as [[|n]|]; cbn [exec].
  - intros [= <- _ _]. reflexivity.
  - destruct (date_now c w) as [t w1]. apply write_outputs_ok.
  - destruct (uuid_v4 c w) as [u w1].
    destruct (putObject c _ u _ None w1) as [[e|] w3]; cbn [exec]; [discriminate|].
    intros [= <- _ _]. reflexivity.
Qed.

(** The first and the last stage on the store. *)
Lemma exec_taskDoneFetch (arg : taskarg) (s : store) :
  exec memory (taskDoneFetch arg) s =
    let bkt := task (ma_buckets (arg_api arg)) in
    match objects s !! (bkt, taskid arg) with
    | Some (v, e) =>
        (if loose_eq_text (getprop v "state") "done"
         then Fail (VError "task is already done" None)
         else Ok (with_record {| bucket := bkt; key := taskid arg; value := v; _etag := e |}
                    arg),
         s, [CallGet bkt (taskid arg)])
    | None => (Fail (VError "ObjectNotFoundError" None), s, [CallGet bkt (taskid arg)])
    end.
Proof.
  unfold taskDoneFetch. cbn [exec memory getObject]. unfold store_get.
  destruct (objects s !! _) as [[v e]|]; cbn [exec value]; [|reflexivity].
  destruct (loose_eq_text _ _); reflexivity.
Qed.

Lemma exec_taskDoneWriteTask (arg : taskarg) (rec : record) (s : store) :
  arg_record arg = Some rec →
  exec memory (taskDoneWriteTask arg) s =
    let v' := task_done_value (iso8601 (clock s)) (nout arg) (value rec) in
    let '(e, s') := store_put (bucket rec) (key rec) v' (Some (_etag rec)) (store_now s).2 in
    (match e with
     | Some e => Fail e
     | None => Ok arg
     end, s', [CallPut (bucket rec) (key rec) v' (Some (_etag rec))]).
Proof.
  intros Hrec. unfold taskDoneWriteTask. cbn [exec memory date_now putObject store_now].
  rewrite Hrec. cbn [exec memory putObject snd].
  destruct (store_put _ _ _ _ _) as [[e|] s']; reflexivity.
Qed.

(** When [taskDone] succeeds on the store, the task is stored as [done]. *)
Lemma taskDone_ok_stored_done (a : api) (tid : string) (n : option nat) (ec em : jsval)
    (s s1 : store) (arg1 : taskarg) (calls : list call) :
  exec memory (taskDone a tid n ec em) s = (Ok arg1, s1, calls) →
  ∃ v e, objects s1 !! (task (ma_buckets a), tid) = Some (v, e) ∧
         v !! "state" = Some (JStr "done").
Proof.
  unfold taskDone. rewrite exec_pipeline, exec_taskDoneFetch. cbn [arg_api taskid].
  destruct (objects s !! (task (ma_buckets a), tid)) as [[v0 e0]|]; [|discriminate].
  destruct (loose_eq_text (getprop v0 "state") "done"); [discriminate|].
  rewrite exec_pipeline.
  destruct (exec memory (taskDoneWriteOthers _) s) as [[[arg2 | err] s2] c2] eqn:E2;
    [|discriminate].
  apply taskDoneWriteOthers_ok in E2 as ->.
  rewrite exec_pipeline.
  erewrite exec_taskDoneWriteTask by (cbn [arg_record with_record]; reflexivity).
  cbn [bucket key _etag value with_record nout]. unfold store_put.
  cbn [objects store_now snd].
  destruct (objects s2 !! (task (ma_buckets a), tid)) as [[v2 e2]|]; [|discriminate].
  case_bool_decide; [|discriminate].
  cbn [pipeline exec]. intros [= _ <- _]. cbn [objects store_write].
  rewrite lookup_insert_eq. eexists _, _. split; [reflexivity|].
  apply task_done_value_fields.
Qed.

(** C3.  [taskDone] on a task whose record has the state [done]: the fetch
    is the only call made, the result is the error of the first stage, and
    so nothing is written: no error record, no task output, not the task.
    On the store, after a [taskDone] that succeeded, every further [taskDone]
    for the task is such a call and leaves the store as it is. *)
Theorem taskDone_twice
    {W : Type} (c : client W) (a : api) (tid : string) (n : option nat) (ec em : jsval)
    (w w1 : W) (rec : record) :
  getObject c (task (ma_buckets a)) tid w = (inr rec, w1) →
  value rec !! "state" = Some (JStr "done") →
  exec c (taskDone a tid n ec em) w =
    (Fail (VError "task is already done" None), w1, [CallGet (task (ma_buckets a)) tid]) ∧
  (∀ (s s1 : store) (arg1 : taskarg) (calls : list call)
     (n1 n2 : option nat) (ec1 em1 ec2 em2 : jsval),
      exec memory (taskDone a tid n1 ec1 em1) s = (Ok arg1, s1, calls) →
      exec memory (taskDone a tid n2 ec2 em2) s1 =
        (Fail (VError "task is already done" None), s1,
         [CallGet (task (ma_buckets a)) tid])).
Proof.
  assert (∀ (W' : Type) (c' : client W') (w' w1' : W') (rec' : record)
            (n' : option nat) (ec' em' : jsval),
            getObject c' (task (ma_buckets a)) tid w' = (inr rec', w1') →
            value rec' !! "state" = Some (JStr "done") →
            exec c' (taskDone a tid n' ec' em') w' =
              (Fail (VError "task is already done" None), w1',
               [CallGet (task (ma_buckets a)) tid])) as Hfetch.
  { intros W' c' w' w1' rec' n' ec' em' Hget Hstate.
    unfold taskDone. rewrite exec_pipeline. cbn. rewrite Hget.
    unfold getprop. rewrite Hstate. reflexivity. }
  intros Hget Hstate. split; [apply (Hfetch W c w w1 rec n ec em Hget Hstate)|].
  intros s s1 arg1 calls n1 n2 ec1 em1 ec2 em2 Hfirst.
  destruct (taskDone_ok_stored_done _ _ _ _ _ _ _ _ _ Hfirst) as (v & e & Hs1 & Hdone).
  apply (Hfetch store memory s1 s1
           {| bucket := task (ma_buckets a); key := tid; value := v; _etag := e |}).
  - cbn. unfold store_get. rewrite Hs1. reflexivity.
  - exact Hdone.
Qed.

Definition done_task : obj := <["state" := JStr "done"]> bare_task.

Lemma taskDone_twice_witness :
  exec memory (taskDone demo_api "t-1" None (JStr "EJS") (JStr "failed")) (task_store done_task)
    = (Fail (VError "task is already done" None), task_store done_task,
       [CallGet "marlin_tasks_v2" "t-1"]).
Proof.
  apply (taskDone_twice memory demo_api "t-1" None (JStr "EJS") (JStr "failed")
           (task_store done_task) (task_store done_task)
           {| bucket := "marlin_tasks_v2"; key := "t-1"; value := done_task; _etag := 3 |});
    reflexivity.
Defined.

(** Twice on the store: the first call writes one task output and the task,
    the second only reads. *)
Example taskDone_twice_on_store :
  let '(r1, s1, calls1) :=
    exec memory (taskDone demo_api "t-1" (Some 1%nat) JUndefined JUndefined)
      (task_store bare_task) in
  let '(r2, s2, calls2) :=
    exec memory (taskDone demo_api "t-1" (Some 1%nat) JUndefined JUndefined) s1 in
  (∃ arg1, r1 = Ok arg1) ∧ length (filter (λ c, is_put c = true) calls1) = 2%nat ∧
  r2 = Fail (VError "task is already done" None) ∧ calls2 = [CallGet "marlin_tasks_v2" "t-1"] ∧
  s2 = s1.
Proof. vm_compute. repeat split; eauto. Qed.

(** ** [jobsList] *)

Example bob_drop_is_no_token : is_token "bob; drop" = false.
Proof. reflexivity. Qed.

Example bob123_is_token : is_token "bob123" = true.
Proof. reflexivity. Qed.

(** The end of input is the end of the token: no newline after it. *)
Example token_newline : is_token (String.append "bob" (String (ascii_of_nat 10) EmptyString)) = false.
Proof. reflexivity. Qed.

Lemma jobsList_filters_owner_invalid (sJobStates : list string) (now : Z)
    (o : list_options) (s : string) :
  is_token s = false →
  jobsList_filters sJobStates now (with_owner (Some s) o) =
  jobsList_filters sJobStates now (with_owner None o).
Proof.
  intros Hs. unfold jobsList_filters, push_token.
  cbn [with_owner o_state o_name o_owner o_jobId o_worker o_cancelled o_archived
       o_archiveStartedBefore o_archivedBefore o_wrasse o_doneSince o_mtime o_not_mtime
       token_given].
  rewrite Hs. reflexivity.
Qed.

(** What C8 says of an owner that is not a token and of one that is. *)
Definition owner_filter_spec (a : api) (sJobStates : list string) (now : Z)
    (o : list_options) (bad good : string) : Prop :=
  (* the owner that is no token: the same query as with no owner given *)
  jobsList a sJobStates now (with_owner (Some bad) o) =
    jobsList a sJobStates now (with_owner None o) ∧
  (* and on its own, the query for all jobs *)
  find_filter (jobsList a sJobStates now (with_owner (Some bad) list_all)) = "(jobId=*)" ∧
  (* the owner that is a token: the filter is the equality on [owner], and
     every record the store finds has that owner, a token *)
  find_filter (jobsList a sJobStates now (with_owner (Some good) list_all)) =
    render (FAnd [FEq "owner" good]) ∧
  (∀ (value_le value_ge : jsval → string → bool) (records : list obj) (j : obj),
      j ∈ findObjects value_le value_ge (FAnd [FEq "owner" good]) records →
      j ∈ records ∧ to_string (getprop j "owner") = good ∧
      is_token (to_string (getprop j "owner")) = true).

(** C8.  An owner that does not match [^[\d\w-]+$] adds nothing to the
    filter and raises no error: the query is the one without an owner, and
    for [{owner: ...}] alone the one for all jobs.  An owner that matches
    makes the filter [(&(owner=...))], and the records found for it have this
    owner, which matches the pattern. *)
Theorem jobsList_owner_filter
    (a : api) (sJobStates : list string) (now : Z) (o : list_options) (bad good : string) :
  is_token bad = false →
  is_token good = true →
  owner_filter_spec a sJobStates now o bad good.
Proof.
  intros Hbad Hgood. unfold owner_filter_spec. split; [|split; [|split]].
  - unfold jobsList, jobsList_filter.
    rewrite (jobsList_filters_owner_invalid _ _ _ _ Hbad). reflexivity.
  - unfold jobsList, jobsList_filter. cbn [find_filter].
    rewrite (jobsList_filters_owner_invalid _ _ _ _ Hbad). reflexivity.
  - unfold jobsList, jobsList_filter, jobsList_filters, push_token.
    cbn [find_filter with_owner list_all o_state o_name o_owner o_jobId o_worker
         o_cancelled o_archived o_archiveStartedBefore o_archivedBefore o_wrasse
         o_doneSince o_mtime o_not_mtime o_marker token_given given push_if].
    rewrite Hgood. reflexivity.
  - intros value_le value_ge records j Hj. unfold findObjects in Hj.
    apply list_elem_of_filter in Hj as [Hm Hin]. split; [exact Hin|].
    cbn in Hm. rewrite andb_true_r in Hm. unfold getprop.
    destruct (j !! "owner") as [x|]; [|discriminate].
    assert (to_string x = good) as Hx.
    { destruct x; try discriminate; apply bool_decide_eq_true in Hm; exact Hm. }
    change (to_string x = good ∧ is_token (to_string x) = true).
    rewrite Hx. auto.
Qed.

Lemma jobsList_owner_filter_witness :
  owner_filter_spec demo_api ["queued"; "running"; "done"] 1362182410000
    list_all "bob; drop" "bob123".
Proof.
  apply (jobsList_owner_filter demo_api ["queued"; "running"; "done"] 1362182410000
           list_all "bob; drop" "bob123"); reflexivity.
Defined.

(** The filter texts of the two queries. *)
Example jobsList_bob_drop :
  find_filter (jobsList demo_api ["queued"; "running"; "done"] 1362182410000
                 (with_owner (Some "bob; drop") list_all)) = "(jobId=*)".
Proof. reflexivity. Qed.

Example jobsList_bob123 :
  find_filter (jobsList demo_api ["queued"; "running"; "done"] 1362182410000
                 (with_owner (Some "bob123") list_all)) = "(&(owner=bob123))".
Proof. reflexivity. Qed.

(** ** [jobDelete] *)

(** The loop over [meta.etags]: a request stays when no entry with a count
    under the limit names its bucket, and [internals_done] stays true when
    every count is under the limit. *)
Lemma entry_fold (lim : Z) (etags : list metaent) (acc : list batchreq * bool) :
  (∀ r, r ∈ (fold_left (jobDelete_entry lim) etags acc).1 ↔
        r ∈ acc.1 ∧ ∀ m, m ∈ etags → m_count m < lim → req_bucket r ≠ m_bucket m) ∧
  (fold_left (jobDelete_entry lim) etags acc).2 =
    acc.2 && forallb (λ m, m_count m <? lim) etags.
Proof.
  revert acc. induction etags as [|m etags IH]; intros acc; cbn [fold_left forallb].
  - split; [|rewrite andb_true_r; reflexivity].
    intros r. split; [intros H; split; [exact H | intros m Hm; inversion Hm] | intros [H _]; exact H].
  - destruct (IH (jobDelete_entry lim acc m)) as [IHr IHd]. split.
    + intros r. rewrite IHr. unfold jobDelete_entry.
      destruct (m_count m <? lim) eqn:Hlt; cbn [fst].
      * apply Z.ltb_lt in Hlt. rewrite list_elem_of_filter. split.
        -- intros [[Hne Hin] Hrest]. split; [exact Hin|].
           intros m' Hm'. apply elem_of_cons in Hm' as [-> | Hm']; [intros _; exact Hne | auto].
        -- intros [Hin Hall]. split; [split; [|exact Hin] | intros m' Hm'; apply Hall; right; exact Hm'].
           apply Hall; [left | exact Hlt].
      * apply Z.ltb_ge in Hlt. split.
        -- intros [Hin Hrest]. split; [exact Hin|].
           intros m' Hm'. apply elem_of_cons in Hm' as [-> | Hm']; [lia | auto].
        -- intros [Hin Hall]. split; [exact Hin | intros m' Hm'; apply Hall; right; exact Hm'].
    + rewrite IHd. unfold jobDelete_entry.
      destruct (m_count m <? lim); cbn [snd andb]; [reflexivity|].
      rewrite andb_false_r. reflexivity.
Qed.

Lemma NoDup_fmap_eq {A B : Type} (f : A → B) (l : list A) (x y : A) :
  NoDup (map f l) → x ∈ l → y ∈ l → f x = f y → x = y.
Proof.
  induction l as [|z l IH]; cbn; intros Hnd Hx Hy Hf; [inversion Hx|].
  apply NoDup_cons in Hnd as [Hz Hnd].
  apply elem_of_cons in Hx as [-> | Hx]; apply elem_of_cons in Hy as [-> | Hy].
  - reflexivity.
  - exfalso. apply Hz. rewrite Hf. apply (list_elem_of_fmap_2 f), Hy.
  - exfalso. apply Hz. rewrite <- Hf. apply (list_elem_of_fmap_2 f), Hx.
  - auto.
Qed.

(** Replies one after the other. *)
Lemma jobDelete_run_app (a : api) (jobId : string) (lim tmo : Z) (pre post : list jd_reply)
    (w : waiting) (st : jobDelete_state) :
  jobDelete_run a jobId lim tmo w st (pre ++ post) =
    let '(w1, st1, a1) := jobDelete_run a jobId lim tmo w st pre in
    let '(w2, st2, a2) := jobDelete_run a jobId lim tmo w1 st1 post in
    (w2, st2, a1 ++ a2).
Proof.
  revert w st. induction pre as [|r pre IH]; intros w st; cbn [app jobDelete_run].
  - destruct (jobDelete_run a jobId lim tmo w st post) as [[w2 st2] a2]. reflexivity.
  - destruct w, r; try apply IH.
    + destruct (jobDelete_cb a jobId lim tmo r st) as [st1 acts]. rewrite IH.
      destruct (jobDelete_run a jobId lim tmo (waiting_after acts) st1 pre) as [[w1 st1'] a1].
      destruct (jobDelete_run a jobId lim tmo w1 st1' post) as [[w2 st2] a2].
      rewrite app_assoc. reflexivity.
    + destruct (jobDelete_deleted e st) as [st1 acts]. rewrite IH.
      destruct (jobDelete_run a jobId lim tmo Finished st1 pre) as [[w1 st1'] a1].
      destruct (jobDelete_run a jobId lim tmo w1 st1' post) as [[w2 st2] a2].
      rewrite app_assoc. reflexivity.
Qed.

(** Once the callback was called nothing more is done. *)
Lemma jobDelete_run_finished (a : api) (jobId : string) (lim tmo : Z)
    (replies : list jd_reply) (st : jobDelete_state) :
  jobDelete_run a jobId lim tmo Finished st replies = (Finished, st, []).
Proof. induction replies as [|r replies IH]; [reflexivity | destruct r; exact IH]. Qed.

Definition is_batch (x : jd_action) : Prop := ∃ reqs tmo, x = ClientBatch reqs tmo.

(** While a batch call is outstanding the callback was not called, and all
    that was done so far are batch calls. *)
Lemma jobDelete_run_waiting (a : api) (jobId : string) (lim tmo : Z)
    (replies : list jd_reply) (w w' : waiting) (st st' : jobDelete_state)
    (acts : list jd_action) :
  w = Finished ∨ callback_invoked st = false →
  jobDelete_run a jobId lim tmo w st replies = (w', st', acts) →
  (w' = Finished ∨ callback_invoked st' = false) ∧
  (w' = WaitBatch → w = WaitBatch ∧ Forall is_batch acts).
Proof.
  revert w st acts. induction replies as [|r replies IH]; intros w st acts Hinv; cbn [jobDelete_run].
  - intros [= <- <- <-]. split; [exact Hinv | intros ->; split; [reflexivity | constructor]].
  - destruct w, r; try (intros H; apply (IH _ _ _ Hinv) in H as [H1 H2]; split; [exact H1|];
                        intros Hw; destruct (H2 Hw) as [? ?]; split; congruence || assumption).
    + destruct Hinv as [? | Hinv]; [discriminate|].
      unfold jobDelete_cb. rewrite Hinv.
      destruct r as [e | etags].
      * cbn [waiting_after]. rewrite jobDelete_run_finished. intros [= <- <- <-].
        split; [left; reflexivity | discriminate].
      * destruct (fold_left _ etags _) as [reqs d]. destruct d; cbn [negb waiting_after].
        -- destruct (jobDelete_run _ _ _ _ WaitDelete _ replies) as [[w2 st2] a2] eqn:E.
           intros [= <- <- <-]. apply IH in E as [E1 E2]; [|right; reflexivity].
           split; [exact E1 | intros Hw; destruct (E2 Hw); discriminate].
        -- destruct (jobDelete_run _ _ _ _ WaitBatch _ replies) as [[w2 st2] a2] eqn:E.
           intros [= <- <- <-]. apply IH in E as [E1 E2]; [|right; reflexivity].
           split; [exact E1|]. intros Hw. destruct (E2 Hw) as [_ Hall].
           split; [reflexivity|]. constructor; [eexists _, _; reflexivity | exact Hall].
    + destruct Hinv as [? | Hinv]; [discriminate|].
      unfold jobDelete_deleted. rewrite Hinv. rewrite jobDelete_run_finished.
      intros [= <- <- <-]. split; [left; reflexivity | discriminate].
Qed.

Lemma jobDelete_app (a : api) (jobId : string) (o : options) (pre post : list jd_reply)
    (w : waiting) (st : jobDelete_state) (acts : list jd_action) :
  jobDelete a jobId o pre = (w, st, acts) →
  jobDelete a jobId o (pre ++ post) =
    let '(w2, st2, a2) :=
      jobDelete_run a jobId (jobDelete_limit o) (jobDelete_timeout o) w st post in
    (w2, st2, acts ++ a2).
Proof.
  unfold jobDelete. rewrite jobDelete_run_app.
  destruct (jobDelete_run _ _ _ _ WaitBatch _ pre) as [[w1 st1] a1].
  intros [= -> -> <-].
  destruct (jobDelete_run _ _ _ _ w st post) as [[w2 st2] a2]. reflexivity.
Qed.

Lemma jobDelete_waiting (a : api) (jobId : string) (o : options) (pre : list jd_reply)
    (st : jobDelete_state) (acts : list jd_action) :
  jobDelete a jobId o pre = (WaitBatch, st, acts) →
  callback_invoked st = false ∧ Forall is_batch acts.
Proof.
  unfold jobDelete.
  destruct (jobDelete_run _ _ _ _ WaitBatch _ pre) as [[w1 st1] a1] eqn:E.
  intros [= -> -> <-].
  apply jobDelete_run_waiting in E as [[? | Hinv] Hall]; [discriminate | | right; reflexivity].
  split; [exact Hinv|]. constructor; [eexists _, _; reflexivity | apply Hall; reflexivity].
Qed.

(** What C2 says of the round that follows the replies [pre]: the store
    answers the outstanding batch call with the counts [etags]. *)
Definition cascade_round (a : api) (jobId : string) (o : options) (pre : list jd_reply)
    (st : jobDelete_state) (acts : list jd_action) (etags : list metaent) : Prop :=
  let lim := jobDelete_limit o in
  let tmo := jobDelete_timeout o in
  let st' := (jobDelete_cb a jobId lim tmo (inr etags) st).1 in
  (* so far batch calls only: the job record was not deleted *)
  Forall is_batch acts ∧
  (* a bucket stays when its count is the limit, goes when it is less *)
  (∀ r m, r ∈ requests st → m ∈ etags → m_bucket m = req_bucket r →
     (m_count m = lim → r ∈ requests st') ∧
     (m_count m < lim → r ∉ requests st') ∧
     (m_count m ≤ lim → (r ∈ requests st' ↔ m_count m = lim))) ∧
  (∀ r, r ∈ requests st' → r ∈ requests st) ∧
  (* the job record is deleted when no bucket is left, and only then *)
  (if forallb (λ m, m_count m <? lim) etags
   then requests st' = [] ∧
        jobDelete a jobId o (pre ++ [BatchReply (inr etags)]) =
          (WaitDelete, st', acts ++ [ClientDeleteObject (job (ma_buckets a)) jobId])
   else requests st' ≠ [] ∧
        jobDelete a jobId o (pre ++ [BatchReply (inr etags)]) =
          (WaitBatch, st', acts ++ [ClientBatch (requests st') tmo])) ∧
  (* an error of the batch call: the callback gets it, nothing follows *)
  (∀ e more, ∃ st2,
     jobDelete a jobId o (pre ++ BatchReply (inl e) :: more) =
       (Finished, st2, acts ++ [Callback (Some (VError "failed to delete job" (Some e)))])) ∧
  (* an error of the delete of the job record: the same *)
  (∀ e more, forallb (λ m, m_count m <? lim) etags = true → ∃ st2,
     jobDelete a jobId o (pre ++ BatchReply (inr etags) :: DeleteReply (Some e) :: more) =
       (Finished, st2,
        acts ++ [ClientDeleteObject (job (ma_buckets a)) jobId;
                 Callback (Some (VError "failed to delete job" (Some e)))])).

(** C2.  In [jobDelete], when the store answers a batch call with one count
    for each bucket asked: a bucket whose count is the limit is in the next
    batch call and one whose count is less is in no later call; the job
    record is deleted when every count is under the limit, and then no bucket
    is left, and not before; an error of a batch call, or of the delete of
    the job record, goes to the callback and no call follows it. *)
Theorem jobDelete_cascade
    (a : api) (jobId : string) (o : options) (pre : list jd_reply)
    (st : jobDelete_state) (acts : list jd_action) (etags : list metaent) :
  jobDelete a jobId o pre = (WaitBatch, st, acts) →
  map m_bucket etags = map req_bucket (requests st) →
  NoDup (map m_bucket etags) →
  cascade_round a jobId o pre st acts etags.
Proof.
  intros Hpre Hans Hnd.
  destruct (jobDelete_waiting _ _ _ _ _ _ Hpre) as [Hinv Hacts].
  unfold cascade_round. cbn zeta.
  set (lim := jobDelete_limit o). set (tmo := jobDelete_timeout o).
  destruct (entry_fold lim etags (requests st, true)) as [Hmem Hdone]. cbn [fst snd andb] in *.
  assert (∀ r, r ∈ requests (jobDelete_cb a jobId lim tmo (inr etags) st).1 ↔
               r ∈ requests st ∧ ∀ m, m ∈ etags → m_count m < lim → req_bucket r ≠ m_bucket m)
    as Hst'.
  { intros r. rewrite <- Hmem. unfold jobDelete_cb. rewrite Hinv.
    destruct (fold_left _ etags _) as [reqs d]. destruct d; reflexivity. }
  assert (∀ r m, r ∈ requests st → m ∈ etags → m_bucket m = req_bucket r → lim ≤ m_count m →
                 r ∈ requests (jobDelete_cb a jobId lim tmo (inr etags) st).1) as Hstay.
  { intros r m Hr Hm Hb Hc. apply Hst'. split; [exact Hr|].
    intros m' Hm' Hlt Heq.
    assert (m' = m) as -> by (apply (NoDup_fmap_eq m_bucket etags); congruence).
    lia. }
  assert (∀ r m, r ∈ requests st → m ∈ etags → m_bucket m = req_bucket r → m_count m < lim →
                 r ∉ requests (jobDelete_cb a jobId lim tmo (inr etags) st).1) as Hgo.
  { intros r m Hr Hm Hb Hc Hin. apply Hst' in Hin as [_ Hall].
    apply (Hall m Hm Hc). symmetry. exact Hb. }
  split; [exact Hacts|]. split; [|split; [|split; [|split]]].
  - intros r m Hr Hm Hb. split; [intros Hc; apply (Hstay r m); auto; lia|].
    split; [apply Hgo; assumption|].
    intros Hle. split; [|intros Hc; apply (Hstay r m); auto; lia].
    intros Hin. destruct (Z.eq_dec (m_count m) lim) as [Heq | Hne]; [exact Heq|].
    exfalso. apply (Hgo r m Hr Hm Hb); [lia | exact Hin].
  - intros r Hr. apply Hst' in Hr as [Hr _]. exact Hr.
  - rewrite (jobDelete_app _ _ _ _ _ _ _ _ Hpre). cbn [jobDelete_run].
    fold lim tmo. revert Hst'. unfold jobDelete_cb. rewrite Hinv.
    destruct (fold_left _ etags _) as [reqs d]. cbn [snd] in Hdone. subst d.
    destruct (forallb _ etags) eqn:Hall; cbn [negb fst requests waiting_after jobDelete_run];
      intros Hst'.
    + split; [|reflexivity].
      destruct reqs as [|r reqs]; [reflexivity|]. exfalso.
      destruct (Hst' r) as [[Hr Hno] _]; [left|].
      assert (req_bucket r ∈ map m_bucket etags) as Hb
        by (rewrite Hans; apply (list_elem_of_fmap_2 req_bucket), Hr).
      apply list_elem_of_fmap in Hb as (m & Hb & Hm).
      apply (Hno m Hm); [|exact Hb].
      rewrite forallb_forall in Hall. apply Z.ltb_lt, Hall, list_elem_of_In, Hm.
    + split; [|reflexivity]. intros ->.
      assert (∃ m, m ∈ etags ∧ lim ≤ m_count m) as (m & Hm & Hc).
      { clear -Hall. induction etags as [|m etags IH]; [discriminate|].
        cbn in Hall. apply andb_false_iff in Hall as [Hlt | Hrest].
        - exists m. split; [left | apply Z.ltb_ge, Hlt].
        - destruct (IH Hrest) as (m' & Hm' & Hc'). exists m'. split; [right|]; assumption. }
      assert (m_bucket m ∈ map req_bucket (requests st)) as Hb
        by (rewrite <- Hans; apply (list_elem_of_fmap_2 m_bucket), Hm).
      apply list_elem_of_fmap in Hb as (r & Hb & Hr).
      assert (r ∈ []) as Hnil; [|inversion Hnil].
      apply Hst'. split; [exact Hr|]. intros m' Hm' Hlt Heq.
      assert (m' = m) as -> by (apply (NoDup_fmap_eq m_bucket etags); congruence).
      lia.
  - intros e more. rewrite (jobDelete_app _ _ _ _ _ _ _ _ Hpre). cbn [jobDelete_run].
    unfold jobDelete_cb. rewrite Hinv. cbn [waiting_after].
    rewrite jobDelete_run_finished. eexists. reflexivity.
  - intros e more Hall. rewrite (jobDelete_app _ _ _ _ _ _ _ _ Hpre). cbn [jobDelete_run].
    fold lim tmo. unfold jobDelete_cb. rewrite Hinv.
    destruct (fold_left _ etags _) as [reqs d]. cbn [snd] in Hdone. subst d. rewrite Hall.
    cbn [negb waiting_after jobDelete_run]. unfold jobDelete_deleted. cbn [callback_invoked].
    rewrite jobDelete_run_finished. eexists. reflexivity.
Qed.

(** The first round of a delete with the default limit: two buckets deleted
    a full page, three less. *)
Definition first_counts : list metaent :=
  [ {| m_bucket := "marlin_jobinputs_v2"; m_count := 500 |};
    {| m_bucket := "marlin_errors_v2"; m_count := 3 |};
    {| m_bucket := "marlin_tasks_v2"; m_count := 500 |};
    {| m_bucket := "marlin_taskinputs_v2"; m_count := 0 |};
    {| m_bucket := "marlin_taskoutputs_v2"; m_count := 12 |} ].

Lemma jobDelete_cascade_witness :
  cascade_round demo_api "j-1" no_options []
    {| requests := jobDelete_requests demo_api "j-1" 500; callback_invoked := false |}
    [ClientBatch (jobDelete_requests demo_api "j-1" 500) 300000]
    first_counts.
Proof.
  apply (jobDelete_cascade demo_api "j-1" no_options []
           {| requests := jobDelete_requests demo_api "j-1" 500; callback_invoked := false |}
           [ClientBatch (jobDelete_requests demo_api "j-1" 500) 300000] first_counts).
  - reflexivity.
  - reflexivity.
  - apply (bool_decide_unpack _). vm_compute. exact I.
Defined.

(** A whole delete: two rounds, then the job record. *)
Example jobDelete_two_rounds :
  (jobDelete demo_api "j-1" no_options
     [ BatchReply (inr first_counts);
       BatchReply (inr [ {| m_bucket := "marlin_jobinputs_v2"; m_count := 20 |};
                         {| m_bucket := "marlin_tasks_v2"; m_count := 499 |} ]);
       DeleteReply None ]).2 =
  [ ClientBatch (jobDelete_requests demo_api "j-1" 500) 300000;
    ClientBatch [ deleteMany "marlin_jobinputs_v2" "j-1" 500;
                  deleteMany "marlin_tasks_v2" "j-1" 500 ] 300000;
    ClientDeleteObject "marlin_jobs_v2" "j-1";
    Callback None ].
Proof. vm_compute. reflexivity. Qed.

(** ** [jobCreate], [jobFetch], [jobAddKey] *)

Ltac lookup_fields :=
  cbn [list_to_map foldr fst snd uncurry];
  repeat first [ rewrite lookup_insert_eq
               | rewrite lookup_insert_ne by discriminate
               | rewrite lookup_empty ].

(** The record of a new job has the fields [jobCreate] lists and no other:
    the state is [queued] and no time but that of the creation is set,
    whatever else [conf] carries. *)
Lemma jobCreate_value_fields (conf : obj) (key : jsval) (now : Z) :
  let v := jobCreate_value conf key now in
  v !! "jobId" = Some key ∧
  v !! "state" = Some (JStr "queued") ∧
  v !! "timeCreated" = Some (JStr (iso8601 now)) ∧
  v !! "input" = (if truthy (getprop conf "input") then Some (getprop conf "input")
                  else None) ∧
  (∀ k, k ∉ ["jobId"; "name"; "auth"; "authToken"; "owner"; "phases"; "state";
             "timeCreated"; "options"; "input"] → v !! k = None).
Proof.
  cbn zeta. unfold jobCreate_value.
  destruct (truthy (getprop conf "input")); lookup_fields; repeat split; try reflexivity.
  - intros k Hk.
    assert (k ≠ "jobId" ∧ k ≠ "name" ∧ k ≠ "auth" ∧ k ≠ "authToken" ∧ k ≠ "owner" ∧
            k ≠ "phases" ∧ k ≠ "state" ∧ k ≠ "timeCreated" ∧ k ≠ "options" ∧
            k ≠ "input") as (?&?&?&?&?&?&?&?&?&?).
    { repeat split; intros ->; apply Hk; set_solver. }
    repeat (rewrite lookup_insert_ne by (symmetry; assumption)). apply lookup_empty.
  - intros k Hk.
    assert (k ≠ "jobId" ∧ k ≠ "name" ∧ k ≠ "auth" ∧ k ≠ "authToken" ∧ k ≠ "owner" ∧
            k ≠ "phases" ∧ k ≠ "state" ∧ k ≠ "timeCreated" ∧ k ≠ "options" ∧
            k ≠ "input") as (?&?&?&?&?&?&?&?&?&?).
    { repeat split; intros ->; apply Hk; set_solver. }
    repeat (rewrite lookup_insert_ne by (symmetry; assumption)). apply lookup_empty.
Qed.

(** The key [jobCreate] stores the job under: [conf.jobId], or the uuid the
    store in memory hands out next. *)
Definition jobCreate_key (conf : obj) (s : store) : jsval :=
  if truthy (getprop conf "jobId") then getprop conf "jobId"
  else JStr (store_uuid s).1.

Lemma exec_jobCreate (a : api) (conf : obj) (s : store) :
  jobCreate_checks conf = None →
  let key := jobCreate_key conf s in
  let v := jobCreate_value conf key (clock s) in
  ∃ p s',
    jobCreate a conf = inr p ∧
    exec memory p s = (Ok key, s', [CallPut (job (ma_buckets a)) (to_string key) v None]) ∧
    objects s' = <[(job (ma_buckets a), to_string key) := (v, next_etag s)]> (objects s) ∧
    next_etag s' = S (next_etag s).
Proof.
  intros Hc. cbn zeta. unfold jobCreate, jobCreate_key. rewrite Hc.
  destruct (truthy (getprop conf "jobId")); eexists _, _; (split; [reflexivity|]);
    cbn; repeat split; reflexivity.
Qed.

Definition created (a : api) (conf : obj) (s : store) : Prop :=
  let key := jobCreate_key conf s in
  let id := to_string key in
  let bkt := job (ma_buckets a) in
  let v := jobCreate_value conf key (clock s) in
  ∃ p s',
    jobCreate a conf = inr p ∧
    exec memory p s = (Ok key, s', [CallPut bkt id v None]) ∧
    exec memory (jobFetch a id) s' =
      (Ok {| bucket := bkt; key := id; value := v; _etag := next_etag s |}, s',
       [CallGet bkt id]) ∧
    getprop v "jobId" = key ∧
    getprop v "state" = JStr "queued" ∧
    getprop v "timeCreated" = JStr (iso8601 (clock s)) ∧
    getprop v "timeCancelled" = JUndefined ∧
    getprop v "timeInputDone" = JUndefined ∧
    (∀ k, k ≠ (bkt, id) → objects s' !! k = objects s !! k).

(** X8.  A job that [jobCreate] accepts is stored by one put without a
    token, under [conf.jobId] or a new uuid, and that key is what the
    callback gets; [jobFetch] with the key then yields the record: its state
    is [queued], its [timeCreated] the time of the call, and it is neither
    cancelled nor has its input ended, whatever record the store held under
    the key before and whatever [conf] says of these fields.  No other
    record of the store changes. *)
Theorem jobCreate_then_jobFetch (a : api) (conf : obj) (s : store) :
  jobCreate_checks conf = None → created a conf s.
Proof.
  intros Hc. destruct (exec_jobCreate a conf s Hc) as (p & s' & Hp & Hexec & Hobj & _).
  pose proof (jobCreate_value_fields conf (jobCreate_key conf s) (clock s))
    as (Hid & Hstate & Htime & _ & Hrest).
  exists p, s'. split; [exact Hp|]. split; [exact Hexec|].
  split.
  { unfold jobFetch. cbn [exec memory getObject]. unfold store_get.
    rewrite Hobj, lookup_insert_eq. reflexivity. }
  unfold getprop. rewrite Hid, Hstate, Htime.
  rewrite !Hrest by (apply (bool_decide_unpack _); vm_compute; exact I).
  repeat split; try reflexivity.
  intros k Hk. rewrite Hobj. apply lookup_insert_ne. congruence.
Qed.

Definition word_count : obj :=
  list_to_map
    [ ("phases", JArr [JObj [("type", JStr "map"); ("exec", JStr "wc")]]);
      ("authToken", JStr "token"); ("owner", JStr "bob123");
      ("auth", JObj [("login", JStr "bob"); ("groups", JArr [])]);
      ("state", JStr "done"); ("timeCancelled", JStr "2013-03-02T00:00:05.000Z") ].

Lemma jobCreate_then_jobFetch_witness : created demo_api word_count (demo_store demo_job).
Proof. apply (jobCreate_then_jobFetch demo_api word_count (demo_store demo_job)). reflexivity. Defined.

(** With the job id given, the record that was stored under it is replaced. *)
Example jobCreate_overwrites :
  let conf := <["jobId" := JStr "j-1"]> word_count in
  ∃ p s', jobCreate demo_api conf = inr p ∧
          (exec memory p (demo_store demo_job)).1 = (Ok (JStr "j-1"), s') ∧
          (λ x, getprop x.1 "state") <$> (objects s' !! ("marlin_jobs_v2", "j-1")) =
            Some (JStr "queued").
Proof.
  destruct (exec_jobCreate demo_api (<["jobId" := JStr "j-1"]> word_count)
              (demo_store demo_job)) as (p & s' & Hp & Hexec & Hobj & _); [reflexivity|].
  exists p, s'. split; [exact Hp|]. rewrite Hexec. split; [reflexivity|].
  rewrite Hobj. reflexivity.
Qed.

(** What the groups of [conf.auth] must be for a job with options. *)
Definition operator (conf : obj) : Prop :=
  ∃ au, getprop conf "auth" = JObj au ∧
        indexOf_found (assoc au "groups") "operators" = Some true.

(** X9.  Options are for operators only.  When [conf.options] is an object
    with a property, [jobCreate] goes on to the store only if
    [conf.auth.groups] has [operators] in it; when the groups are an array
    without it, the assertion fails and no call is made at all. *)
Theorem jobCreate_options_privileged (a : api) (conf : obj) :
  truthy (getprop conf "options") = true →
  isEmpty (getprop conf "options") = false →
  (∀ p, jobCreate a conf = inr p → operator conf) ∧
  (∀ au l, getprop conf "auth" = JObj au → assoc au "groups" = JArr l →
           JStr "operators" ∉ l → jobCreate a conf = inl AssertionError).
Proof.
  intros Ht He. unfold jobCreate, jobCreate_checks, operator. rewrite Ht, He.
  split.
  - intros p.
    destruct (isArray _); cbn [negb]; [|discriminate].
    repeat (case_bool_decide; cbn [negb]; [|discriminate]).
    destruct (getprop conf "auth") as [| | | | | |au]; try discriminate.
    destruct (indexOf_found _ _) as [[|]|] eqn:E; try discriminate.
    intros _. exists au. split; [reflexivity | exact E].
  - intros au l Hau Hg Hnot. rewrite Hau, Hg. cbn [indexOf_found].
    assert (existsb (λ y, match y with JStr t => bool_decide (t = "operators")
                                     | _ => false end) l = false) as ->.
    { apply not_true_is_false. intros H. apply existsb_exists in H as (y & Hy & Hop).
      destruct y; try discriminate. apply bool_decide_eq_true in Hop as ->.
      apply Hnot, list_elem_of_In, Hy. }
    destruct (isArray _); cbn [negb]; [|reflexivity].
    repeat (case_bool_decide; cbn [negb]; [|reflexivity]). reflexivity.
Qed.

Definition with_memory (groups : list jsval) : obj :=
  <["options" := JObj (("memory", JNum 8192) :: nil)]>
    (<["auth" := JObj (("login", JStr "bob") :: ("groups", JArr groups) :: nil)]> word_count).

Lemma jobCreate_options_privileged_witness :
  (∀ p, jobCreate demo_api (with_memory [JStr "operators"]) = inr p →
        operator (with_memory [JStr "operators"])) ∧
  (∀ au l, getprop (with_memory [JStr "users"]) "auth" = JObj au →
           assoc au "groups" = JArr l → JStr "operators" ∉ l →
           jobCreate demo_api (with_memory [JStr "users"]) = inl AssertionError).
Proof.
  split.
  - apply (jobCreate_options_privileged demo_api (with_memory [JStr "operators"]));
      reflexivity.
  - apply (jobCreate_options_privileged demo_api (with_memory [JStr "users"]));
      reflexivity.
Defined.

(** What [jobEndInput] does to the job that [jobCreate] has just stored
    from [conf] in [s]. *)
Definition input_ended (a : api) (conf : obj) (o : options) (s : store) : Prop :=
  let key := jobCreate_key conf s in
  let id := to_string key in
  let v := jobCreate_value conf key (clock s) in
  ∃ p s1 r s2 calls,
    jobCreate a conf = inr p ∧
    (exec memory p s).1 = (Ok key, s1) ∧
    exec memory (jobEndInput a id o) s1 = (r, s2, calls) ∧
    if truthy (getprop conf "input")
    then r = Fail (piped_error v) ∧ s2 = s1
    else r = Ok {| bucket := job (ma_buckets a); key := id; value := v;
                   _etag := next_etag s |} ∧
         (λ x, getprop x.1 "timeInputDone") <$> (objects s2 !! (job (ma_buckets a), id)) =
           Some (JStr (iso8601 (clock s + 1))).

(** X10.  [jobCreate] and then [jobEndInput] on the new job: when
    [conf.input] is set the job takes its input from another job and ending
    the input fails with the error of the piped input, the store unchanged;
    otherwise it succeeds with the record as created and [timeInputDone] is
    stored, the time of the second call. *)
Theorem jobCreate_then_jobEndInput (a : api) (conf : obj) (o : options) (s : store) :
  jobCreate_checks conf = None → input_ended a conf o s.
Proof.
  intros Hc. destruct (exec_jobCreate a conf s Hc) as (p & s1 & Hp & Hexec & Hobj & Hetag).
  pose proof (jobCreate_value_fields conf (jobCreate_key conf s) (clock s))
    as (_ & _ & _ & Hin & _).
  assert (objects s1 !! (job (ma_buckets a), to_string (jobCreate_key conf s)) =
            Some (jobCreate_value conf (jobCreate_key conf s) (clock s), next_etag s))
    as Hstored by (rewrite Hobj; apply lookup_insert_eq).
  assert (clock s1 = clock s + 1) as Hclock.
  { revert Hexec. unfold jobCreate in Hp. rewrite Hc in Hp. injection Hp as <-.
    unfold jobCreate_key. destruct (truthy (getprop conf "jobId")); cbn;
      intros [= <-]; reflexivity. }
  unfold input_ended. cbn zeta.
  destruct (truthy (getprop conf "input")) eqn:Hinput.
  - assert (truthy (getprop (jobCreate_value conf (jobCreate_key conf s) (clock s)) "input")
              = true) as Hpiped by (unfold getprop at 1; rewrite Hin; exact Hinput).
    unfold jobEndInput, jobFetchAndUpdate. destruct (retry o) as [n|].
    + destruct (exec_endInput_piped_retry a _ s1 _ _ n Hstored Hpiped) as (calls & Hr & _).
      eexists p, s1, _, s1, calls. rewrite Hexec.
      split; [exact Hp|]. split; [reflexivity|]. split; [exact Hr|]. split; reflexivity.
    + eexists p, s1, _, s1, _. rewrite Hexec.
      split; [exact Hp|]. split; [reflexivity|].
      split; [apply (exec_endInput_piped a _ s1 _ _ Hstored Hpiped)|]. split; reflexivity.
  - assert (truthy (getprop (jobCreate_value conf (jobCreate_key conf s) (clock s)) "input")
              = false) as Hopen by (unfold getprop; rewrite Hin; reflexivity).
    destruct (exec_endInput_open a _ s1 _ _ Hstored Hopen) as (s2 & calls & Hr & Hobj2).
    eexists p, s1, _, s2, calls. rewrite Hexec.
    split; [exact Hp|]. split; [reflexivity|].
    split; [apply exec_jobFetchAndUpdate_ok, Hr|].
    split; [reflexivity|].
    rewrite Hobj2, lookup_insert_eq, Hclock. cbn [fmap option_fmap option_map fst].
    unfold getprop. rewrite lookup_insert_eq. reflexivity.
Qed.

Lemma jobCreate_then_jobEndInput_witness :
  input_ended demo_api (<["input" := JStr "j-0"]> word_count) no_options
    (demo_store demo_job).
Proof.
  apply (jobCreate_then_jobEndInput demo_api (<["input" := JStr "j-0"]> word_count)
           no_options (demo_store demo_job)).
  reflexivity.
Defined.

(** ** [jobAddKey] *)

(** X11.  [jobAddKey] never reads: whatever the store, its one call is a put
    without a token into the bucket of the job inputs, of a record with the
    job id, the key and the time ([options.timestamp] when given, the time
    of the call otherwise), and it fails only when that put fails.  So in
    the store in memory it succeeds whether or not the job exists, and when
    the job inputs have a bucket of their own no job record changes. *)
Theorem jobAddKey_needs_no_job (a : api) (jobid key : string) (timestamp : jsval) :
  jobinput (ma_buckets a) ≠ job (ma_buckets a) →
  (∀ (W : Type) (c : client W) (w : W),
     ∃ u v,
       (exec c (jobAddKey a jobid key timestamp) w).2 =
         [CallPut (jobinput (ma_buckets a)) u v None] ∧
       v !! "jobId" = Some (JStr jobid) ∧ v !! "input" = Some (JStr key) ∧
       v !! "timeCreated" =
         Some (if truthy timestamp then timestamp else JStr (iso8601 (date_now c w).1))) ∧
  (∀ s : store,
     ∃ s', (exec memory (jobAddKey a jobid key timestamp) s).1 = (Ok tt, s') ∧
           ∀ k, objects s' !! (job (ma_buckets a), k) = objects s !! (job (ma_buckets a), k)).
Proof.
  intros Hne. split.
  - intros W c w. unfold jobAddKey. destruct (truthy timestamp); cbn [exec].
    + destruct (uuid_v4 c w) as [u w1].
      destruct (putObject c _ u _ None w1) as [[e|] w2]; cbn [exec snd];
        eexists _, _; (split; [reflexivity|]); unfold jobinput_record; lookup_fields;
        repeat split; reflexivity.
    + destruct (date_now c w) as [t w0]. destruct (uuid_v4 c w0) as [u w1].
      destruct (putObject c _ u _ None w1) as [[e|] w2]; cbn [exec snd fst];
        eexists _, _; (split; [reflexivity|]); unfold jobinput_record; lookup_fields;
        repeat split; reflexivity.
  - intros s. unfold jobAddKey. destruct (truthy timestamp); cbn;
      (eexists; split; [reflexivity|]); intros k; cbn;
      apply lookup_insert_ne; congruence.
Qed.

Lemma jobAddKey_needs_no_job_witness :
  ∃ s', (exec memory (jobAddKey demo_api "j-9" "/bob/stor/a.txt" JUndefined)
           (demo_store demo_job)).1 = (Ok tt, s') ∧
        ∀ k, objects s' !! ("marlin_jobs_v2", k) =
             objects (demo_store demo_job) !! ("marlin_jobs_v2", k).
Proof.
  apply (jobAddKey_needs_no_job demo_api "j-9" "/bob/stor/a.txt" JUndefined).
  discriminate.
Defined.

(** ** The calls of an update *)

(** A call on the record of the job: a get, or a put under a token. *)
Definition on_job (a : api) (jobid : string) (c : call) : Prop :=
  match c with
  | CallGet b k => b = job (ma_buckets a) ∧ k = jobid
  | CallPut b k _ et => b = job (ma_buckets a) ∧ k = jobid ∧ is_Some et
  end.

Definition gets (calls : list call) : nat :=
  length (List.filter (λ c, negb (is_put c)) calls).

Definition puts (calls : list call) : nat := length (List.filter is_put calls).

Lemma gets_app (c1 c2 : list call) : gets (c1 ++ c2) = (gets c1 + gets c2)%nat.
Proof. unfold gets. rewrite List.filter_app, length_app. reflexivity. Qed.

Lemma puts_app (c1 c2 : list call) : puts (c1 ++ c2) = (puts c1 + puts c2)%nat.
Proof. unfold puts. rewrite List.filter_app, length_app. reflexivity. Qed.

Lemma updatef_no_calls {W : Type} (c : client W) (op : jobop) (o : options) (v : obj)
    (w : W) :
  (exec c (updatef_of op o v) w).2 = [].
Proof.
  destruct op; cbn [updatef_of];
    unfold jobCancel_updatef, jobEndInput_updatef, jobArchiveStart_updatef,
      jobArchiveDone_updatef, jobArchiveHeartbeat_updatef;
    try destruct (truthy (getprop v "input")); cbn [exec];
    try destruct (date_now c w); reflexivity.
Qed.

(** What one attempt calls, and what it yields. *)
Definition footprint (a : api) (jobid : string) (n : nat) (r : outcome record)
    (calls : list call) : Prop :=
  Forall (on_job a jobid) calls ∧
  (1 ≤ gets calls ≤ S n)%nat ∧
  (puts calls ≤ gets calls)%nat ∧
  (∀ x, r = Ok x →
     ∃ pre v, calls = pre ++ [CallGet (job (ma_buckets a)) jobid;
                              CallPut (job (ma_buckets a)) jobid v (Some (_etag x))]).

Lemma attempt_footprint {W : Type} (c : client W) (op : jobop) (a : api) (jobid : string)
    (o : options) (w : W) :
  let '(r, _, calls) := exec c (jobFetchAndUpdateTry a jobid (updatef_of op o)) w in
  footprint a jobid 0 r calls.
Proof.
  rewrite exec_try. cbn zeta.
  destruct (getObject c _ jobid w) as [[e | jobrec] w1].
  - repeat split; cbn; try lia.
    + repeat constructor.
    + discriminate.
  - pose proof (updatef_no_calls c op o (value jobrec) w1) as Hno.
    destruct (exec c (updatef_of op o (value jobrec)) w1) as [[[uerr newval] w2] c2].
    cbn in Hno. subst c2. destruct uerr as [e|].
    + repeat split; cbn; try lia.
      * repeat constructor.
      * discriminate.
    + destruct (putObject c _ jobid newval _ w2) as [suberr w3].
      repeat split; cbn; try lia.
      * repeat constructor. eexists; reflexivity.
      * intros x Hx. destruct suberr; [discriminate|]. injection Hx as <-.
        exists [], newval. reflexivity.
Qed.

Lemma footprint_weaken (a : api) (jobid : string) (n m : nat) (r : outcome record)
    (calls : list call) :
  (n ≤ m)%nat → footprint a jobid n r calls → footprint a jobid m r calls.
Proof. intros Hnm (H1 & H2 & H3 & H4). repeat split; auto; lia. Qed.

Lemma retry_footprint {W : Type} (c : client W) (op : jobop) (a : api) (jobid : string)
    (o : options) (n : nat) (w : W) :
  let '(r, _, calls) :=
    exec c (retry_operation n (jobFetchAndUpdateTry a jobid (updatef_of op o))) w in
  footprint a jobid n r calls.
Proof.
  revert w. induction n as [|n IH]; intros w; cbn [retry_operation]; rewrite exec_bind;
    pose proof (attempt_footprint c op a jobid o w) as H1;
    destruct (exec c (jobFetchAndUpdateTry a jobid (updatef_of op o)) w)
      as [[r1 w1] c1].
  - destruct r1; cbn; rewrite app_nil_r; exact H1.
  - destruct r1 as [x | e].
    + cbn. rewrite app_nil_r. eapply footprint_weaken; [|exact H1]. lia.
    + specialize (IH w1).
      destruct (exec c (retry_operation n _) w1) as [[r2 w2] c2].
      destruct H1 as (F1 & G1 & P1 & _), IH as (F2 & G2 & P2 & L2).
      split; [apply Forall_app; split; assumption|].
      rewrite gets_app, puts_app. split; [lia|]. split; [lia|].
      intros x Hx. destruct (L2 x Hx) as (pre & v & ->).
      exists (c1 ++ pre), v. rewrite app_assoc. reflexivity.
Qed.

(** X12.  The five operations that update a job record, against any store
    and under any retry policy, call the store on the record of the job and
    on nothing else: every call is a get of the job or a put of the job
    under a token; there is at least one get and at most one more than the
    policy has retries; no put is made without a get before it; and when the
    operation succeeds, its last two calls are a get and the put under the
    token of the record it hands back. *)
Theorem job_update_footprint {W : Type} (c : client W) (op : jobop) (a : api)
    (jobid : string) (o : options) (w : W) :
  let '(r, _, calls) := exec c (run_jobop op a jobid o) w in
  footprint a jobid (default 0%nat (retry o)) r calls.
Proof.
  rewrite run_jobop_updatef. unfold jobFetchAndUpdate.
  destruct (retry o) as [n|]; cbn [default].
  - apply retry_footprint.
  - apply attempt_footprint.
Qed.

(** ** Another writer between the get and the put *)

(** The store in memory with a second writer: after each of the next [n]
    gets that find a record, the other writer replaces the record by
    [foreign] of its value. *)
Definition racy (foreign : obj → obj) : client (nat * store) :=
  {| date_now := λ w, let '(t, s') := store_now w.2 in (t, (w.1, s'));
     uuid_v4 := λ w, let '(u, s') := store_uuid w.2 in (u, (w.1, s'));
     getObject := λ b k w,
       let '(r, s1) := store_get b k w.2 in
       match w.1, r with
       | S n, inr rec => (r, (n, store_write b k (foreign (value rec)) s1))
       | _, _ => (r, (w.1, s1))
       end;
     putObject := λ b k v et w,
       let '(r, s') := store_put b k v et w.2 in (r, (w.1, s')) |}.

Definition conflict : verror :=
  VError "failed to update job" (Some (VError "EtagConflictError" None)).

Definition cancelled (t : Z) (v : obj) : obj := <["timeCancelled" := JStr (iso8601 t)]> v.

Definition stored (a : api) (jobid : string) (s : store) : option obj :=
  fst <$> objects s !! (job (ma_buckets a), jobid).

Lemma racy_attempt (foreign : obj → obj) (a : api) (jobid : string) (n : nat) (s : store)
    (v : obj) (e : nat) :
  objects s !! (job (ma_buckets a), jobid) = Some (v, e) →
  (e < next_etag s)%nat →
  ∃ s' calls,
    exec (racy foreign) (jobFetchAndUpdateTry a jobid jobCancel_updatef) (n, s) =
      (match n with
       | O => Ok {| bucket := job (ma_buckets a); key := jobid; value := v; _etag := e |}
       | S _ => Fail conflict
       end, (pred n, s'), calls) ∧
    clock s' = clock s + 1 ∧
    (next_etag s < next_etag s')%nat ∧
    objects s' !! (job (ma_buckets a), jobid) =
      Some (match n with
            | O => cancelled (clock s) v
            | S _ => foreign v
            end, next_etag s).
Proof.
  intros Hs He. rewrite exec_try. cbn zeta.
  cbn [racy getObject snd fst]. unfold store_get. rewrite Hs.
  unfold jobCancel_updatef.
  destruct n as [|n]; cbn [exec racy date_now putObject snd fst store_now value _etag];
    unfold store_put; cbn [objects store_write snd fst].
  - rewrite Hs. rewrite bool_decide_eq_true_2 by reflexivity.
    eexists _, _. split; [reflexivity|]. cbn [clock next_etag objects store_write pred].
    rewrite lookup_insert_eq. repeat split; lia.
  - rewrite lookup_insert_eq. rewrite bool_decide_eq_false_2 by lia.
    eexists _, _. split; [reflexivity|]. cbn [clock next_etag objects store_write pred].
    rewrite lookup_insert_eq. repeat split; lia.
Qed.

Definition raced (foreign : obj → obj) (a : api) (jobid : string) (n r : nat)
    (res : outcome record) (s s' : store) (v : obj) : Prop :=
  if decide (n ≤ r)%nat then
    (∃ e', res = Ok {| bucket := job (ma_buckets a); key := jobid;
                       value := Nat.iter n foreign v; _etag := e' |}) ∧
    stored a jobid s' = Some (cancelled (clock s + Z.of_nat n) (Nat.iter n foreign v))
  else
    res = Fail conflict ∧ stored a jobid s' = Some (Nat.iter (S r) foreign v).

Lemma racy_retry (foreign : obj → obj) (a : api) (jobid : string) (r n : nat) (s : store)
    (v : obj) (e : nat) :
  objects s !! (job (ma_buckets a), jobid) = Some (v, e) →
  (e < next_etag s)%nat →
  ∃ res n' s' calls,
    exec (racy foreign) (retry_operation r (jobFetchAndUpdateTry a jobid jobCancel_updatef))
      (n, s) = (res, (n', s'), calls) ∧
    raced foreign a jobid n r res s s' v.
Proof.
  revert n s v e. induction r as [|r IH]; intros n s v e Hs He;
    destruct (racy_attempt foreign a jobid n s v e Hs He)
      as (s1 & c1 & Hexec & Hclock & Hetag & Hs1);
    cbn [retry_operation]; rewrite exec_bind, Hexec; unfold raced, stored.
  - destruct n as [|n]; cbn; rewrite app_nil_r; eexists _, _, _, _;
      (split; [reflexivity|]).
    + rewrite decide_True by lia. rewrite Hs1, Z.add_0_r. eauto.
    + rewrite decide_False by lia. rewrite Hs1. eauto.
  - destruct n as [|n].
    + cbn. rewrite app_nil_r. eexists _, _, _, _. split; [reflexivity|].
      rewrite decide_True by lia. rewrite Hs1, Z.add_0_r. eauto.
    + cbn [pred].
      destruct (IH n s1 (foreign v) (next_etag s) Hs1 ltac:(lia))
        as (res & n' & s' & calls & Hrest & Hraced).
      rewrite Hrest. eexists _, _, _, _. split; [reflexivity|].
      unfold raced, stored in Hraced. rewrite <- !Nat.iter_succ_r in Hraced.
      destruct (decide (n ≤ r)%nat).
      * rewrite decide_True by lia.
        replace (clock s + Z.of_nat (S n)) with (clock s1 + Z.of_nat n) by lia.
        exact Hraced.
      * rewrite decide_False by lia. exact Hraced.
Qed.

(** X13.  No update is lost.  [jobCancel] on a job that another writer
    replaces after each of the next [n] gets: every put under the token of a
    record that was replaced since is refused.  With fewer retries than
    writes of the other, [jobCancel] fails with the conflict and the job is
    stored as the other writer left it, [timeCancelled] not set by this
    call; with retries enough, it succeeds, hands back the record the other
    writer wrote last, and the job is stored as that record with
    [timeCancelled] set. *)
Theorem jobCancel_no_lost_update (foreign : obj → obj) (a : api) (jobid : string)
    (o : options) (n : nat) (s : store) (v : obj) (e : nat) :
  objects s !! (job (ma_buckets a), jobid) = Some (v, e) →
  (e < next_etag s)%nat →
  ∃ res n' s' calls,
    exec (racy foreign) (jobCancel a jobid o) (n, s) = (res, (n', s'), calls) ∧
    raced foreign a jobid n (default 0%nat (retry o)) res s s' v.
Proof.
  intros Hs He. unfold jobCancel, jobFetchAndUpdate.
  destruct (retry o) as [r|]; cbn [default]; [apply (racy_retry _ _ _ _ _ _ _ e Hs He)|].
  destruct (racy_retry foreign a jobid 0 n s v e Hs He) as (res & n' & s' & calls & H & Hr).
  exists res, n', s', calls. split; [|exact Hr].
  revert H. cbn [retry_operation]. rewrite exec_bind.
  destruct (exec _ (jobFetchAndUpdateTry _ _ _) _) as [[r1 w1] c1].
  destruct r1; cbn; rewrite app_nil_r; auto.
Qed.

Definition archive_started (v : obj) : obj :=
  <["timeArchiveStarted" := JStr "2013-03-02T00:00:09.000Z"]> v.

Definition retry_twice : options :=
  {| retry := Some 2%nat; wrasse := JUndefined; limit := None; timeout := None |}.

Lemma jobCancel_no_lost_update_witness :
  ∃ res n' s' calls,
    exec (racy archive_started) (jobCancel demo_api "j-1" retry_twice)
      (1%nat, demo_store demo_job) = (res, (n', s'), calls) ∧
    raced archive_started demo_api "j-1" 1 2 res (demo_store demo_job) s' demo_job.
Proof.
  apply (jobCancel_no_lost_update archive_started demo_api "j-1" retry_twice 1
           (demo_store demo_job) demo_job 7).
  - reflexivity.
  - cbn. lia.
Defined.

(** With one retry less than the other writer writes, the call gives up. *)
Example jobCancel_gives_up :
  let '(res, w, calls) :=
    exec (racy archive_started) (jobCancel demo_api "j-1" no_options)
      (1%nat, demo_store demo_job) in
  res = Fail conflict ∧ stored demo_api "j-1" w.2 = Some (archive_started demo_job) ∧
  (gets calls = 1 ∧ puts calls = 1)%nat.
Proof. vm_compute. repeat split. Qed.

(** ** [jobCancel], twice *)

Lemma exec_jobCancel (a : api) (jobid : string) (o : options) (s : store) (v : obj)
    (e : nat) :
  objects s !! (job (ma_buckets a), jobid) = Some (v, e) →
  exec memory (jobCancel a jobid o) s =
    (Ok {| bucket := job (ma_buckets a); key := jobid; value := v; _etag := e |},
     store_write (job (ma_buckets a)) jobid (cancelled (clock s) v) (store_now s).2,
     [CallGet (job (ma_buckets a)) jobid;
      CallPut (job (ma_buckets a)) jobid (cancelled (clock s) v) (Some e)]).
Proof.
  intros Hs. apply exec_jobFetchAndUpdate_ok. rewrite exec_try. cbn zeta.
  cbn [memory getObject]. unfold store_get. rewrite Hs.
  cbn [exec memory date_now putObject store_now value _etag jobCancel_updatef].
  unfold store_put. cbn [objects]. rewrite Hs.
  rewrite bool_decide_eq_true_2 by reflexivity. reflexivity.
Qed.

(** X14.  [jobCancel] does not look at the record it updates: on a job that
    is cancelled already it succeeds again, hands back the record with the
    time of the first cancellation, and stores the time of the second in its
    place.  Each call yields the record as it was before the call. *)
Theorem jobCancel_twice (a : api) (jobid : string) (o1 o2 : options) (s : store)
    (v : obj) (e : nat) :
  objects s !! (job (ma_buckets a), jobid) = Some (v, e) →
  ∃ s1 s2 calls1 calls2,
    exec memory (jobCancel a jobid o1) s =
      (Ok {| bucket := job (ma_buckets a); key := jobid; value := v; _etag := e |},
       s1, calls1) ∧
    exec memory (jobCancel a jobid o2) s1 =
      (Ok {| bucket := job (ma_buckets a); key := jobid;
             value := cancelled (clock s) v; _etag := next_etag s |}, s2, calls2) ∧
    stored a jobid s1 = Some (cancelled (clock s) v) ∧
    stored a jobid s2 = Some (cancelled (clock s + 1) v).
Proof.
  intros Hs. pose proof (exec_jobCancel a jobid o1 s v e Hs) as H1.
  set (s1 := store_write _ _ _ _) in H1.
  assert (objects s1 !! (job (ma_buckets a), jobid) =
            Some (cancelled (clock s) v, next_etag s)) as Hs1
    by (unfold s1; cbn; apply lookup_insert_eq).
  pose proof (exec_jobCancel a jobid o2 s1 _ _ Hs1) as H2.
  eexists _, _, _, _. split; [exact H1|]. split; [exact H2|].
  unfold stored. split.
  - rewrite Hs1. reflexivity.
  - cbn [objects store_write]. rewrite lookup_insert_eq. cbn.
    unfold cancelled. rewrite insert_insert_eq. reflexivity.
Qed.

Lemma jobCancel_twice_witness :
  ∃ s1 s2 calls1 calls2,
    exec memory (jobCancel demo_api "j-1" no_options) (demo_store demo_job) =
      (Ok {| bucket := "marlin_jobs_v2"; key := "j-1"; value := demo_job; _etag := 7 |},
       s1, calls1) ∧
    exec memory (jobCancel demo_api "j-1" no_options) s1 =
      (Ok {| bucket := "marlin_jobs_v2"; key := "j-1";
             value := cancelled 1362182410000 demo_job; _etag := 8 |}, s2, calls2) ∧
    stored demo_api "j-1" s1 = Some (cancelled 1362182410000 demo_job) ∧
    stored demo_api "j-1" s2 = Some (cancelled (1362182410000 + 1) demo_job).
Proof.
  apply (jobCancel_twice demo_api "j-1" no_options no_options (demo_store demo_job)
           demo_job 7).
  reflexivity.
Defined.

(** ** [taskDone] on a task that is not done *)

(** The records the middle stage saves: one for each output, or the one
    error. *)
Definition saved (n : option nat) : nat :=
  match n with
  | Some k => k
  | None => 1
  end.

Definition saved_bucket (a : api) (n : option nat) : string :=
  match n with
  | Some _ => taskoutput (ma_buckets a)
  | None => error (ma_buckets a)
  end.

(** A put of a new record: into [bkt], without a token. *)
Definition new_in (bkt : string) (c : call) : Prop :=
  ∃ u x, c = CallPut bkt u x None.

Lemma write_outputs_memory (bkt now : string) (tsk : obj) (n : nat) (arg : taskarg)
    (s : store) :
  ∃ s' calls,
    exec memory (write_outputs bkt now tsk n arg) s = (Ok arg, s', calls) ∧
    clock s' = clock s ∧ length calls = n ∧ Forall (new_in bkt) calls ∧
    (∀ b k, b ≠ bkt → objects s' !! (b, k) = objects s !! (b, k)).
Proof.
  revert s. induction n as [|n IH]; intros s.
  - exists s, []. repeat split; constructor.
  - cbn [write_outputs exec memory uuid_v4 putObject store_uuid store_put].
    destruct (IH (store_write bkt ("uuid-" +:+ pretty (next_uuid s))
                    (taskoutput_record now tsk)
                    {| objects := objects s; next_etag := next_etag s; clock := clock s;
                       next_uuid := S (next_uuid s) |}))
      as (s' & calls & Hexec & Hclock & Hlen & Hall & Hobj).
    rewrite Hexec. eexists _, _. split; [reflexivity|].
    split; [exact Hclock|]. split; [cbn; rewrite Hlen; reflexivity|].
    split; [constructor; [eexists _, _; reflexivity | exact Hall]|].
    intros b k Hb. rewrite Hobj by exact Hb. cbn [objects store_write].
    apply lookup_insert_ne. congruence.
Qed.

Lemma taskDoneWriteOthers_memory (arg : taskarg) (rec : record) (s : store) :
  arg_record arg = Some rec →
  ∃ s' calls,
    exec memory (taskDoneWriteOthers arg) s = (Ok arg, s', calls) ∧
    clock s ≤ clock s' ≤ clock s + 1 ∧
    length calls = saved (nout arg) ∧
    Forall (new_in (saved_bucket (arg_api arg) (nout arg))) calls ∧
    (∀ b k, b ≠ saved_bucket (arg_api arg) (nout arg) →
            objects s' !! (b, k) = objects s !! (b, k)).
Proof.
  intros Hrec. unfold taskDoneWriteOthers. rewrite Hrec.
  destruct (nout arg) as [[|n]|]; cbn [saved saved_bucket].
  - exists s, []. repeat split; try lia. constructor.
  - cbn [exec memory date_now store_now].
    destruct (write_outputs_memory (taskoutput (ma_buckets (arg_api arg)))
                (iso8601 (clock s)) (value rec) (S n) arg
                {| objects := objects s; next_etag := next_etag s; clock := clock s + 1;
                   next_uuid := next_uuid s |})
      as (s' & calls & Hexec & Hclock & Hlen & Hall & Hobj).
    exists s', calls. split; [exact Hexec|]. cbn [clock] in Hclock.
    repeat split; try lia; try assumption.
  - cbn. eexists _, _. split; [reflexivity|]. cbn.
    repeat split; try lia.
    + constructor; [eexists _, _; reflexivity | constructor].
    + intros b k Hb. apply lookup_insert_ne. congruence.
Qed.

Definition task_is_done (a : api) (tid : string) (n : option nat) (ec em : jsval)
    (s : store) (v : obj) (e : nat) : Prop :=
  let bkt := task (ma_buckets a) in
  ∃ arg s' others t,
    let v' := task_done_value (iso8601 t) n v in
    exec memory (taskDone a tid n ec em) s =
      (Ok arg, s', CallGet bkt tid :: others ++ [CallPut bkt tid v' (Some e)]) ∧
    clock s ≤ t ≤ clock s + 1 ∧
    length others = saved n ∧
    Forall (new_in (saved_bucket a n)) others ∧
    fst <$> objects s' !! (bkt, tid) = Some v' ∧
    arg_record arg = Some {| bucket := bkt; key := tid; value := v; _etag := e |}.

(** X15.  [taskDone] on a stored task that is not done, the tasks in a
    bucket of their own: it succeeds, and its calls are the get of the task,
    then one put of a new record for each output into the bucket of the
    task outputs (when the count is given) or the put of one error record
    into the bucket of the errors (when it is not), and last the put of the
    task under the token of the get, which stores the task as done. *)
Theorem taskDone_marks_done (a : api) (tid : string) (n : option nat) (ec em : jsval)
    (s : store) (v : obj) (e : nat) :
  objects s !! (task (ma_buckets a), tid) = Some (v, e) →
  loose_eq_text (getprop v "state") "done" = false →
  task (ma_buckets a) ≠ taskoutput (ma_buckets a) →
  task (ma_buckets a) ≠ error (ma_buckets a) →
  task_is_done a tid n ec em s v e.
Proof.
  intros Hs Hstate Hout Herr. unfold task_is_done, taskDone. cbn zeta.
  set (arg0 := {| arg_api := a; taskid := tid; nout := n; ecode := ec; emessage := em;
                  arg_record := None |}).
  set (rec := {| bucket := task (ma_buckets a); key := tid; value := v; _etag := e |}).
  destruct (taskDoneWriteOthers_memory (with_record rec arg0) rec s eq_refl)
    as (s1 & others & Hothers & Hclock & Hlen & Hall & Hobj).
  cbn [with_record arg_api nout arg0] in Hlen, Hall, Hobj.
  assert (objects s1 !! (task (ma_buckets a), tid) = Some (v, e)) as Hs1.
  { rewrite Hobj; [exact Hs|]. destruct n; assumption. }
  rewrite exec_pipeline, exec_taskDoneFetch. cbn [arg_api taskid arg0].
  rewrite Hs, Hstate. fold rec. rewrite exec_pipeline, Hothers, exec_pipeline.
  erewrite exec_taskDoneWriteTask by (cbn [arg_record with_record]; reflexivity).
  cbn [bucket key _etag value with_record nout rec arg0]. unfold store_put.
  cbn [objects store_now snd]. rewrite Hs1.
  rewrite bool_decide_eq_true_2 by reflexivity. cbn [pipeline exec].
  eexists _, _, others, (clock s1). split.
  { rewrite app_nil_r. reflexivity. }
  split; [exact Hclock|]. split; [exact Hlen|]. split; [exact Hall|].
  split; [|reflexivity].
  cbn [objects store_write]. rewrite lookup_insert_eq. reflexivity.
Qed.

Lemma taskDone_marks_done_witness :
  task_is_done demo_api "t-1" (Some 3%nat) JUndefined JUndefined (task_store bare_task)
    bare_task 3.
Proof.
  apply (taskDone_marks_done demo_api "t-1" (Some 3%nat) JUndefined JUndefined
           (task_store bare_task) bare_task 3); [reflexivity | reflexivity | | ];
    discriminate.
Defined.







(** ** [jobsList]: the filter as an expression *)

(** The filters of [jobsList] as expressions of the store's language, one
    list for each option, in the order of the tests. *)
Definition opt_expr (c : bool) (e : filter_expr) : list filter_expr :=
  if c then [e] else [].

Definition token_expr (attr : string) (v : option string) : list filter_expr :=
  match token_given v with
  | Some s => [FEq attr s]
  | None => []
  end.

Definition ago (now : Z) (x : option Z) : Z := now - default 0 x * 1000.

Definition jobsList_exprs (sJobStates : list string) (now : Z) (o : list_options)
  : list filter_expr :=
  match o_state o with
  | Some s =>
      opt_expr (negb (bool_decide (s = EmptyString)) && bool_decide (s ∈ sJobStates))
        (FEq "state" s)
  | None => []
  end ++
  token_expr "name" (o_name o) ++
  token_expr "owner" (o_owner o) ++
  token_expr "jobId" (o_jobId o) ++
  token_expr "worker" (o_worker o) ++
  opt_expr (o_cancelled o) (FPresent "timeCancelled") ++
  match o_archived o with
  | Some true => [FPresent "timeArchiveDone"]
  | Some false => [FNot (FPresent "timeArchiveDone")]
  | None => []
  end ++
  opt_expr (given (o_archiveStartedBefore o))
    (FLe "timeArchiveStarted" (iso8601 (ago now (o_archiveStartedBefore o)))) ++
  opt_expr (given (o_archivedBefore o))
    (FLe "timeArchiveDone" (iso8601 (ago now (o_archivedBefore o)))) ++
  match o_wrasse o with
  | WrasseNull => [FNot (FPresent "wrasse")]
  | WrasseTrue => [FPresent "wrasse"]
  | WrasseIs s => token_expr "wrasse" (Some s)
  | WrasseNone => []
  end ++
  opt_expr (given (o_doneSince o)) (FGe "timeDone" (iso8601 (ago now (o_doneSince o)))) ++
  opt_expr (given (o_mtime o)) (FGe "_mtime" (pretty (ago now (o_mtime o)))) ++
  opt_expr (given (o_not_mtime o)) (FLe "_mtime" (pretty (ago now (o_not_mtime o)))).

(** The query: all the filters, or every record that has a job id. *)
Definition jobsList_query (sJobStates : list string) (now : Z) (o : list_options)
  : filter_expr :=
  match jobsList_exprs sJobStates now o with
  | [] => FPresent "jobId"
  | fs => FAnd fs
  end.











(** The jobs of a worker that are done for an hour and not archived. *)
Definition to_archive : list_options :=
  {| o_state := Some "done"; o_name := None; o_owner := None; o_jobId := None;
     o_worker := Some "worker-1"; o_cancelled := false; o_archived := Some false;
     o_archiveStartedBefore := None; o_archivedBefore := None;
     o_wrasse := WrasseNull; o_doneSince := None; o_mtime := None;
     o_not_mtime := Some 3600; o_marker := None; o_limit := Some 100;
     o_sort_order := None |}.


Example jobsList_to_archive :
  find_filter (jobsList demo_api ["queued"; "running"; "done"] 1362182410000 to_archive) =
    "(&(state=done)(worker=worker-1)(!(timeArchiveDone=*))(!(wrasse=*))(_mtime<=1362178810000))".
Proof. vm_compute. reflexivity. Qed.

(** The marker is not tested: it goes into the filter as it is given, and
    with no other filter the text is not an expression. *)
Example jobsList_marker_alone :
  find_filter (jobsList demo_api ["queued"; "running"; "done"] 1362182410000
                 {| o_state := None; o_name := None; o_owner := None; o_jobId := None;
                    o_worker := None; o_cancelled := false; o_archived := None;
                    o_archiveStartedBefore := None; o_archivedBefore := None;
                    o_wrasse := WrasseNone; o_doneSince := None; o_mtime := None;
                    o_not_mtime := None; o_marker := Some "17"; o_limit := None;
                    o_sort_order := None |}) = "(jobId=*(_id>=17))".
Proof. reflexivity. Qed.

(** ** [jobFetchLog] *)

Definition is_error (x : fl_action) : bool :=
  match x with
  | EmitError _ => true
  | _ => false
  end.

(** The errors emitted. *)
Definition nerrors (acts : list fl_action) : nat := length (List.filter is_error acts).

(** Neither the end nor a failed assertion. *)
Definition quiet (acts : list fl_action) : Prop :=
  Forall (λ x, x ≠ EmitEnd ∧ x ≠ AssertionFailed) acts.

Lemma nerrors_app (a1 a2 : list fl_action) : nerrors (a1 ++ a2) = (nerrors a1 + nerrors a2)%nat.
Proof. unfold nerrors. rewrite List.filter_app, length_app. reflexivity. Qed.

Lemma emitLogEntry_log (o : obj) (field : string) (w : jsval) (l : label) (m : string) :
  quiet (emitLogEntry o field w l m) ∧ nerrors (emitLogEntry o field w l m) = 0%nat.
Proof.
  unfold emitLogEntry. destruct (truthy _); split; try reflexivity; repeat constructor;
    discriminate.
Qed.

Lemma quiet_app (a1 a2 : list fl_action) : quiet a1 → quiet a2 → quiet (a1 ++ a2).
Proof. intros H1 H2. apply Forall_app. split; assumption. Qed.

Lemma emitJob_log (v : obj) : quiet (emitJob v) ∧ nerrors (emitJob v) = 0%nat.
Proof.
  unfold emitJob. rewrite !nerrors_app.
  split; [repeat apply quiet_app; apply emitLogEntry_log|].
  rewrite !(proj2 (emitLogEntry_log _ _ _ _ _)). reflexivity.
Qed.

Lemma emitTask_log (v : obj) : quiet (emitTask v) ∧ nerrors (emitTask v) = 0%nat.
Proof.
  unfold emitTask. cbn zeta. rewrite !nerrors_app.
  split; [repeat apply quiet_app; apply emitLogEntry_log|].
  rewrite !(proj2 (emitLogEntry_log _ _ _ _ _)). reflexivity.
Qed.

(** What holds of the fetcher between two events: [ml_npending] counts the
    queries that have not ended, those that failed among them, and the next
    request is a new one. *)
Definition counted (f : fetcher) (errs : nat) : Prop :=
  ml_npending f = Z.of_nat (size (ml_listening f)) + Z.of_nat errs ∧
  ∀ req k, ml_listening f !! req = Some k → (req < ml_next f)%nat.

Lemma fetcher_idle (ev : fl_event) (f : fetcher) :
  ml_listening f = ∅ → fetcher_on ev f = (f, []).
Proof. intros H. destruct ev; cbn; rewrite H, lookup_empty; reflexivity. Qed.

Lemma fetcher_run_idle (evs : list fl_event) (f : fetcher) :
  ml_listening f = ∅ → fetcher_run evs f = (f, []).
Proof.
  intros H. induction evs as [|ev evs IH]; [reflexivity|].
  cbn. rewrite (fetcher_idle ev f H), IH. reflexivity.
Qed.

Lemma checkDone_counted (req : nat) (k : reqkind) (f : fetcher) (errs : nat) :
  counted f errs → ml_listening f !! req = Some k →
  let '(f', acts) := checkDone (stop_listening req f) in
  counted f' errs ∧
  ((acts = [] ∧ ml_npending f' ≠ 0) ∨
   (acts = [EmitEnd] ∧ ml_listening f' = ∅ ∧ errs = 0%nat)).
Proof.
  intros [Hn Hfresh] Hreq.
  assert (size (delete req (ml_listening f)) = pred (size (ml_listening f))) as Hsize
    by (apply map_size_delete_Some; eauto).
  assert (size (ml_listening f) ≠ 0%nat) as Hpos
    by (apply (map_size_ne_0_lookup_2 _ req); eauto).
  unfold checkDone. cbn [stop_listening ml_npending].
  destruct (0 <? ml_npending f) eqn:E; [|apply Z.ltb_ge in E; lia].
  cbn [negb]. split.
  - split; cbn [ml_npending ml_listening ml_next stop_listening]; [rewrite Hsize; lia|].
    intros r k' [_ H]%lookup_delete_Some. eapply Hfresh, H.
  - destruct (ml_npending f - 1 =? 0) eqn:E0.
    + right. apply Z.eqb_eq in E0. split; [reflexivity|].
      cbn [ml_listening stop_listening]. split; [apply map_size_empty_inv; lia | lia].
    + left. apply Z.eqb_neq in E0. split; [reflexivity | exact E0].
Qed.

(** One event. *)
Lemma fetcher_on_counted (ev : fl_event) (f : fetcher) (errs : nat) :
  counted f errs → ml_npending f ≠ 0 →
  let '(f', acts) := fetcher_on ev f in
  counted f' (errs + nerrors acts) ∧
  ((quiet acts ∧ ml_npending f' ≠ 0) ∨
   (acts = [EmitEnd] ∧ ml_listening f' = ∅ ∧ errs = 0%nat)).
Proof.
  intros Hc Hn. pose proof Hc as [Hcount Hfresh].
  destruct ev as [req v | req | req e]; cbn [fetcher_on].
  - destruct (ml_listening f !! req) as [[|]|] eqn:Hreq.
    + rewrite (proj2 (emitJob_log v)), Nat.add_0_r. split; [exact Hc|].
      left. split; [apply emitJob_log | exact Hn].
    + rewrite (proj2 (emitTask_log v)), Nat.add_0_r. split; [exact Hc|].
      left. split; [apply emitTask_log | exact Hn].
    + rewrite Nat.add_0_r. split; [exact Hc|]. left. split; [constructor | exact Hn].
  - destruct (ml_listening f !! req) as [[|]|] eqn:Hreq.
    + pose proof (checkDone_counted req _ f errs Hc Hreq) as H.
      destruct (checkDone (stop_listening req f)) as [f' acts].
      destruct H as [Hc' [[-> Hn'] | (-> & Hl & He)]]; cbn; rewrite Nat.add_0_r;
        (split; [exact Hc'|]); [left; split; [constructor | exact Hn'] | right; auto].
    + cbn [stop_listening ml_ntasks ml_limit].
      destruct (ml_ntasks f <? ml_limit f).
      * pose proof (checkDone_counted req _ f errs Hc Hreq) as H.
        change {| ml_api := ml_api f; ml_jobid := ml_jobid f; ml_limit := ml_limit f;
                  ml_npending := ml_npending f; ml_ntasks := ml_ntasks f;
                  ml_filter := ml_filter f; ml_req_job := ml_req_job f;
                  ml_req_tasks := ml_req_tasks f;
                  ml_listening := delete req (ml_listening f);
                  ml_next := ml_next f |} with (stop_listening req f).
        destruct (checkDone (stop_listening req f)) as [f' acts].
        destruct H as [Hc' [[-> Hn'] | (-> & Hl & He)]]; cbn; rewrite Nat.add_0_r;
          (split; [exact Hc'|]); [left; split; [constructor | exact Hn'] | right; auto].
      * unfold fetchTasks.
        cbn [ml_req_tasks ml_next ml_api ml_jobid ml_limit ml_npending ml_ntasks ml_filter
             ml_req_job ml_listening].
        assert (size (delete req (ml_listening f)) = pred (size (ml_listening f))) as Hsize
          by (apply map_size_delete_Some; eauto).
        assert (size (ml_listening f) ≠ 0%nat) as Hpos
          by (apply (map_size_ne_0_lookup_2 _ req); eauto).
        assert (delete req (ml_listening f) !! ml_next f = None) as Hnew.
        { apply eq_None_not_Some. intros [k [_ H]%lookup_delete_Some].
          apply Hfresh in H. lia. }
        split; [split|].
        -- cbn [ml_npending ml_listening nerrors List.filter is_error length].
           rewrite map_size_insert_None by exact Hnew.
           cbn [stop_listening ml_npending ml_listening]. rewrite Hsize. lia.
        -- cbn [ml_listening ml_next stop_listening]. intros r k.
           destruct (decide (r = ml_next f)) as [->|Hne]; [lia|].
           rewrite lookup_insert_ne by congruence.
           intros [_ H]%lookup_delete_Some. apply Hfresh in H. lia.
        -- left. cbn [ml_npending stop_listening]. split; [|lia].
           repeat constructor; discriminate.
    + rewrite Nat.add_0_r. split; [exact Hc|]. left. split; [constructor | exact Hn].
  - assert (∀ k msg, ml_listening f !! req = Some k →
              counted (stop_listening req f) (errs + nerrors [EmitError msg]) ∧
              ((quiet [EmitError msg] ∧ ml_npending (stop_listening req f) ≠ 0) ∨
               ([EmitError msg] = [EmitEnd] ∧ ml_listening (stop_listening req f) = ∅ ∧
                errs = 0%nat))) as Herr.
    { intros k msg Hreq.
      assert (size (delete req (ml_listening f)) = pred (size (ml_listening f))) as Hsize
        by (apply map_size_delete_Some; eauto).
      assert (size (ml_listening f) ≠ 0%nat) as Hpos
        by (apply (map_size_ne_0_lookup_2 _ req); eauto).
      split; [split|].
      - cbn. rewrite Hsize. lia.
      - cbn [stop_listening ml_listening ml_next].
        intros r k' [_ H]%lookup_delete_Some. eapply Hfresh, H.
      - left. split; [repeat constructor; discriminate | exact Hn]. }
    destruct (ml_listening f !! req) as [[|]|] eqn:Hreq.
    + apply (Herr ReqJob _ eq_refl).
    + apply (Herr ReqTasks _ eq_refl).
    + rewrite Nat.add_0_r. split; [exact Hc|]. left. split; [constructor | exact Hn].
Qed.

(** Any number of events: nothing but log entries, errors and queries, or
    these and then the end, after which nothing. *)
Lemma fetcher_run_counted (evs : list fl_event) (f : fetcher) (errs : nat) :
  counted f errs → ml_npending f ≠ 0 →
  let '(f', acts) := fetcher_run evs f in
  (quiet acts ∧ counted f' (errs + nerrors acts) ∧ ml_npending f' ≠ 0) ∨
  (∃ pre, acts = pre ++ [EmitEnd] ∧ quiet pre ∧ nerrors pre = 0%nat ∧ errs = 0%nat ∧
          ml_listening f' = ∅).
Proof.
  revert f errs. induction evs as [|ev evs IH]; intros f errs Hc Hn; cbn [fetcher_run].
  - left. rewrite Nat.add_0_r. split; [constructor | auto].
  - pose proof (fetcher_on_counted ev f errs Hc Hn) as H1.
    destruct (fetcher_on ev f) as [f1 a1].
    destruct H1 as [Hc1 [[Hq1 Hn1] | (-> & Hl & He)]].
    + specialize (IH f1 _ Hc1 Hn1).
      destruct (fetcher_run evs f1) as [f2 a2].
      destruct IH as [(Hq2 & Hc2 & Hn2) | (pre & -> & Hq & Hpre & He & Hl)].
      * left. split; [apply quiet_app; assumption|]. rewrite nerrors_app.
        rewrite Nat.add_assoc. auto.
      * right. exists (a1 ++ pre). rewrite app_assoc. split; [reflexivity|].
        split; [apply quiet_app; assumption|]. rewrite nerrors_app.
        repeat split; try lia. exact Hl.
    + rewrite (fetcher_run_idle evs f1 Hl). right. exists []. repeat split; auto.
      constructor.
Qed.

Lemma quiet_no_end (acts : list fl_action) :
  quiet acts → (EmitEnd ∉ acts) ∧ (AssertionFailed ∉ acts).
Proof.
  intros H. split; intros Hin; eapply Forall_forall in H; try exact Hin;
    destruct H; congruence.
Qed.

(** X18.  [jobFetchLog], whatever the two kinds of query emit and in
    whatever order: no assertion of the fetcher fails; [end] is emitted
    exactly when every query has ended and none has failed, once, and
    nothing is emitted after it.  So after an [error] there is no [end]. *)
Theorem jobFetchLog_end (a : api) (jobid : string) (evs : list fl_event) :
  let '(f, acts) := jobFetchLog a jobid evs in
  (AssertionFailed ∉ acts) ∧
  (EmitEnd ∈ acts ↔ ml_listening f = ∅ ∧ nerrors acts = 0%nat) ∧
  (EmitEnd ∈ acts → ∃ pre, acts = pre ++ [EmitEnd] ∧ (EmitEnd ∉ pre)).
Proof.
  unfold jobFetchLog. cbn [fetcher_start JobLogFetcher ml_req_job ml_req_tasks ml_npending
                           Z.eqb negb fetchTasks ml_next ml_api ml_jobid ml_limit
                           ml_ntasks ml_filter ml_listening].
  set (f0 := {| ml_api := a; ml_jobid := jobid; ml_limit := 1000; ml_npending := 0 + 1 + 1;
                ml_ntasks := 0; ml_filter := _; ml_req_job := Some 0%nat;
                ml_req_tasks := Some 1%nat;
                ml_listening := <[1%nat := ReqTasks]> (<[0%nat := ReqJob]> ∅);
                ml_next := 2 |}).
  assert (counted f0 0) as Hc.
  { split.
    - cbn. rewrite map_size_insert_None by reflexivity.
      rewrite map_size_insert_None by reflexivity. rewrite map_size_empty. reflexivity.
    - cbn [f0 ml_listening ml_next]. intros r k.
      destruct (decide (r = 1%nat)) as [->|]; [lia|].
      rewrite lookup_insert_ne by congruence.
      destruct (decide (r = 0%nat)) as [->|]; [lia|].
      rewrite lookup_insert_ne by congruence. rewrite lookup_empty. discriminate. }
  pose proof (fetcher_run_counted evs f0 0 Hc ltac:(cbn; lia)) as H.
  destruct (fetcher_run evs f0) as [f acts].
  set (a0 := [FindObjects 0 _ _ _; FindObjects 1 _ _ _]).
  assert (quiet a0) as Hq0 by (repeat constructor; discriminate).
  destruct H as [(Hq & [Hcount _] & Hn) | (pre & -> & Hq & Hpre & _ & Hl)].
  - destruct (quiet_no_end _ (quiet_app _ _ Hq0 Hq)) as [Hend Hassert].
    split; [exact Hassert|]. split; [split|]; try (intros H; contradiction).
    intros [Hl He]. exfalso. rewrite nerrors_app in He. cbn in He.
    rewrite Hl, map_size_empty in Hcount. cbn in Hcount. lia.
  - destruct (quiet_no_end _ (quiet_app _ _ Hq0 Hq)) as [Hend Hassert].
    rewrite app_assoc. split; [|split; [split|]].
    + intros [H|H]%elem_of_app; [contradiction|].
      apply list_elem_of_singleton in H. discriminate.
    + intros _. split; [exact Hl|]. rewrite !nerrors_app, Hpre. reflexivity.
    + intros _. apply elem_of_app. right. constructor.
    + intros _. exists (a0 ++ pre). split; [reflexivity | exact Hend].
Qed.

(** ** A job with a thousand tasks *)

(** What the store sends for a query: the records, then the end. *)
Definition page (req : nat) (recs : list obj) : list fl_event :=
  map (OnRecord req) recs ++ [OnEnd req].

(** The same answer to [k] queries, one after the other, the first of them
    the request [req]. *)
Fixpoint pages (k : nat) (req : nat) (recs : list obj) : list fl_event :=
  match k with
  | O => []
  | S k' => page req recs ++ pages k' (S req) recs
  end.

(** The query for the tasks of the job. *)
Definition tasks_query (a : api) (jobid : string) (req : nat) : fl_action :=
  FindObjects req (task (ma_buckets a)) ("(jobId=" +:+ jobid +:+ ")") 1000.

(** The log of [k] pages of tasks, each followed by the query for more. *)
Fixpoint paged (a : api) (jobid : string) (recs : list obj) (k : nat) (req : nat)
  : list fl_action :=
  match k with
  | O => []
  | S k' =>
      flat_map emitTask recs ++ tasks_query a jobid (S req) :: paged a jobid recs k' (S req)
  end.

Lemma fetcher_run_app (e1 e2 : list fl_event) (f : fetcher) :
  fetcher_run (e1 ++ e2) f =
    let '(f1, a1) := fetcher_run e1 f in
    let '(f2, a2) := fetcher_run e2 f1 in
    (f2, a1 ++ a2).
Proof.
  revert f. induction e1 as [|ev e1 IH]; intros f; cbn.
  - destruct (fetcher_run e2 f). reflexivity.
  - destruct (fetcher_on ev f) as [f1 a1]. rewrite IH.
    destruct (fetcher_run e1 f1) as [f2 a2]. destruct (fetcher_run e2 f2) as [f3 a3].
    rewrite app_assoc. reflexivity.
Qed.

Definition counting (n : Z) (f : fetcher) : fetcher :=
  {| ml_api := ml_api f; ml_jobid := ml_jobid f; ml_limit := ml_limit f;
     ml_npending := ml_npending f; ml_ntasks := n; ml_filter := ml_filter f;
     ml_req_job := ml_req_job f; ml_req_tasks := ml_req_tasks f;
     ml_listening := ml_listening f; ml_next := ml_next f |}.

Lemma job_records_run (req : nat) (recs : list obj) (f : fetcher) :
  ml_listening f !! req = Some ReqJob →
  fetcher_run (map (OnRecord req) recs) f = (f, flat_map emitJob recs).
Proof.
  intros H. induction recs as [|v recs IH]; [reflexivity|].
  cbn [map fetcher_run fetcher_on flat_map]. rewrite H, IH. reflexivity.
Qed.

Lemma task_records_run (req : nat) (recs : list obj) (f : fetcher) (n : Z) :
  ml_listening f !! req = Some ReqTasks →
  fetcher_run (map (OnRecord req) recs) (counting n f) =
    (counting (n + Z.of_nat (length recs)) f, flat_map emitTask recs).
Proof.
  intros H. revert n. induction recs as [|v recs IH]; intros n.
  - cbn. rewrite Z.add_0_r. reflexivity.
  - cbn [map fetcher_run fetcher_on flat_map counting ml_listening]. rewrite H.
    specialize (IH (n + 1)). unfold counting in IH at 1. cbn [counting ml_api ml_jobid
      ml_limit ml_npending ml_ntasks ml_filter ml_req_job ml_req_tasks ml_listening ml_next].
    rewrite IH. replace (n + 1 + Z.of_nat (length recs))
      with (n + Z.of_nat (length (v :: recs))) by (cbn [length]; lia).
    reflexivity.
Qed.

(** The state when a full page has ended and the next query is made. *)
Definition next_page (req : nat) (f : fetcher) : fetcher :=
  {| ml_api := ml_api f; ml_jobid := ml_jobid f; ml_limit := ml_limit f;
     ml_npending := ml_npending f - 1 + 1; ml_ntasks := 0; ml_filter := ml_filter f;
     ml_req_job := ml_req_job f; ml_req_tasks := Some (ml_next f);
     ml_listening := <[ml_next f := ReqTasks]> (delete req (ml_listening f));
     ml_next := S (ml_next f) |}.

Lemma full_page_run (req : nat) (recs : list obj) (f : fetcher) :
  ml_listening f !! req = Some ReqTasks →
  ml_limit f ≤ Z.of_nat (length recs) →
  fetcher_run (page req recs) (counting 0 f) =
    (next_page req f,
     flat_map emitTask recs ++
       [FindObjects (ml_next f) (task (ma_buckets (ml_api f))) (ml_filter f) (ml_limit f)]).
Proof.
  intros Hreq Hfull. unfold page. rewrite fetcher_run_app.
  rewrite (task_records_run req recs f 0 Hreq).
  cbn [fetcher_run fetcher_on counting ml_listening]. rewrite Hreq.
  cbn [stop_listening ml_ntasks ml_limit counting].
  destruct (0 + Z.of_nat (length recs) <? ml_limit f) eqn:E; [apply Z.ltb_lt in E; lia|].
  unfold fetchTasks. cbn. reflexivity.
Qed.

Lemma pages_run (a : api) (jobid : string) (recs : list obj) (k : nat) (req : nat)
    (f : fetcher) :
  length recs = 1000%nat →
  ml_api f = a → ml_filter f = "(jobId=" +:+ jobid +:+ ")" → ml_limit f = 1000 →
  ml_ntasks f = 0 → ml_next f = S req →
  ml_listening f !! req = Some ReqTasks →
  ∃ f', fetcher_run (pages k req recs) f = (f', paged a jobid recs k req) ∧
        ml_listening f' !! (k + req)%nat = Some ReqTasks ∧
        ml_npending f' = ml_npending f.
Proof.
  intros Hlen. revert req f. induction k as [|k IH];
    intros req f Hapi Hfilter Hlimit Hn Hnext Hreq.
  - exists f. cbn. auto.
  - cbn [pages paged]. rewrite fetcher_run_app.
    assert (f = counting 0 f) as Hf by (destruct f; cbn in Hn; subst; reflexivity).
    replace (fetcher_run (page req recs) f)
      with (fetcher_run (page req recs) (counting 0 f)) by (rewrite <- Hf; reflexivity).
    rewrite (full_page_run req recs f Hreq) by (rewrite Hlimit, Hlen; lia).
    destruct (IH (S req) (next_page req f)) as (f' & Hrun & Hl & Hp); try assumption;
      try reflexivity.
    { cbn. rewrite Hnext. reflexivity. }
    { cbn [next_page ml_listening]. rewrite Hnext. apply lookup_insert_eq. }
    rewrite Hrun. exists f'. split.
    + rewrite Hapi, Hfilter, Hlimit, Hnext. unfold tasks_query.
      rewrite <- app_assoc. reflexivity.
    + split; [replace (S k + req)%nat with (k + S req)%nat by lia; exact Hl|].
      rewrite Hp. cbn. lia.
Qed.

Lemma flat_map_quiet (emit : obj → list fl_action) (recs : list obj) :
  (∀ v, quiet (emit v)) → quiet (flat_map emit recs).
Proof.
  intros H. induction recs as [|v recs IH]; cbn; [constructor|].
  apply quiet_app; [apply H | exact IH].
Qed.

Lemma paged_quiet (a : api) (jobid : string) (recs : list obj) (k : nat) (req : nat) :
  quiet (paged a jobid recs k req).
Proof.
  revert req. induction k as [|k IH]; intros req; cbn; [constructor|].
  apply quiet_app.
  - apply flat_map_quiet. intros v. apply emitTask_log.
  - constructor; [split; discriminate | apply IH].
Qed.

(** X19.  A page of tasks that is full is followed by the same query: the
    bucket, the filter and the limit of the first, with nothing that says
    where to go on.  A store that answers the same query with the same
    thousand records is asked again after every page, whatever the number of
    pages: the entries of the thousand tasks are emitted once more each
    time, a query for the tasks stays open, and [end] is not emitted, though
    the query for the job has ended. *)
Theorem jobFetchLog_full_pages_repeat
    (a : api) (jobid : string) (jobs recs : list obj) (k : nat) :
  length recs = 1000%nat →
  ∃ f,
    jobFetchLog a jobid (page 0 jobs ++ pages k 1 recs) =
      (f, FindObjects 0 (job (ma_buckets a)) ("(jobId=" +:+ jobid +:+ ")") 1000 ::
          tasks_query a jobid 1 :: flat_map emitJob jobs ++ paged a jobid recs k 1) ∧
    ml_listening f !! S k = Some ReqTasks ∧
    ml_npending f = 1 ∧
    (EmitEnd ∉ flat_map emitJob jobs ++ paged a jobid recs k 1).
Proof.
  intros Hlen. unfold jobFetchLog.
  cbn [fetcher_start JobLogFetcher ml_req_job ml_req_tasks ml_npending
       Z.eqb negb fetchTasks ml_next ml_api ml_jobid ml_limit
       ml_ntasks ml_filter ml_listening].
  rewrite fetcher_run_app. unfold page at 1. rewrite fetcher_run_app.
  rewrite job_records_run by (cbn; reflexivity).
  cbn [fetcher_run fetcher_on ml_listening].
  rewrite lookup_insert_ne by discriminate. rewrite lookup_insert_eq.
  unfold checkDone. cbn [stop_listening ml_npending Z.ltb Z.compare Z.add Z.sub Z.eqb negb
                         Pos.add Pos.succ Z.opp Z.pos_sub Pos.pred_double
                         ml_api ml_jobid ml_limit ml_ntasks ml_filter ml_req_job
                         ml_req_tasks ml_listening ml_next].
  change (0 + 1 + 1) with 2. change (negb (0 <? 2)) with false.
  change (2 - 1 =? 0) with false. change (2 - 1) with 1. cbv iota beta.
  match goal with
  | |- context [fetcher_run (pages k 1 recs) ?f0] =>
      assert (ml_listening f0 !! 1%nat = Some ReqTasks) as Hlk
        by (cbn [ml_listening]; rewrite lookup_delete_ne by discriminate;
            apply lookup_insert_eq);
      destruct (pages_run a jobid recs k 1 f0 Hlen eq_refl eq_refl eq_refl eq_refl
                  eq_refl Hlk) as (f' & Hrun & Hl & Hp)
  end.
  rewrite Hrun. exists f'. split; [|split; [|split]].
  - cbn [app]. rewrite !app_nil_r. reflexivity.
  - replace (S k) with (k + 1)%nat by lia. exact Hl.
  - rewrite Hp. reflexivity.
  - apply quiet_no_end. apply quiet_app; [|apply paged_quiet].
    apply flat_map_quiet. intros v. apply emitJob_log.
Qed.

Lemma jobFetchLog_full_pages_repeat_witness :
  ∃ f,
    jobFetchLog demo_api "j-1" (page 0 [demo_job] ++ pages 2 1 (replicate 1000 bare_task)) =
      (f, FindObjects 0 "marlin_jobs_v2" "(jobId=j-1)" 1000 ::
          tasks_query demo_api "j-1" 1 ::
          flat_map emitJob [demo_job] ++
          paged demo_api "j-1" (replicate 1000 bare_task) 2 1) ∧
    ml_listening f !! 3%nat = Some ReqTasks ∧
    ml_npending f = 1 ∧
    (EmitEnd ∉ flat_map emitJob [demo_job] ++
               paged demo_api "j-1" (replicate 1000 bare_task) 2 1).
Proof.
  apply (jobFetchLog_full_pages_repeat demo_api "j-1" [demo_job]
           (replicate 1000 bare_task) 2).
  apply length_replicate.
Defined.

(** ** [jobDelete] against a store *)

(** The store, for the records of one job: [left b] is their number in the
    bucket [b].  A batch of [deleteMany] requests deletes for each request
    up to its limit of them and reports the number deleted. *)
Definition upd (left : string → Z) (b : string) (n : Z) : string → Z :=
  λ b', if bool_decide (b' = b) then n else left b'.

Fixpoint store_batch (reqs : list batchreq) (left : string → Z)
  : list metaent * (string → Z) :=
  match reqs with
  | [] => ([], left)
  | r :: rest =>
      let b := req_bucket r in
      let c := Z.min (left b) (req_limit r) in
      let '(ms, left') := store_batch rest (upd left b (left b - c)) in
      ({| m_bucket := b; m_count := c |} :: ms, left')
  end.

(** [jobDelete] with the store answering each of its calls, [n] of them at
    most: what is done, what is left, and whether the record of the job is
    deleted. *)
Fixpoint jobDelete_on (n : nat) (a : api) (jobId : string) (lim tmo : Z)
    (w : waiting) (st : jobDelete_state) (left : string → Z)
  : list jd_action * (string → Z) * bool :=
  match n with
  | O => ([], left, false)
  | S n' =>
      match w with
      | WaitBatch =>
          let '(etags, left1) := store_batch (requests st) left in
          let '(w1, st1, acts) :=
            jobDelete_run a jobId lim tmo w st [BatchReply (inr etags)] in
          let '(acts2, left2, gone) := jobDelete_on n' a jobId lim tmo w1 st1 left1 in
          (acts ++ acts2, left2, gone)
      | WaitDelete =>
          let '(w1, st1, acts) := jobDelete_run a jobId lim tmo w st [DeleteReply None] in
          let '(acts2, left2, _) := jobDelete_on n' a jobId lim tmo w1 st1 left in
          (acts ++ acts2, left2, true)
      | Finished => ([], left, false)
      end
  end.

Definition jobDelete_against (n : nat) (a : api) (jobId : string) (o : options)
    (left : string → Z) : list jd_action * (string → Z) * bool :=
  let '(w, st, acts0) := jobDelete a jobId o [] in
  let '(acts, left', gone) :=
    jobDelete_on n a jobId (jobDelete_limit o) (jobDelete_timeout o) w st left in
  (acts0 ++ acts, left', gone).

(** The buckets of the records that belong to a job. *)
Definition children (a : api) : list string :=
  [ jobinput (ma_buckets a); error (ma_buckets a); task (ma_buckets a);
    taskinput (ma_buckets a); taskoutput (ma_buckets a) ].

(** Requests for different buckets, all with the limit. *)
Definition distinct (lim : Z) (reqs : list batchreq) : Prop :=
  NoDup (map req_bucket reqs) ∧ Forall (λ r, req_limit r = lim) reqs.

Lemma distinct_filter (lim : Z) (P : batchreq → Prop) `{∀ r, Decision (P r)}
    (reqs : list batchreq) :
  distinct lim reqs → distinct lim (filter P reqs).
Proof.
  intros [Hnd Hall]. split.
  - induction reqs as [|r reqs IH]; [constructor|].
    cbn [map] in Hnd. apply NoDup_cons in Hnd as [Hr Hnd]. apply Forall_cons in Hall as [_ Hall].
    rewrite filter_cons. destruct (decide (P r)); [|apply IH; assumption].
    cbn [map]. apply NoDup_cons. split; [|apply IH; assumption].
    intros Hin. apply Hr. apply list_elem_of_fmap in Hin as (r' & -> & Hin).
    apply list_elem_of_filter in Hin as [_ Hin]. apply (list_elem_of_fmap_2 req_bucket), Hin.
  - apply Forall_forall. intros r [_ Hin]%list_elem_of_filter.
    eapply Forall_forall in Hall; eauto.
Qed.

Lemma distinct_fold (lim : Z) (etags : list metaent) (acc : list batchreq * bool) :
  distinct lim acc.1 → distinct lim (fold_left (jobDelete_entry lim) etags acc).1.
Proof.
  revert acc. induction etags as [|m etags IH]; intros acc Hacc; [exact Hacc|].
  cbn [fold_left]. apply IH. unfold jobDelete_entry.
  destruct (m_count m <? lim); cbn [fst]; [apply distinct_filter|]; exact Hacc.
Qed.

Definition counts (lim : Z) (left : string → Z) (reqs : list batchreq) : list metaent :=
  map (λ r, {| m_bucket := req_bucket r; m_count := Z.min (left (req_bucket r)) lim |}) reqs.

Lemma store_batch_distinct (lim : Z) (reqs : list batchreq) (left : string → Z) :
  distinct lim reqs →
  (store_batch reqs left).1 = counts lim left reqs ∧
  ∀ b, (store_batch reqs left).2 b =
       if bool_decide (b ∈ map req_bucket reqs) then left b - Z.min (left b) lim
       else left b.
Proof.
  revert left. induction reqs as [|r reqs IH]; intros left [Hnd Hall].
  - split; [reflexivity|]. intros b. rewrite bool_decide_eq_false_2; [reflexivity|].
    intros H. inversion H.
  - cbn [map] in Hnd. apply NoDup_cons in Hnd as [Hr Hnd].
    apply Forall_cons in Hall as [Hlim Hall].
    cbn [store_batch]. rewrite Hlim.
    destruct (IH (upd left (req_bucket r) (left (req_bucket r) - Z.min (left (req_bucket r)) lim))
                (conj Hnd Hall)) as [IH1 IH2].
    destruct (store_batch reqs _) as [ms left'] eqn:E. cbn [fst snd] in *. split.
    + unfold counts. cbn [map]. f_equal. rewrite IH1. unfold counts.
      apply map_ext_in. intros r' Hin. unfold upd.
      rewrite bool_decide_eq_false_2; [reflexivity|].
      intros Heq. apply Hr. rewrite <- Heq.
      apply (list_elem_of_fmap_2 req_bucket), list_elem_of_In, Hin.
    + intros b. rewrite IH2. unfold upd. cbn [map].
      destruct (decide (b = req_bucket r)) as [->|Hne].
      * rewrite (bool_decide_eq_false_2 (req_bucket r ∈ map req_bucket reqs)) by exact Hr.
        rewrite bool_decide_eq_true_2 by reflexivity.
        rewrite bool_decide_eq_true_2 by (left). reflexivity.
      * rewrite (bool_decide_eq_false_2 (b = req_bucket r)) by exact Hne.
        destruct (decide (b ∈ map req_bucket reqs)) as [Hin|Hnin].
        -- rewrite !bool_decide_eq_true_2; [reflexivity | right; exact Hin | exact Hin].
        -- rewrite !bool_decide_eq_false_2; [reflexivity | | exact Hnin].
           intros [?|?]%elem_of_cons; contradiction.
Qed.

(** What holds when a batch call is made. *)
Definition emptying (a : api) (lim : Z) (st : jobDelete_state) (left : string → Z)
  : Prop :=
  callback_invoked st = false ∧
  distinct lim (requests st) ∧
  (∀ r, r ∈ requests st → req_bucket r ∈ children a) ∧
  (∀ b, b ∈ children a → b ∉ map req_bucket (requests st) → left b = 0) ∧
  (∀ b, 0 ≤ left b).

Definition emptied (a : api) (jobId : string) (n : nat) (left : string → Z)
    (r : list jd_action * (string → Z) * bool) : Prop :=
  ∃ batches,
    r.1.1 = batches ++ [ClientDeleteObject (job (ma_buckets a)) jobId; Callback None] ∧
    Forall is_batch batches ∧
    (length batches ≤ n)%nat ∧
    r.2 = true ∧
    (∀ b, b ∈ children a → r.1.2 b = 0) ∧
    (∀ b, b ∉ children a → r.1.2 b = left b).

Lemma jobDelete_on_finished (n : nat) (a : api) (jobId : string) (lim tmo : Z)
    (st : jobDelete_state) (left : string → Z) :
  jobDelete_on n a jobId lim tmo Finished st left = ([], left, false).
Proof. destruct n; reflexivity. Qed.

Lemma jobDelete_on_delete (n : nat) (a : api) (jobId : string) (lim tmo : Z)
    (st : jobDelete_state) (left : string → Z) :
  callback_invoked st = false →
  jobDelete_on (S n) a jobId lim tmo WaitDelete st left = ([Callback None], left, true).
Proof.
  intros H. cbn [jobDelete_on jobDelete_run]. unfold jobDelete_deleted. rewrite H.
  rewrite !jobDelete_on_finished. reflexivity.
Qed.

Lemma jobDelete_on_batch (n : nat) (a : api) (jobId : string) (lim tmo : Z)
    (st : jobDelete_state) (left : string → Z) :
  jobDelete_on (S n) a jobId lim tmo WaitBatch st left =
    let '(etags, left1) := store_batch (requests st) left in
    let '(st1, acts) := jobDelete_cb a jobId lim tmo (inr etags) st in
    let '(acts2, left2, gone) :=
      jobDelete_on n a jobId lim tmo (waiting_after acts) st1 left1 in
    (acts ++ acts2, left2, gone).
Proof.
  cbn [jobDelete_on jobDelete_run]. destruct (store_batch (requests st) left) as [etags left1].
  destruct (jobDelete_cb a jobId lim tmo (inr etags) st) as [st1 acts].
  rewrite app_nil_r. reflexivity.
Qed.

(** One batch call and its answer: the records that were left are fewer
    than the limit in every bucket and the job is deleted next, or there is
    another batch call. *)
Lemma batch_round (a : api) (jobId : string) (lim tmo : Z) (st : jobDelete_state)
    (left : string → Z) :
  0 < lim →
  emptying a lim st left →
  ∃ left1,
    (∀ b, left1 b = if bool_decide (b ∈ map req_bucket (requests st))
                    then left b - Z.min (left b) lim else left b) ∧
    (((∀ r, r ∈ requests st → left (req_bucket r) < lim) ∧
      ∀ n, jobDelete_on (S (S n)) a jobId lim tmo WaitBatch st left =
             ([ClientDeleteObject (job (ma_buckets a)) jobId; Callback None], left1, true)) ∨
     ((∃ r, r ∈ requests st ∧ lim ≤ left (req_bucket r)) ∧
      ∃ st1, emptying a lim st1 left1 ∧
        ∀ n, jobDelete_on (S n) a jobId lim tmo WaitBatch st left =
               let '(acts2, left2, gone) :=
                 jobDelete_on n a jobId lim tmo WaitBatch st1 left1 in
               (ClientBatch (requests st1) tmo :: acts2, left2, gone))).
Proof.
  intros Hlim (Hcb & Hdist & Hchild & Hzero & Hpos).
  destruct (store_batch_distinct lim (requests st) left Hdist) as [Hetags Hleft].
  destruct (store_batch (requests st) left) as [etags left1] eqn:Ebatch.
  cbn [fst snd] in Hetags, Hleft. subst etags.
  pose proof (entry_fold lim (counts lim left (requests st)) (requests st, true))
    as [Hmem Hdone].
  pose proof (distinct_fold lim (counts lim left (requests st)) (requests st, true) Hdist)
    as Hdist'.
  destruct (fold_left (jobDelete_entry lim) (counts lim left (requests st))
              (requests st, true)) as [reqs' done] eqn:Efold.
  cbn [fst snd andb] in Hmem, Hdone, Hdist'.
  assert (∀ r, r ∈ requests st →
            {| m_bucket := req_bucket r; m_count := Z.min (left (req_bucket r)) lim |}
              ∈ counts lim left (requests st)) as Hcount.
  { intros r Hr. unfold counts.
    apply (list_elem_of_fmap_2
             (λ r, {| m_bucket := req_bucket r;
                      m_count := Z.min (left (req_bucket r)) lim |})), Hr. }
  exists left1. split; [exact Hleft|].
  destruct done.
  - left. symmetry in Hdone. rewrite forallb_forall in Hdone.
    assert (∀ r, r ∈ requests st → left (req_bucket r) < lim) as Hsmall.
    { intros r Hr. specialize (Hdone _ (proj1 (list_elem_of_In _ _) (Hcount r Hr))).
      apply Z.ltb_lt in Hdone. cbn [m_count] in Hdone. lia. }
    split; [exact Hsmall|]. intros n.
    rewrite jobDelete_on_batch, Ebatch. unfold jobDelete_cb.
    rewrite Hcb, Efold. cbn [negb waiting_after].
    rewrite jobDelete_on_delete by reflexivity. reflexivity.
  - right. symmetry in Hdone. split.
    { apply not_true_iff_false in Hdone.
      destruct (decide (Exists (λ r, lim ≤ left (req_bucket r)) (requests st))) as [Hex|Hno].
      - apply Exists_exists in Hex. exact Hex.
      - exfalso. apply Hdone. apply forallb_forall. intros m Hm.
        apply list_elem_of_In in Hm. unfold counts in Hm.
        apply list_elem_of_fmap in Hm as (r & -> & Hr). cbn [m_count]. apply Z.ltb_lt.
        destruct (decide (lim ≤ left (req_bucket r))) as [Hle|Hlt]; [|lia].
        exfalso. apply Hno. apply Exists_exists. eauto. }
    exists {| requests := reqs'; callback_invoked := false |}. split.
    + split; [reflexivity|]. split; [exact Hdist'|]. cbn [requests]. split; [|split].
      * intros r Hr. apply Hmem in Hr as [Hr _]. apply Hchild, Hr.
      * intros b Hb Hnot. rewrite Hleft. case_bool_decide as Hin; [|apply Hzero; assumption].
        apply list_elem_of_fmap in Hin as (r & -> & Hr).
        destruct (decide (Z.min (left (req_bucket r)) lim < lim)) as [Hlt|Hge];
          [specialize (Hpos (req_bucket r)); lia|].
        exfalso. apply Hnot. apply (list_elem_of_fmap_2 req_bucket). apply Hmem.
        split; [exact Hr|]. intros m Hm Hlt Heq.
        unfold counts in Hm. apply list_elem_of_fmap in Hm as (r' & -> & Hr').
        cbn [m_bucket m_count] in *.
        assert (r = r') as <- by (eapply NoDup_fmap_eq; [apply Hdist | assumption..]).
        lia.
      * intros b. rewrite Hleft. specialize (Hpos b). case_bool_decide; lia.
    + intros n. rewrite jobDelete_on_batch, Ebatch. unfold jobDelete_cb.
      rewrite Hcb, Efold. cbn [negb waiting_after requests].
      destruct (jobDelete_on n a jobId lim tmo WaitBatch _ left1) as [[acts2 left2] gone].
      reflexivity.
Qed.

Lemma jobDelete_on_emptying (n : nat) (a : api) (jobId : string) (lim tmo : Z)
    (st : jobDelete_state) (left : string → Z) :
  0 < lim →
  emptying a lim st left →
  (∀ b, b ∈ children a → left b < Z.of_nat (S n) * lim) →
  emptied a jobId n left (jobDelete_on (S (S n)) a jobId lim tmo WaitBatch st left).
Proof.
  intros Hlim. revert st left. induction n as [|n IH]; intros st left Hinv Hbound;
    destruct (batch_round a jobId lim tmo st left Hlim Hinv)
      as (left1 & Hleft & [[Hsmall Hrun] | [(r & Hr & Hbig) (st1 & Hinv1 & Hrun)]]);
    pose proof Hinv as (Hcb & Hdist & Hchild & Hzero & Hpos).
  1, 3: rewrite Hrun; exists []; cbn [fst snd app]; repeat split; auto; try constructor;
      try (cbn; lia); intros b Hb; rewrite Hleft; case_bool_decide as Hin; try reflexivity.
  1, 4: apply list_elem_of_fmap in Hin as (r & -> & Hr); specialize (Hsmall r Hr);
      specialize (Hpos (req_bucket r)); lia.
  1, 3: apply Hzero; assumption.
  1, 2: exfalso; apply list_elem_of_fmap in Hin as (r & -> & Hr); apply Hb, Hchild, Hr.
  - exfalso. specialize (Hbound _ (Hchild r Hr)). lia.
  - assert (∀ b, b ∈ children a → left1 b < Z.of_nat (S n) * lim) as Hbound'.
    { intros b Hb. rewrite Hleft. specialize (Hbound b Hb). specialize (Hpos b).
      case_bool_decide as Hin; [lia|]. rewrite (Hzero b Hb Hin). lia. }
    specialize (IH _ _ Hinv1 Hbound'). rewrite Hrun.
    destruct (jobDelete_on (S (S n)) a jobId lim tmo WaitBatch st1 left1)
      as [[acts2 left2] gone].
    destruct IH as (batches & Hacts & Hb & Hlen & Hgone & Hz & Hother).
    cbn [fst snd] in *. subst acts2 gone.
    exists (ClientBatch (requests st1) tmo :: batches). cbn [fst snd app].
    split; [reflexivity|]. split; [constructor; [eexists _, _; reflexivity | exact Hb]|].
    split; [cbn; lia|]. split; [reflexivity|]. split; [exact Hz|].
    intros b Hb'. rewrite (Hother b Hb'), Hleft.
    rewrite bool_decide_eq_false_2; [reflexivity|].
    intros Hin. apply list_elem_of_fmap in Hin as (r' & -> & Hr'). apply Hb', Hchild, Hr'.
Qed.

(** X20.  [jobDelete] against a store that holds [left b] records of the job
    in the bucket [b], the five buckets of such records being different:
    when fewer than [(n + 1) * limit] records are in each, the calls are at
    most [n + 1] batch calls, then the delete of the record of the job, then
    the callback without an error.  When the job is deleted no record of it
    is left in any of the five buckets, and no other bucket has changed. *)
Theorem jobDelete_empties_then_deletes
    (a : api) (jobId : string) (o : options) (left : string → Z) (n : nat) :
  NoDup (children a) →
  (∀ b, 0 ≤ left b) →
  (∀ b, b ∈ children a → left b < Z.of_nat (S n) * jobDelete_limit o) →
  ∃ batches,
    (jobDelete_against (S (S n)) a jobId o left).1.1 =
      batches ++ [ClientDeleteObject (job (ma_buckets a)) jobId; Callback None] ∧
    Forall is_batch batches ∧
    (1 ≤ length batches ≤ S n)%nat ∧
    (jobDelete_against (S (S n)) a jobId o left).2 = true ∧
    (∀ b, b ∈ children a → (jobDelete_against (S (S n)) a jobId o left).1.2 b = 0) ∧
    (∀ b, b ∉ children a → (jobDelete_against (S (S n)) a jobId o left).1.2 b = left b).
Proof.
  intros Hnd Hpos Hbound.
  assert (0 < jobDelete_limit o) as Hlim.
  { specialize (Hbound (jobinput (ma_buckets a)) ltac:(left)).
    specialize (Hpos (jobinput (ma_buckets a))). nia. }
  unfold jobDelete_against, jobDelete. cbn [jobDelete_run].
  set (st0 := {| requests := jobDelete_requests a jobId (jobDelete_limit o);
                 callback_invoked := false |}).
  assert (emptying a (jobDelete_limit o) st0 left) as Hinv.
  { split; [reflexivity|]. split; [split; [exact Hnd | repeat constructor]|].
    split; [|split; [|exact Hpos]].
    - intros r Hr. apply (list_elem_of_fmap_2 req_bucket) in Hr. exact Hr.
    - intros b Hb Hnot. contradiction. }
  pose proof (jobDelete_on_emptying n a jobId (jobDelete_limit o) (jobDelete_timeout o)
                st0 left Hlim Hinv Hbound) as H.
  destruct (jobDelete_on (S (S n)) a jobId _ _ WaitBatch st0 left) as [[acts left'] gone].
  destruct H as (batches & Hacts & Hb & Hlen & Hgone & Hz & Hother).
  cbn [fst snd] in *. subst acts gone.
  exists (ClientBatch (requests st0) (jobDelete_timeout o) :: batches).
  split; [reflexivity|]. split; [constructor; [eexists _, _; reflexivity | exact Hb]|].
  split; [cbn [length]; lia|]. auto.
Qed.

(** Of the job, 1200 tasks and 3 errors are stored. *)
Definition leftovers : string → Z :=
  λ b, if bool_decide (b = "marlin_tasks_v2") then 1200
       else if bool_decide (b = "marlin_errors_v2") then 3 else 0.

Lemma jobDelete_empties_then_deletes_witness :
  ∃ batches,
    (jobDelete_against 4 demo_api "j-1" no_options leftovers).1.1 =
      batches ++ [ClientDeleteObject "marlin_jobs_v2" "j-1"; Callback None] ∧
    Forall is_batch batches ∧
    (1 ≤ length batches ≤ 3)%nat ∧
    (jobDelete_against 4 demo_api "j-1" no_options leftovers).2 = true ∧
    (∀ b, b ∈ children demo_api →
          (jobDelete_against 4 demo_api "j-1" no_options leftovers).1.2 b = 0) ∧
    (∀ b, b ∉ children demo_api →
          (jobDelete_against 4 demo_api "j-1" no_options leftovers).1.2 b = leftovers b).
Proof.
  apply (jobDelete_empties_then_deletes demo_api "j-1" no_options leftovers 2).
  - apply (bool_decide_unpack _). vm_compute. exact I.
  - intros b. unfold leftovers. repeat case_bool_decide; lia.
  - intros b _. unfold leftovers. repeat case_bool_decide; vm_compute; reflexivity.
Defined.

(** The three batch calls for it: all five buckets, then the tasks, twice. *)
Example jobDelete_1200_tasks :
  (jobDelete_against 4 demo_api "j-1" no_options leftovers).1.1 =
    [ ClientBatch (jobDelete_requests demo_api "j-1" 500) 300000;
      ClientBatch [deleteMany "marlin_tasks_v2" "j-1" 500] 300000;
      ClientBatch [deleteMany "marlin_tasks_v2" "j-1" 500] 300000;
      ClientDeleteObject "marlin_jobs_v2" "j-1";
      Callback None ].
Proof. vm_compute. reflexivity. Qed.

(** ** [jobArchiveStart] and the list of the jobs to archive *)

Definition with_wrasse (w : wrasse_filter) : list_options :=
  {| o_state := None; o_name := None; o_owner := None; o_jobId := None;
     o_worker := None; o_cancelled := false; o_archived := None;
     o_archiveStartedBefore := None; o_archivedBefore := None;
     o_wrasse := w; o_doneSince := None; o_mtime := None;
     o_not_mtime := None; o_marker := None; o_limit := None;
     o_sort_order := None |}.

Definition archiving (o : options) (t : Z) (v : obj) : obj :=
  <["wrasse" := wrasse o]> (<["timeArchiveStarted" := JStr (iso8601 t)]> v).

Lemma exec_jobArchiveStart (a : api) (jobid : string) (o : options) (s : store) (v : obj)
    (e : nat) :
  objects s !! (job (ma_buckets a), jobid) = Some (v, e) →
  exec memory (jobArchiveStart a jobid o) s =
    (Ok {| bucket := job (ma_buckets a); key := jobid; value := v; _etag := e |},
     store_write (job (ma_buckets a)) jobid (archiving o (clock s) v) (store_now s).2,
     [CallGet (job (ma_buckets a)) jobid;
      CallPut (job (ma_buckets a)) jobid (archiving o (clock s) v) (Some e)]).
Proof.
  intros Hs. apply exec_jobFetchAndUpdate_ok. rewrite exec_try. cbn zeta.
  cbn [memory getObject]. unfold store_get. rewrite Hs.
  cbn [exec memory date_now putObject store_now value _etag jobArchiveStart_updatef].
  unfold store_put. cbn [objects]. rewrite Hs.
  rewrite bool_decide_eq_true_2 by reflexivity. reflexivity.
Qed.

Definition claimed (a : api) (jobid : string) (o : options) (s : store) (v : obj) (e : nat)
    (sJobStates : list string) (now : Z) : Prop :=
  ∃ s' v',
    (exec memory (jobArchiveStart a jobid o) s).1 =
      (Ok {| bucket := job (ma_buckets a); key := jobid; value := v; _etag := e |}, s') ∧
    stored a jobid s' = Some v' ∧
    ∀ value_le value_ge : jsval → string → bool,
      findObjects value_le value_ge (jobsList_query sJobStates now (with_wrasse WrasseNull))
        [v'] = [] ∧
      findObjects value_le value_ge (jobsList_query sJobStates now (with_wrasse WrasseTrue))
        [v'] = [v'] ∧
      ∀ w, wrasse o = JStr w → is_token w = true →
           findObjects value_le value_ge
             (jobsList_query sJobStates now (with_wrasse (WrasseIs w))) [v'] = [v'].

(** X21.  An archiver that starts on a job takes it off the list of the
    jobs no archiver has: after [jobArchiveStart] with the name of the
    archiver in [options.wrasse], the job as stored is not found by
    [jobsList] with [wrasse] [null], and is found with [wrasse] [true] and,
    the name being a token, with [wrasse] the name. *)
Theorem jobArchiveStart_claims_job
    (a : api) (jobid : string) (o : options) (s : store) (v : obj) (e : nat)
    (sJobStates : list string) (now : Z) :
  objects s !! (job (ma_buckets a), jobid) = Some (v, e) →
  present (Some (wrasse o)) = true →
  claimed a jobid o s v e sJobStates now.
Proof.
  intros Hs Hw. exists (store_write (job (ma_buckets a)) jobid (archiving o (clock s) v)
                          (store_now s).2), (archiving o (clock s) v).
  rewrite (exec_jobArchiveStart a jobid o s v e Hs). split; [reflexivity|].
  split; [unfold stored; cbn [objects store_write]; rewrite lookup_insert_eq; reflexivity|].
  assert (archiving o (clock s) v !! "wrasse" = Some (wrasse o)) as Hlook
    by (unfold archiving; apply lookup_insert_eq).
  intros value_le value_ge. unfold findObjects. split; [|split].
  - rewrite filter_cons, filter_nil. rewrite decide_False; [reflexivity|].
    cbn. rewrite Hlook, Hw. discriminate.
  - rewrite filter_cons, filter_nil. rewrite decide_True; [reflexivity|].
    cbn. rewrite Hlook, Hw. reflexivity.
  - intros w Hname Htoken. rewrite filter_cons, filter_nil.
    rewrite decide_True; [reflexivity|].
    unfold jobsList_query, jobsList_exprs, token_expr. cbn [with_wrasse o_state o_name
      o_owner o_jobId o_worker o_cancelled o_archived o_archiveStartedBefore
      o_archivedBefore o_wrasse o_doneSince o_mtime o_not_mtime token_given given
      opt_expr app].
    rewrite Htoken. cbn. rewrite Hlook, Hname. rewrite bool_decide_eq_true_2; reflexivity.
Qed.

Definition by_wrasse_1 : options :=
  {| retry := None; wrasse := JStr "wrasse-1"; limit := None; timeout := None |}.

Lemma jobArchiveStart_claims_job_witness :
  claimed demo_api "j-1" by_wrasse_1 (demo_store demo_job) demo_job 7
    ["queued"; "running"; "done"] 1362182410000.
Proof.
  apply (jobArchiveStart_claims_job demo_api "j-1" by_wrasse_1 (demo_store demo_job)
           demo_job 7); reflexivity.
Defined.

End MarlinSpec.
